(** * OAuth2 credential lifecycle of the Money Forward Cloud MCP server

    A shallow embedding of the credential core of the server:
    - [token-store.ts]   (both revisions found in the sources),
    - [callback-server.ts] (both revisions found in the sources),
    - [oauth-client.ts],
    - [auth-manager.ts],
    and of what is built on it:
    - [tools/common.ts], the two authentication tools,
    - [client/mf-api-client.ts], with the client [index.ts] builds,
    - [tools/invoice/items.ts], for the tools that call the API.

    The listeners of [callback-server.ts] are given twice: on parsed
    requests, and from the target of the request line ([OnTheWire]), where
    [new URL] can throw.

    Asynchronous functions are written in a state-and-exception monad over
    an explicit [World]: the file system, the wall clock, the listening
    sockets, the scripted behaviour of the outside (token endpoint answers,
    browser callbacks, random bytes) and a trace of observable effects.
    A promise that is never settled is the result [Pending]. *)

From stdpp Require Import gmap strings list pretty.
From Stdlib Require Import ZArith Lia Ascii.

Local Open Scope Z_scope.

(* ===================================================================== *)
(** * JavaScript values that cross the JSON boundary *)
(* ===================================================================== *)

(** The result of [JSON.parse]. Numbers in the token file are epoch
    milliseconds; they are modelled as integers. An object is the list of
    its own properties in insertion order. *)
#[warnings="-register-all"]
Inductive json : Type :=
  | JNull
  | JBool (b : bool)
  | JNum (n : Z)
  | JStr (s : string)
  | JArr (items : list json)
  | JObj (props : list (string * json)).

(** The answers of the [typeof] operator that the sources test for.
    [typeof undefined] is ["undefined"], [typeof null] and [typeof []] are
    ["object"]. *)
Inductive jstype := TUndefined | TObject | TBoolean | TNumber | TString.

Definition typeof (v : option json) : jstype :=
  match v with
  | None => TUndefined
  | Some JNull => TObject
  | Some (JBool _) => TBoolean
  | Some (JNum _) => TNumber
  | Some (JStr _) => TString
  | Some (JArr _) => TObject
  | Some (JObj _) => TObject
  end.

Definition jstype_eqb (a b : jstype) : bool :=
  match a, b with
  | TUndefined, TUndefined | TObject, TObject | TBoolean, TBoolean
  | TNumber, TNumber | TString, TString => true
  | _, _ => false
  end.

Fixpoint assoc {A : Type} (k : string) (l : list (string * A)) : option A :=
  match l with
  | [] => None
  | (k', v) :: rest => if String.eqb k k' then Some v else assoc k rest
  end.

(** Property read [o.k]; [None] is [undefined]. Only the four token keys are
    ever read, and neither arrays nor [Object.prototype] own them. *)
Definition prop (o : json) (k : string) : option json :=
  match o with
  | JObj props => assoc k props
  | _ => None
  end.

(** The platform's JSON codec: [JSON.parse] ([None] is a thrown
    [SyntaxError]) and [JSON.stringify(_, null, 2)]. *)
Class JsonCodec := {
  JSON_parse : string → option json;
  JSON_stringify : json → string
}.

(* ===================================================================== *)
(** * token-store.ts: the persisted token *)
(* ===================================================================== *)

Record TokenData := mkTokenData {
  access_token : string;
  refresh_token : string;
  expires_at : Z;
  scope : string
}.

(** The object literal [{ access_token, refresh_token, expires_at, scope }]
    as [JSON.stringify] sees it. *)
Definition TokenData_to_json (t : TokenData) : json :=
  JObj [ ("access_token", JStr (access_token t));
         ("refresh_token", JStr (refresh_token t));
         ("expires_at", JNum (expires_at t));
         ("scope", JStr (scope t)) ].

(** [isValidTokenData(v)]. *)
Definition isValidTokenData (v : json) : bool :=
  if negb (jstype_eqb (typeof (Some v)) TObject) ||
     match v with JNull => true | _ => false end
  then false
  else
    let o := v in
    jstype_eqb (typeof (prop o "access_token")) TString &&
    jstype_eqb (typeof (prop o "refresh_token")) TString &&
    jstype_eqb (typeof (prop o "expires_at")) TNumber &&
    jstype_eqb (typeof (prop o "scope")) TString.

(** The view of a parsed document through the [TokenData] interface: the
    four properties of the interface, read from the object. Defined exactly
    on the documents [isValidTokenData] accepts. *)
Definition as_TokenData (v : json) : option TokenData :=
  match prop v "access_token", prop v "refresh_token",
        prop v "expires_at", prop v "scope" with
  | Some (JStr a), Some (JStr r), Some (JNum e), Some (JStr s) =>
      Some (mkTokenData a r e s)
  | _, _, _, _ => None
  end.

Definition EXPIRY_BUFFER_MS : Z := 60000.

(** ** [expires_at] as JavaScript holds it

    The field is declared [number], and a [number] need not be finite:
    [Date.now() + json.expires_in * 1000] is [NaN] when the answer of the
    token endpoint has no numeric [expires_in]. The integers are the values
    of [TokenData] above; fractions are left out. *)
Inductive number :=
  | Integer (n : Z)
  | NaN
  | PosInfinity
  | NegInfinity.

(** A value of the TypeScript type [TokenData]. *)
Record TokenValue := mkTokenValue {
  tv_access_token : string;
  tv_refresh_token : string;
  tv_expires_at : number;
  tv_scope : string
}.

Definition of_TokenData (t : TokenData) : TokenValue :=
  mkTokenValue (access_token t) (refresh_token t) (Integer (expires_at t)) (scope t).

(** [JSON.stringify] prints a number that is not finite as [null]. *)
Definition number_to_json (x : number) : json :=
  match x with
  | Integer n => JNum n
  | NaN | PosInfinity | NegInfinity => JNull
  end.

Definition TokenValue_to_json (v : TokenValue) : json :=
  JObj [ ("access_token", JStr (tv_access_token v));
         ("refresh_token", JStr (tv_refresh_token v));
         ("expires_at", number_to_json (tv_expires_at v));
         ("scope", JStr (tv_scope v)) ].

(* ===================================================================== *)
(** * Errors and results *)
(* ===================================================================== *)

Inductive Error :=
  | JsError (message : string)      (* new Error(message) *)
  | SystemError (code : string)     (* a Node system error with its errno code *)
  | SyntaxError                     (* JSON.parse, Response.json *)
  | TypeError (message : string).   (* fetch: network failure *)

(** What an awaited promise gives: a value, a rejection, or nothing at all
    when it is never settled. *)
Inductive result (A : Type) :=
  | Ok (a : A)
  | Throw (e : Error)
  | Pending.
Arguments Ok {A} a.
Arguments Throw {A} e.
Arguments Pending {A}.

(* ===================================================================== *)
(** * The file system *)
(* ===================================================================== *)

(** An absolute path is the list of its components; the root is [[]].
    Permissions are those of the owner, on the file that is read or
    written; the permission bits of the directories on the way to it are
    not consulted, so a call that the platform refuses with [EACCES] on one
    of them returns here. *)
Definition dirname (p : list string) : list string := removelast p.

Inductive node :=
  | Dir (mode : Z)
  | File (mode : Z) (data : string).

Record FS := mkFS {
  nodes : gmap (list string) node;
  umask : Z
}.

Definition mode_0o700 : Z := 448.
Definition mode_0o600 : Z := 384.
Definition mode_0o077 : Z := 63.

(** Mode of a node created with requested mode [m]. *)
Definition created_mode (fs : FS) (m : Z) : Z := Z.land m (Z.lnot (umask fs)).

Definition owner_can_read (m : Z) : bool := Z.testbit m 8.
Definition owner_can_write (m : Z) : bool := Z.testbit m 7.

Definition lookup_node (fs : FS) (p : list string) : option node :=
  match p with
  | [] => Some (Dir 493)
  | _ => nodes fs !! p
  end.

Definition set_node (p : list string) (n : node) (fs : FS) : FS :=
  mkFS (<[p := n]> (nodes fs)) (umask fs).

(** [mkdir(d, { recursive: true, mode })]: walks down from the root and
    creates every missing component with [mode]; an existing directory is
    left as it is. *)
Fixpoint mkdir_from (done todo : list string) (mode : Z) (fs : FS) : Error + FS :=
  match todo with
  | [] => inr fs
  | c :: rest =>
      let d := done ++ [c] in
      match lookup_node fs d with
      | Some (Dir _) => mkdir_from d rest mode fs
      | Some (File _ _) =>
          inl (SystemError (match rest with [] => "EEXIST" | _ => "ENOTDIR" end))
      | None => mkdir_from d rest mode (set_node d (Dir (created_mode fs mode)) fs)
      end
  end.

Definition fs_mkdir_recursive (d : list string) (mode : Z) (fs : FS) : Error + FS :=
  mkdir_from [] d mode fs.

(** [writeFile(p, data, { mode })]: the mode only applies when the file is
    created; an existing file keeps its mode and gets the new contents. *)
Definition fs_writeFile (p : list string) (data : string) (mode : Z) (fs : FS)
  : Error + FS :=
  match p with
  | [] => inl (SystemError "EISDIR")
  | _ =>
    match lookup_node fs (dirname p) with
    | None => inl (SystemError "ENOENT")
    | Some (File _ _) => inl (SystemError "ENOTDIR")
    | Some (Dir _) =>
        match lookup_node fs p with
        | None => inr (set_node p (File (created_mode fs mode) data) fs)
        | Some (Dir _) => inl (SystemError "EISDIR")
        | Some (File m _) =>
            if owner_can_write m then inr (set_node p (File m data) fs)
            else inl (SystemError "EACCES")
        end
    end
  end.

(** [chmod(p, mode)]. *)
Definition fs_chmod (p : list string) (mode : Z) (fs : FS) : Error + FS :=
  match p with
  | [] => inl (SystemError "EPERM")
  | _ =>
    match lookup_node fs p with
    | None => inl (SystemError "ENOENT")
    | Some (Dir _) => inr (set_node p (Dir mode) fs)
    | Some (File _ data) => inr (set_node p (File mode data) fs)
    end
  end.

(** [readFile(p, "utf-8")]. *)
Definition fs_readFile (p : list string) (fs : FS) : Error + string :=
  match lookup_node fs p with
  | None => inl (SystemError "ENOENT")
  | Some (Dir _) => inl (SystemError "EISDIR")
  | Some (File m data) =>
      if owner_can_read m then inr data else inl (SystemError "EACCES")
  end.

(* ===================================================================== *)
(** * The world around the process *)
(* ===================================================================== *)

(** An inbound HTTP request, as the handler sees it after
    [new URL(req.url ?? "/", base)]. *)
Record Request := mkRequest {
  pathname : string;
  searchParams : list (string * string)
}.

(** [url.searchParams.get(k)]: the first value of [k], or [null]. *)
Definition searchParams_get (k : string) (r : Request) : option string :=
  assoc k (searchParams r).

(** The token endpoint's JSON body, at the type the client casts it to. *)
Record TokenResponse := mkTokenResponse {
  tr_access_token : string;
  tr_refresh_token : string;
  tr_expires_in : Z;
  tr_scope : string
}.

(** A [Response]: [text()] gives [body_text]; [json()] gives [body_json],
    or rejects with a [SyntaxError] when the body is not JSON. *)
Record Response := mkResponse {
  status : Z;
  body_text : string;
  body_json : option TokenResponse
}.

Definition ok (r : Response) : bool := (200 <=? status r) && (status r <=? 299).

Inductive FetchResult :=
  | NetworkFailure
  | Answer (r : Response).

Inductive Platform := darwin | win32 | other_platform.

(** What does not change while the process runs. *)
Record Host := mkHost {
  platform : Platform;                   (* process.platform *)
  browser_opens : bool                   (* whether the opener command succeeds *)
}.

(** Effects that leave the process. *)
Inductive Event :=
  | ConsoleError (msg : string)
  | ExecFile (cmd : string) (args : list string)
  | Fetch (url : string) (body : string)
  | HttpReply (status : Z) (body : string).

Record World := mkWorld {
  fs : FS;                               (* the disk *)
  clock : Z;                             (* Date.now() *)
  host : Host;
  entropy : list string;                 (* randomBytes(16).toString("hex"), call by call *)
  inbound : list (N * Request);          (* requests to come: delay since the previous event, in ms *)
  responses : list FetchResult;          (* the token endpoint, call by call *)
  listening : list Z;                    (* ports with a listening socket *)
  trace : list Event
}.

Definition set_fs (f : FS) (w : World) : World :=
  mkWorld f (clock w) (host w) (entropy w) (inbound w) (responses w)
          (listening w) (trace w).
Definition set_clock (c : Z) (w : World) : World :=
  mkWorld (fs w) c (host w) (entropy w) (inbound w) (responses w)
          (listening w) (trace w).
Definition set_entropy (e : list string) (w : World) : World :=
  mkWorld (fs w) (clock w) (host w) e (inbound w) (responses w)
          (listening w) (trace w).
Definition set_inbound (i : list (N * Request)) (w : World) : World :=
  mkWorld (fs w) (clock w) (host w) (entropy w) i (responses w)
          (listening w) (trace w).
Definition set_responses (r : list FetchResult) (w : World) : World :=
  mkWorld (fs w) (clock w) (host w) (entropy w) (inbound w) r
          (listening w) (trace w).
Definition set_listening (l : list Z) (w : World) : World :=
  mkWorld (fs w) (clock w) (host w) (entropy w) (inbound w) (responses w)
          l (trace w).
Definition emit (e : Event) (w : World) : World :=
  mkWorld (fs w) (clock w) (host w) (entropy w) (inbound w) (responses w)
          (listening w) (trace w ++ [e]).

(** ** The monad of asynchronous functions *)

Definition M (A : Type) : Type := World → result A * World.

Definition ret {A} (a : A) : M A := λ w, (Ok a, w).
Definition throw {A} (e : Error) : M A := λ w, (Throw e, w).
Definition bind {A B} (m : M A) (k : A → M B) : M B :=
  λ w, match m w with
       | (Ok a, w') => k a w'
       | (Throw e, w') => (Throw e, w')
       | (Pending, w') => (Pending, w')
       end.

(** [try { m } catch { h }]. *)
Definition try_catch {A} (m : M A) (h : M A) : M A :=
  λ w, match m w with
       | (Throw _, w') => h w'
       | r => r
       end.

#[export] Instance M_ret : MRet M := @ret.
#[export] Instance M_bind : MBind M := λ A B k m, bind m k.

Definition console_error (msg : string) : M unit := λ w, (Ok tt, emit (ConsoleError msg) w).
Definition Date_now : M Z := λ w, (Ok (clock w), w).

(** A file-system call, awaited. *)
Definition fs_call (f : FS → Error + FS) : M unit :=
  λ w, match f (fs w) with
       | inl e => (Throw e, w)
       | inr fs' => (Ok tt, set_fs fs' w)
       end.

Definition readFile (p : list string) : M string :=
  λ w, match fs_readFile p (fs w) with
       | inl e => (Throw e, w)
       | inr data => (Ok data, w)
       end.
Definition mkdir_recursive (d : list string) (mode : Z) : M unit :=
  fs_call (fs_mkdir_recursive d mode).
Definition writeFile (p : list string) (data : string) (mode : Z) : M unit :=
  fs_call (fs_writeFile p data mode).
Definition chmod (p : list string) (mode : Z) : M unit :=
  fs_call (fs_chmod p mode).

(* ===================================================================== *)
(** * token-store.ts *)
(* ===================================================================== *)

(** The revision that validates what it loads and enforces the file mode on
    every save. *)
Module TokenStore.
Section TokenStore.
Context `{JsonCodec}.
Variable filePath : list string.

Definition load : M (option TokenData) :=
  try_catch
    (data ← readFile filePath;
     match JSON_parse data with
     | None => throw SyntaxError
     | Some parsed =>
         if negb (isValidTokenData parsed) then ret None
         else ret (as_TokenData parsed)
     end)
    (ret None).

Definition save (tokens : TokenData) : M unit :=
  mkdir_recursive (dirname filePath) mode_0o700;;
  writeFile filePath (JSON_stringify (TokenData_to_json tokens)) mode_0o600;;
  chmod filePath mode_0o600.

(** The same [save], on every value its parameter type admits. *)
Definition save_value (tokens : TokenValue) : M unit :=
  mkdir_recursive (dirname filePath) mode_0o700;;
  writeFile filePath (JSON_stringify (TokenValue_to_json tokens)) mode_0o600;;
  chmod filePath mode_0o600.

Definition isExpired (tokens : TokenData) : M bool :=
  now ← Date_now;
  ret (expires_at tokens - EXPIRY_BUFFER_MS <=? now).
End TokenStore.
End TokenStore.

(** The other revision of the same file: no validation on load, file mode
    set at creation only. Its [load] returns whatever document the file
    holds (the cast to [TokenData] is unchecked); JSON [null] is the absent
    answer. *)
Module TokenStorePlain.
Section TokenStorePlain.
Context `{JsonCodec}.
Variable filePath : list string.

Definition load : M (option json) :=
  try_catch
    (data ← readFile filePath;
     match JSON_parse data with
     | None => throw SyntaxError
     | Some JNull => ret None
     | Some parsed => ret (Some parsed)
     end)
    (ret None).

Definition save (tokens : TokenData) : M unit :=
  mkdir_recursive (dirname filePath) mode_0o700;;
  writeFile filePath (JSON_stringify (TokenData_to_json tokens)) mode_0o600.

Definition isExpired (tokens : TokenData) : M bool :=
  now ← Date_now;
  ret (expires_at tokens - EXPIRY_BUFFER_MS <=? now).
End TokenStorePlain.
End TokenStorePlain.

(* ===================================================================== *)
(** * callback-server.ts *)
(* ===================================================================== *)

(** [if (s)] on a [string | null]: neither [null] nor the empty string. *)
Definition truthy (s : option string) : option string :=
  match s with
  | Some "" => None
  | Some s => Some s
  | None => None
  end.

(** The promise returned by [waitForCallback] and the timer of its
    executor. A settled promise stays as it is: the first [resolve] or
    [reject] wins. *)
Inductive Settlement :=
  | Resolved (code : string)
  | Rejected (e : Error).

Record Listener := mkListener {
  promise : option Settlement;
  timer : option Z                       (* the instant the timer is due *)
}.

Definition settle (s : Settlement) (l : Listener) : Listener :=
  match promise l with
  | None => mkListener (Some s) (timer l)
  | Some _ => l
  end.
Definition resolve (code : string) : Listener → Listener := settle (Resolved code).
Definition reject (e : Error) : Listener → Listener := settle (Rejected e).
Definition clearTimeout (l : Listener) : Listener := mkListener (promise l) None.

(** [server.close()]: the socket bound to [port] stops listening. *)
Definition server_close (port : Z) (w : World) : World :=
  set_listening (filter (λ p, p ≠ port) (listening w)) w.

(** [res.writeHead(status, ...); res.end(body)]. *)
Definition respond (status : Z) (body : string) (w : World) : World :=
  emit (HttpReply status body) w.

Definition html_success : string :=
  "<h1>認証成功</h1><p>このページを閉じて Claude Code に戻ってください。</p>".

(** The characters of a string, in order. *)
Fixpoint chars (s : string) : list ascii :=
  match s with
  | EmptyString => []
  | String c rest => c :: chars rest
  end.

(** A character that cannot open or close a tag or an attribute value. *)
Definition inert (c : ascii) : bool :=
  negb (Ascii.eqb c "<" || Ascii.eqb c ">" || Ascii.eqb c "034").

(** [str.replace(/c/g, by)]. *)
Fixpoint replace_all (c : ascii) (by_ : string) (str : string) : string :=
  match str with
  | EmptyString => EmptyString
  | String a rest =>
      if Ascii.eqb a c then by_ +:+ replace_all c by_ rest
      else String a (replace_all c by_ rest)
  end.

Definition escapeHtml (str : string) : string :=
  replace_all "034" "&quot;"
    (replace_all ">" "&gt;"
       (replace_all "<" "&lt;"
          (replace_all "&" "&amp;" str))).

(** The event loop while the promise is pending. Inbound requests are
    handled in order, each after its delay; a timer that is due at or
    before the next request runs first. With nothing left to come and no
    timer armed, nothing ever settles the promise. *)
Fixpoint serve (handler : Request → Listener * World → Listener * World)
    (onTimer : Listener * World → Listener * World)
    (evs : list (N * Request)) (l : Listener) (w : World) : Listener * World :=
  match promise l with
  | Some _ => (l, set_inbound evs w)
  | None =>
      match evs with
      | [] =>
          match timer l with
          | Some due =>
              onTimer (clearTimeout l, set_clock (Z.max (clock w) due) (set_inbound [] w))
          | None => (l, set_inbound [] w)
          end
      | (dt, req) :: rest =>
          let t := clock w + Z.of_N dt in
          let due_first :=
            match timer l with
            | Some due => if due <=? t then Some due else None
            | None => None
            end in
          match due_first with
          | Some due =>
              let now := Z.max (clock w) due in
              onTimer (clearTimeout l,
                       set_clock now (set_inbound ((Z.to_N (t - now), req) :: rest) w))
          | None =>
              let '(l', w') := handler req (l, set_clock t w) in
              serve handler onTimer rest l' w'
          end
      end
  end.

(** [await] on the promise of a listener whose server is [port]. *)
Definition await_listener (port : Z) (st : Listener * World) : result (string * Z) * World :=
  match promise (fst st) with
  | Some (Resolved code) => (Ok (code, port), snd st)
  | Some (Rejected e) => (Throw e, snd st)
  | None => (Pending, snd st)
  end.

Definition listen_message (port : Z) : string :=
  "OAuth callback server listening on port " +:+ pretty port.

(** The revision that checks [state] and times out. *)
Module CallbackServer.

Definition CALLBACK_TIMEOUT_MS : Z := 120000.

Definition denied : Error := JsError "OAuth authorization was denied".
Definition state_mismatch : Error :=
  JsError "OAuth state mismatch — possible CSRF attack".
Definition timed_out : Error := JsError "OAuth callback timed out after 2 minutes".

(** The request listener given to [createServer]. *)
Definition onRequest (port : Z) (expectedState : string) (req : Request)
    (st : Listener * World) : Listener * World :=
  let '(l, w) := st in
  let not_found := (l, respond 404 "Not Found" w) in
  if String.eqb (pathname req) "/callback" then
    let code := searchParams_get "code" req in
    let error := searchParams_get "error" req in
    let state := searchParams_get "state" req in
    match truthy error with
    | Some error =>
        let w := respond 400 ("<h1>認証エラー</h1><p>" +:+ escapeHtml error +:+ "</p>") w in
        let l := clearTimeout l in
        let w := server_close port w in
        (reject denied l, w)
    | None =>
        if bool_decide (state ≠ Some expectedState) then
          let w := respond 400 "<h1>エラー</h1><p>不正なstateパラメータです。</p>" w in
          let l := clearTimeout l in
          let w := server_close port w in
          (reject state_mismatch l, w)
        else
          match truthy code with
          | Some code =>
              let w := respond 200 html_success w in
              let l := clearTimeout l in
              (resolve code l, w)
          | None => not_found
          end
    end
  else not_found.

(** The callback given to [setTimeout]. *)
Definition onTimeout (port : Z) (st : Listener * World) : Listener * World :=
  let '(l, w) := st in
  let w := server_close port w in
  (reject timed_out l, w).

Definition waitForCallback (port : Z) (expectedState : string) : M (string * Z) :=
  λ w,
    let l := mkListener None (Some (clock w + CALLBACK_TIMEOUT_MS)) in
    if bool_decide (port ∈ listening w) then
      (* server.on("error", ...) *)
      let l := clearTimeout l in
      await_listener port (reject (SystemError "EADDRINUSE") l, w)
    else
      let w := set_listening (port :: listening w) w in
      let w := emit (ConsoleError (listen_message port)) w in
      await_listener port
        (serve (onRequest port expectedState) (onTimeout port) (inbound w) l w).

End CallbackServer.

(** The other revision of the same file: one argument, no [state], no
    timer, and the server is closed by the caller only. *)
Module CallbackServerPlain.

Definition oauth_error (error : string) : Error := JsError ("OAuth error: " +:+ error).

Definition onRequest (port : Z) (req : Request)
    (st : Listener * World) : Listener * World :=
  let '(l, w) := st in
  let not_found := (l, respond 404 "Not Found" w) in
  if String.eqb (pathname req) "/callback" then
    let code := searchParams_get "code" req in
    let error := searchParams_get "error" req in
    match truthy error with
    | Some error =>
        let w := respond 400 ("<h1>認証エラー</h1><p>" +:+ error +:+ "</p>") w in
        (reject (oauth_error error) l, w)
    | None =>
        match truthy code with
        | Some code =>
            let w := respond 200 html_success w in
            (resolve code l, w)
        | None => not_found
        end
    end
  else not_found.

Definition waitForCallback (port : Z) : M (string * Z) :=
  λ w,
    let l := mkListener None None in
    if bool_decide (port ∈ listening w) then
      (* server.on("error", reject) *)
      await_listener port (reject (SystemError "EADDRINUSE") l, w)
    else
      let w := set_listening (port :: listening w) w in
      let w := emit (ConsoleError (listen_message port)) w in
      await_listener port (serve (onRequest port) id (inbound w) l w).

End CallbackServerPlain.

(* ===================================================================== *)
(** * callback-server.ts: from the request line *)
(* ===================================================================== *)

(** Both listeners begin with [new URL(req.url ?? "/", base)], and
    [onRequest] above takes up after that statement. Here a request still
    carries the target of its request line. *)

(** [new URL(input, base)], as far as the listeners read the result;
    [None] is the [TypeError] the constructor throws for an input that is
    no URL. *)
Class UrlParser := {
  URL_parse : string → string → option Request
}.

(** [req.url]; [None] is [undefined]. *)
Definition Target : Type := option string.

Definition callback_base (port : Z) : string := "http://localhost:" +:+ pretty port.

Definition request_url `{UrlParser} (port : Z) (url : Target) : option Request :=
  URL_parse (default "/" url) (callback_base port).

(** The function given to [createServer], whole. The constructor is called
    outside any [try]: what it throws leaves the listener, nothing in the
    process handles it, and the process ends. [None] is that end. *)
Definition requestListener `{UrlParser} (port : Z)
    (handler : Request → Listener * World → Listener * World)
    (url : Target) (st : Listener * World) : option (Listener * World) :=
  match request_url port url with
  | Some req => Some (handler req st)
  | None => None
  end.

(** The event loop of [serve], on requests as they arrive. *)
Fixpoint serve_targets (listener : Target → Listener * World → option (Listener * World))
    (onTimer : Listener * World → Listener * World)
    (evs : list (N * Target)) (l : Listener) (w : World) : option (Listener * World) :=
  match promise l with
  | Some _ => Some (l, w)
  | None =>
      match evs with
      | [] =>
          match timer l with
          | Some due => Some (onTimer (clearTimeout l, set_clock (Z.max (clock w) due) w))
          | None => Some (l, w)
          end
      | (dt, url) :: rest =>
          let t := clock w + Z.of_N dt in
          let due_first :=
            match timer l with
            | Some due => if due <=? t then Some due else None
            | None => None
            end in
          match due_first with
          | Some due =>
              Some (onTimer (clearTimeout l, set_clock (Z.max (clock w) due) w))
          | None =>
              match listener url (l, set_clock t w) with
              | Some (l', w') => serve_targets listener onTimer rest l' w'
              | None => None
              end
          end
      end
  end.

(** [waitForCallback] of both revisions, awaited, with the requests that
    reach the port given as they arrive. *)
Module OnTheWire.
Section OnTheWire.
Context `{UrlParser}.

Definition waitForCallback (port : Z) (expectedState : string) (evs : list (N * Target))
    (w : World) : option (result (string * Z) * World) :=
  let l := mkListener None (Some (clock w + CallbackServer.CALLBACK_TIMEOUT_MS)) in
  if bool_decide (port ∈ listening w) then
    let l := clearTimeout l in
    Some (await_listener port (reject (SystemError "EADDRINUSE") l, w))
  else
    let w := set_listening (port :: listening w) w in
    let w := emit (ConsoleError (listen_message port)) w in
    await_listener port <$>
      serve_targets (requestListener port (CallbackServer.onRequest port expectedState))
        (CallbackServer.onTimeout port) evs l w.

Definition waitForCallback_plain (port : Z) (evs : list (N * Target))
    (w : World) : option (result (string * Z) * World) :=
  let l := mkListener None None in
  if bool_decide (port ∈ listening w) then
    Some (await_listener port (reject (SystemError "EADDRINUSE") l, w))
  else
    let w := set_listening (port :: listening w) w in
    let w := emit (ConsoleError (listen_message port)) w in
    await_listener port <$>
      serve_targets (requestListener port (CallbackServerPlain.onRequest port)) id evs l w.

End OnTheWire.
End OnTheWire.

(* ===================================================================== *)
(** * oauth-client.ts *)
(* ===================================================================== *)

(** ** [URLSearchParams.prototype.toString]: form-urlencoding *)

Definition hex_digit (n : N) : ascii :=
  match n with
  | 0 => "0" | 1 => "1" | 2 => "2" | 3 => "3" | 4 => "4" | 5 => "5" | 6 => "6"
  | 7 => "7" | 8 => "8" | 9 => "9" | 10 => "A" | 11 => "B" | 12 => "C"
  | 13 => "D" | 14 => "E" | _ => "F"
  end%N%char.

Definition form_unreserved (n : N) : bool :=
  ((48 <=? n) && (n <=? 57) || (65 <=? n) && (n <=? 90) || (97 <=? n) && (n <=? 122)
   || (n =? 42) || (n =? 45) || (n =? 46) || (n =? 95))%N.

Definition urlencode_byte (c : ascii) : string :=
  let n := N_of_ascii c in
  if form_unreserved n then String c ""
  else if (n =? 32)%N then "+"
  else String "%" (String (hex_digit (n / 16)) (String (hex_digit (n mod 16)) "")).

Fixpoint urlencode (s : string) : string :=
  match s with
  | EmptyString => EmptyString
  | String c rest => urlencode_byte c +:+ urlencode rest
  end.

Fixpoint join (sep : string) (l : list string) : string :=
  match l with
  | [] => ""
  | [x] => x
  | x :: rest => x +:+ sep +:+ join sep rest
  end.

Definition URLSearchParams_toString (params : list (string * string)) : string :=
  join "&" (map (λ kv, urlencode (fst kv) +:+ "=" +:+ urlencode (snd kv)) params).

(** ** The client *)

Definition MF_AUTH_BASE : string := "https://api.biz.moneyforward.com".
Definition MF_TOKEN_URL : string := MF_AUTH_BASE +:+ "/token".

Definition ALL_SCOPES : string :=
  join " " [ "office_setting:write"; "user_setting:write"; "transaction:write";
             "report:write"; "mfc/invoice/data.read"; "mfc/invoice/data.write" ].

Record OAuthConfig := mkOAuthConfig {
  clientId : string;
  clientSecret : string;
  redirectUri : string
}.

Definition newline : string := String "010" "".

(** [fetch(url, { method: "POST", headers, body })]: the outside answers
    call by call; with no answer scripted the connection fails. *)
Definition fetch (url : string) (body : list (string * string)) : M Response :=
  λ w,
    let w := emit (Fetch url (URLSearchParams_toString body)) w in
    match responses w with
    | Answer r :: rest => (Ok r, set_responses rest w)
    | NetworkFailure :: rest => (Throw (TypeError "fetch failed"), set_responses rest w)
    | [] => (Throw (TypeError "fetch failed"), w)
    end.

Definition res_text (r : Response) : M string := ret (body_text r).
Definition res_json (r : Response) : M TokenResponse :=
  match body_json r with
  | Some j => ret j
  | None => throw SyntaxError
  end.

(** [randomBytes(16).toString("hex")]. *)
Definition randomBytes_hex : M string :=
  λ w, match entropy w with
       | s :: rest => (Ok s, set_entropy rest w)
       | [] => (Ok "00000000000000000000000000000000", w)
       end.

(** [execFile(cmd, args, callback)]: the callback only reports a failure. *)
Definition execFile (cmd : string) (args : list string) : M unit :=
  λ w,
    let w := emit (ExecFile cmd args) w in
    if browser_opens (host w) then (Ok tt, w)
    else (Ok tt, emit (ConsoleError
           "Could not open browser automatically. Please open the URL manually.") w).

Definition process_platform : M Platform := λ w, (Ok (platform (host w)), w).

Definition close (server : Z) : M unit := λ w, (Ok tt, server_close server w).

Module OAuthClient.
Section OAuthClient.
Variable config : OAuthConfig.

Definition buildAuthorizationUrl (state : string) : string :=
  let params := [ ("client_id", clientId config);
                  ("redirect_uri", redirectUri config);
                  ("response_type", "code");
                  ("scope", ALL_SCOPES);
                  ("state", state) ] in
  MF_AUTH_BASE +:+ "/authorize?" +:+ URLSearchParams_toString params.

Definition buildTokenRequestBody (code : string) : list (string * string) :=
  [ ("grant_type", "authorization_code");
    ("code", code);
    ("client_id", clientId config);
    ("client_secret", clientSecret config);
    ("redirect_uri", redirectUri config) ].

Definition buildRefreshRequestBody (refreshToken : string) : list (string * string) :=
  [ ("grant_type", "refresh_token");
    ("refresh_token", refreshToken);
    ("client_id", clientId config);
    ("client_secret", clientSecret config) ].

Definition exchangeCode (code : string) : M TokenData :=
  let body := buildTokenRequestBody code in
  res ← fetch MF_TOKEN_URL body;
  if negb (ok res) then
    text ← res_text res;
    throw (JsError ("Token exchange failed (" +:+ pretty (status res) +:+ "): " +:+ text))
  else
    json ← res_json res;
    now ← Date_now;
    mret {| access_token := tr_access_token json;
            refresh_token := tr_refresh_token json;
            expires_at := now + tr_expires_in json * 1000;
            scope := tr_scope json |}.

Definition refreshToken (refreshToken : string) : M TokenData :=
  let body := buildRefreshRequestBody refreshToken in
  res ← fetch MF_TOKEN_URL body;
  if negb (ok res) then
    text ← res_text res;
    throw (JsError ("Token refresh failed (" +:+ pretty (status res) +:+ "): " +:+ text))
  else
    json ← res_json res;
    now ← Date_now;
    mret {| access_token := tr_access_token json;
            refresh_token := tr_refresh_token json;
            expires_at := now + tr_expires_in json * 1000;
            scope := tr_scope json |}.

Definition DEFAULT_PORT : Z := 3456.

Definition authorize (port : Z) : M TokenData :=
  state ← randomBytes_hex;
  let authUrl := buildAuthorizationUrl state in
  console_error (newline +:+ "Please open this URL in your browser to authenticate:");;
  console_error authUrl;;
  plat ← process_platform;
  let cmd := match plat with
             | darwin => "open"
             | win32 => "cmd"
             | _ => "xdg-open"
             end in
  let args := match plat with
              | win32 => ["/c"; "start"; authUrl]
              | _ => [authUrl]
              end in
  execFile cmd args;;
  '(code, server) ← CallbackServerPlain.waitForCallback port;
  close server;;
  exchangeCode code.

End OAuthClient.
End OAuthClient.

(* ===================================================================== *)
(** * auth-manager.ts *)
(* ===================================================================== *)

(** The two collaborators handed to the constructor, through the methods
    the manager calls. *)
Record ITokenStore := mkTokenStore {
  load : M (option TokenData);
  save : TokenData → M unit;
  isExpired : TokenData → M bool
}.

Record IOAuthClient := mkOAuthClient {
  refreshToken : string → M TokenData;
  authorize : M TokenData                (* called without a port *)
}.

Record AuthStatus := mkAuthStatus {
  authenticated : bool;
  expiresAt : option Z;
  status_scope : option string
}.

Definition refresh_failed_message : string :=
  "Token refresh failed. Starting interactive auth...".

Module AuthManager.
Section AuthManager.
Variable tokenStore : ITokenStore.
Variable oauthClient : IOAuthClient.

Definition doInteractiveAuth : M TokenData :=
  tokens ← authorize oauthClient;
  save tokenStore tokens;;
  mret tokens.

Definition getValidToken : M TokenData :=
  stored ← load tokenStore;
  match stored with
  | None => doInteractiveAuth
  | Some stored =>
      expired ← isExpired tokenStore stored;
      if negb expired then mret stored
      else
        try_catch
          (refreshed ← refreshToken oauthClient (refresh_token stored);
           save tokenStore refreshed;;
           mret refreshed)
          (console_error refresh_failed_message;;
           doInteractiveAuth)
  end.

Definition getAuthStatus : M AuthStatus :=
  stored ← load tokenStore;
  match stored with
  | None => mret (mkAuthStatus false None None)
  | Some stored =>
      expired ← isExpired tokenStore stored;
      mret (mkAuthStatus (negb expired) (Some (expires_at stored)) (Some (scope stored)))
  end.

End AuthManager.
End AuthManager.

(** ** The objects built at start-up *)

Section Wiring.
Context `{JsonCodec}.
Variable filePath : list string.
Variable config : OAuthConfig.

Definition tokenStore : ITokenStore :=
  mkTokenStore (TokenStore.load filePath) (TokenStore.save filePath)
               TokenStore.isExpired.

Definition oauthClient : IOAuthClient :=
  mkOAuthClient (OAuthClient.refreshToken config)
                (OAuthClient.authorize config OAuthClient.DEFAULT_PORT).

Definition authManager_getValidToken : M TokenData :=
  AuthManager.getValidToken tokenStore oauthClient.
Definition authManager_doInteractiveAuth : M TokenData :=
  AuthManager.doInteractiveAuth tokenStore oauthClient.
Definition authManager_getAuthStatus : M AuthStatus :=
  AuthManager.getAuthStatus tokenStore.
End Wiring.

(** ** What the disk holds

    The token a reader of the file finds: the file can be read, parses, and
    has the shape of a token. *)
Definition loaded `{JsonCodec} (filePath : list string) (f : FS) : option TokenData :=
  match fs_readFile filePath f with
  | inl _ => None
  | inr data =>
      match JSON_parse data with
      | None => None
      | Some v => if isValidTokenData v then as_TokenData v else None
      end
  end.

(* ===================================================================== *)
(** * What the platform prints *)
(* ===================================================================== *)

(** The parts of the JavaScript runtime the tools and the API client call
    besides the JSON codec: [new Date(ms).toISOString()] ([None] is the
    [RangeError] of an invalid time value), the [message] of the errors the
    platform itself raises, and [JSON.stringify(v)] without indentation. *)
Class Runtime := {
  Date_toISOString : Z → option string;
  platform_message : Error → string;
  JSON_stringify_compact : json → string
}.

(** [error.message]. *)
Definition message `{Runtime} (e : Error) : string :=
  match e with
  | JsError m => m
  | TypeError m => m
  | SystemError _ | SyntaxError => platform_message e
  end.

(** [try { m } catch (error) { h(error) }]. *)
Definition try_catch_with {A} (m : M A) (h : Error → M A) : M A :=
  λ w, match m w with
       | (Throw e, w') => h e w'
       | r => r
       end.

(** [new Date(ms).toISOString()]. On an invalid time value it throws a
    [RangeError]; the message is all that is ever read of a thrown error,
    so it is thrown here as an error with that message. *)
Definition toISOString `{Runtime} (ms : Z) : M string :=
  match Date_toISOString ms with
  | Some s => ret s
  | None => throw (JsError "Invalid time value")
  end.

(* ===================================================================== *)
(** * tools/common.ts *)
(* ===================================================================== *)

(** The manager, through the methods its callers use. *)
Record IAuthManager := mkAuthManager {
  getValidToken : M TokenData;
  doInteractiveAuth : M TokenData;
  getAuthStatus : M AuthStatus
}.

(** What a tool handler returns: the texts of its [content] items, and
    [isError], absent being [false]. *)
Record CallToolResult := mkCallToolResult {
  content : list string;
  isError : bool
}.

(** A call of [server.registerTool(name, { description, inputSchema }, handler)]
    for a tool without input. *)
Record Tool := mkTool {
  tool_name : string;
  tool_description : string;
  tool_handler : M CallToolResult
}.

Definition registerTool (name description : string) (handler : M CallToolResult)
    (server : list Tool) : list Tool :=
  server ++ [mkTool name description handler].

Module CommonTools.
Section CommonTools.
Context `{Runtime}.
Variable authManager : IAuthManager.

Definition mf_auth_status : M CallToolResult :=
  status ← getAuthStatus authManager;
  text ← (if authenticated status then
            (* new Date(null) is the epoch; `${null}` is "null" *)
            iso ← toISOString (match expiresAt status with Some e => e | None => 0 end);
            mret ("Authenticated. Token expires at: " +:+ iso +:+ ". Scopes: " +:+
                  match status_scope status with Some s => s | None => "null" end)
          else mret "Not authenticated. Run mf_auth_login to authenticate.");
  mret (mkCallToolResult [text] false).

Definition mf_auth_login : M CallToolResult :=
  try_catch_with
    (doInteractiveAuth authManager;;
     mret (mkCallToolResult
             ["Authentication successful. You can now use MF Cloud tools."] false))
    (λ error,
     mret (mkCallToolResult ["Authentication failed: " +:+ message error] true)).

Definition registerCommonTools {ApiClient : Type} (server : list Tool)
    (_apiClient : ApiClient) : list Tool :=
  registerTool "mf_auth_login"
    "Re-authenticate with MF Cloud — opens browser for OAuth login. Use when tokens have expired and auto-refresh failed."
    mf_auth_login
    (registerTool "mf_auth_status"
       "Check MF Cloud authentication status — shows whether tokens are valid and when they expire."
       mf_auth_status server).

End CommonTools.
End CommonTools.

(** The manager object of [index.ts]. *)
Definition authManager `{JsonCodec} (filePath : list string) (config : OAuthConfig)
  : IAuthManager :=
  mkAuthManager (authManager_getValidToken filePath config)
                (authManager_doInteractiveAuth filePath config)
                (authManager_getAuthStatus filePath).

(* ===================================================================== *)
(** * client/mf-api-client.ts *)
(* ===================================================================== *)

(** ** The API servers *)

(** The second argument of [fetch]: [undefined] properties are [None]. *)
Record RequestInit := mkRequestInit {
  init_method : option string;
  init_body : option string;
  init_headers : option (list (string * string))
}.

(** A request as it leaves the process. *)
Record ApiRequest := mkApiRequest {
  req_url : string;
  req_init : RequestInit
}.

Record ApiResponse := mkApiResponse {
  api_status : Z;
  api_statusText : string;
  api_body : string
}.

Definition api_ok (r : ApiResponse) : bool :=
  (200 <=? api_status r) && (api_status r <=? 299).

Inductive ApiFetchResult :=
  | ApiNetworkFailure
  | ApiAnswer (r : ApiResponse).

(** The world of the credential code, and around it the API servers: what
    they will answer, call by call, and the requests they have received. *)
Record ApiWorld := mkApiWorld {
  world : World;
  api_answers : list ApiFetchResult;
  api_sent : list ApiRequest
}.

Definition set_world (w : World) (a : ApiWorld) : ApiWorld :=
  mkApiWorld w (api_answers a) (api_sent a).

(** What the client throws: its own [MfApiError], or whatever was thrown
    below it. *)
Inductive Thrown :=
  | MfApiError (status : Z) (statusText body : string)
  | Native (e : Error).

(** [super(`MF API error ${status}: ${statusText}`)]. *)
Definition Thrown_message `{Runtime} (e : Thrown) : string :=
  match e with
  | MfApiError status statusText _ =>
      "MF API error " +:+ pretty status +:+ ": " +:+ statusText
  | Native e => message e
  end.

Inductive outcome (A : Type) :=
  | Returned (a : A)
  | Raised (e : Thrown)
  | Unsettled.
Arguments Returned {A} a.
Arguments Raised {A} e.
Arguments Unsettled {A}.

Definition MA (A : Type) : Type := ApiWorld → outcome A * ApiWorld.

Definition MA_bind {A B} (m : MA A) (k : A → MA B) : MA B :=
  λ a, match m a with
       | (Returned x, a') => k x a'
       | (Raised e, a') => (Raised e, a')
       | (Unsettled, a') => (Unsettled, a')
       end.

#[export] Instance MA_ret : MRet MA := λ A x a, (Returned x, a).
#[export] Instance MA_mbind : MBind MA := λ A B k m, MA_bind m k.

Definition raise {A} (e : Thrown) : MA A := λ a, (Raised e, a).

(** An asynchronous function of the credential code, awaited by the API
    code. *)
Definition lift {A} (m : M A) : MA A :=
  λ a, match m (world a) with
       | (Ok x, w') => (Returned x, set_world w' a)
       | (Throw e, w') => (Raised (Native e), set_world w' a)
       | (Pending, w') => (Unsettled, set_world w' a)
       end.

(** [fetch(url, init)] to an API server. *)
Definition api_fetch (url : string) (init : RequestInit) : MA ApiResponse :=
  λ a,
    let sent := api_sent a ++ [mkApiRequest url init] in
    match api_answers a with
    | ApiAnswer r :: rest => (Returned r, mkApiWorld (world a) rest sent)
    | ApiNetworkFailure :: rest =>
        (Raised (Native (TypeError "fetch failed")), mkApiWorld (world a) rest sent)
    | [] => (Raised (Native (TypeError "fetch failed")), mkApiWorld (world a) [] sent)
    end.

(** [res.json()]. *)
Definition api_json `{JsonCodec} (r : ApiResponse) : MA json :=
  match JSON_parse (api_body r) with
  | Some v => mret v
  | None => raise (Native SyntaxError)
  end.

(** ** Object literals with spread *)

(** [o[k] = v] on an object with string values. *)
Fixpoint assign (k v : string) (o : list (string * string)) : list (string * string) :=
  match o with
  | [] => [(k, v)]
  | (k', v') :: rest =>
      if String.eqb k k' then (k, v) :: rest else (k', v') :: assign k v rest
  end.

(** [{ ...a, ...b }]; spreading [undefined] adds nothing. *)
Definition spread (a : list (string * string)) (b : option (list (string * string)))
  : list (string * string) :=
  foldl (λ o kv, assign kv.1 kv.2 o) a (default [] b).

(** [if (v)] on a JavaScript value that JSON can hold; [undefined] is
    [None]. *)
Definition js_truthy (v : option json) : bool :=
  match v with
  | None | Some JNull => false
  | Some (JBool b) => b
  | Some (JNum n) => negb (n =? 0)
  | Some (JStr s) => negb (String.eqb s "")
  | Some (JArr _) | Some (JObj _) => true
  end.

(** ** The client *)

Module MfApiClient.
Section MfApiClient.
Context `{JsonCodec} `{Runtime}.
Variable getToken : M TokenData.

Definition headers : MA (list (string * string)) :=
  tokens ← lift getToken;
  mret [ ("Authorization", "Bearer " +:+ access_token tokens);
         ("Content-Type", "application/json") ].

Definition request (url : string) (init : option RequestInit) : MA json :=
  h ← headers;
  res ← api_fetch url
          (mkRequestInit (init ≫= init_method) (init ≫= init_body)
                         (Some (spread h (init ≫= init_headers))));
  if negb (api_ok res) then
    let body := api_body res in
    raise (MfApiError (api_status res) (api_statusText res) body)
  else api_json res.

Definition get (url : string) (params : option (list (string * string))) : MA json :=
  let fullUrl := match params with
                 | Some params => url +:+ "?" +:+ URLSearchParams_toString params
                 | None => url
                 end in
  request fullUrl None.

Definition post (url : string) (body : option json) : MA json :=
  request url
    (Some (mkRequestInit (Some "POST")
             (if js_truthy body then JSON_stringify_compact <$> body else None)
             None)).

Definition put (url : string) (body : option json) : MA json :=
  request url
    (Some (mkRequestInit (Some "PUT")
             (if js_truthy body then JSON_stringify_compact <$> body else None)
             None)).

Definition delete (url : string) : MA json :=
  request url (Some (mkRequestInit (Some "DELETE") None None)).

End MfApiClient.
End MfApiClient.

(** ** index.ts: the client of the server *)

(** [join(homedir(), ".mf-cloud", "tokens.json")]. *)
Definition index_tokenPath (homedir : list string) : list string :=
  homedir ++ [".mf-cloud"; "tokens.json"].

(** The calls of the client, to speak of its four methods at once. *)
Inductive ApiCall :=
  | GET (url : string) (params : option (list (string * string)))
  | POST (url : string) (body : option json)
  | PUT (url : string) (body : option json)
  | DELETE (url : string).

Definition perform `{JsonCodec} `{Runtime} (getToken : M TokenData) (c : ApiCall) : MA json :=
  match c with
  | GET url params => MfApiClient.get getToken url params
  | POST url body => MfApiClient.post getToken url body
  | PUT url body => MfApiClient.put getToken url body
  | DELETE url => MfApiClient.delete getToken url
  end.

(** [const apiClient = new MfApiClient(() => authManager.getValidToken())]. *)
Definition apiClient `{JsonCodec} `{Runtime} (filePath : list string) (config : OAuthConfig)
    (c : ApiCall) : MA json :=
  perform (getValidToken (authManager filePath config)) c.

(* ===================================================================== *)
(** * tools/invoice/items.ts *)
(* ===================================================================== *)

(** [String(n)] on a number that is an integer below 10^21 in absolute
    value: its decimal digits. *)
Definition Number_toString (n : Z) : string := pretty n.

(** [if (n)] on an optional number, [if (s)] on an optional string. *)
Definition truthy_number (n : option Z) : option Z :=
  match n with
  | Some 0 => None
  | Some n => Some n
  | None => None
  end.

(** The handlers of the item tools. The client [api] is its token
    provider; [INVOICE_BASE_URL] is imported from [types/invoice.ts]. The
    input of a handler has been checked against the [inputSchema] of its
    tool, so it arrives at that type. *)
Module InvoiceItemTools.
Section InvoiceItemTools.
Context `{JsonCodec} `{Runtime}.
Variable INVOICE_BASE_URL : string.
Variable api : M TokenData.

Record ListInput := mkListInput {
  page : option Z;
  per_page : option Z;
  name : option string;
  code : option string
}.

Definition invoice_list_items (input : ListInput) : MA CallToolResult :=
  let params : list (string * string) := [] in
  let params := match truthy_number (page input) with
                | Some page => assign "page" (Number_toString page) params
                | None => params
                end in
  let params := match truthy_number (per_page input) with
                | Some per_page => assign "per_page" (Number_toString per_page) params
                | None => params
                end in
  let params := match truthy (name input) with
                | Some name => assign "name" name params
                | None => params
                end in
  let params := match truthy (code input) with
                | Some code => assign "code" code params
                | None => params
                end in
  data ← MfApiClient.get api (INVOICE_BASE_URL +:+ "/items") (Some params);
  mret (mkCallToolResult [JSON_stringify data] false).

Definition invoice_get_item (id : string) : MA CallToolResult :=
  data ← MfApiClient.get api (INVOICE_BASE_URL +:+ "/items/" +:+ id) None;
  mret (mkCallToolResult [JSON_stringify data] false).

Definition invoice_create_item (item : json) : MA CallToolResult :=
  data ← MfApiClient.post api (INVOICE_BASE_URL +:+ "/items")
            (Some (JObj [("item", item)]));
  mret (mkCallToolResult [JSON_stringify data] false).

Definition invoice_update_item (id : string) (item : json) : MA CallToolResult :=
  data ← MfApiClient.put api (INVOICE_BASE_URL +:+ "/items/" +:+ id)
            (Some (JObj [("item", item)]));
  mret (mkCallToolResult [JSON_stringify data] false).

Definition invoice_delete_item (id : string) : MA CallToolResult :=
  MfApiClient.delete api (INVOICE_BASE_URL +:+ "/items/" +:+ id);;
  mret (mkCallToolResult ["Item " +:+ id +:+ " deleted."] false).

End InvoiceItemTools.
End InvoiceItemTools.

(* ===================================================================== *)
(** * A JSON codec to run the model on *)
(* ===================================================================== *)

(** A small instance of [JsonCodec] for the examples: JSON with integer
    numbers and single-byte escapes, printed the way
    [JSON.stringify(_, null, 2)] lays documents out. *)
Module MiniJson.

Definition dquote : ascii := "034".
Definition backslash : ascii := "092".

Fixpoint spaces (n : nat) : string :=
  match n with
  | O => ""
  | S k => String " " (spaces k)
  end.

Definition lower_hex_digit (n : N) : ascii :=
  match n with
  | 0 => "0" | 1 => "1" | 2 => "2" | 3 => "3" | 4 => "4" | 5 => "5" | 6 => "6"
  | 7 => "7" | 8 => "8" | 9 => "9" | 10 => "a" | 11 => "b" | 12 => "c"
  | 13 => "d" | 14 => "e" | _ => "f"
  end%N%char.

Definition escape_char (c : ascii) : string :=
  let n := N_of_ascii c in
  if (n =? 34)%N then String backslash (String dquote "")
  else if (n =? 92)%N then String backslash (String backslash "")
  else if (n =? 8)%N then String backslash "b"
  else if (n =? 12)%N then String backslash "f"
  else if (n =? 10)%N then String backslash "n"
  else if (n =? 13)%N then String backslash "r"
  else if (n =? 9)%N then String backslash "t"
  else if (n <? 32)%N then
    String backslash
      (String "u" (String "0" (String "0"
         (String (lower_hex_digit (n / 16)) (String (lower_hex_digit (n mod 16)) "")))))
  else String c "".

Fixpoint escape (s : string) : string :=
  match s with
  | EmptyString => EmptyString
  | String c rest => escape_char c +:+ escape rest
  end.

Definition quote (s : string) : string :=
  String dquote (escape s +:+ String dquote "").

Fixpoint stringify_at (depth : nat) (v : json) : string :=
  let inner := spaces (2 * S depth) in
  let outer := spaces (2 * depth) in
  match v with
  | JNull => "null"
  | JBool true => "true"
  | JBool false => "false"
  | JNum n => pretty n
  | JStr s => quote s
  | JArr [] => "[]"
  | JArr items =>
      "[" +:+ newline +:+
      join ("," +:+ newline)
           ((fix each (l : list json) : list string :=
               match l with
               | [] => []
               | x :: rest => (inner +:+ stringify_at (S depth) x) :: each rest
               end) items)
      +:+ newline +:+ outer +:+ "]"
  | JObj [] => "{}"
  | JObj props =>
      "{" +:+ newline +:+
      join ("," +:+ newline)
           ((fix each (l : list (string * json)) : list string :=
               match l with
               | [] => []
               | (k, x) :: rest =>
                   (inner +:+ quote k +:+ ": " +:+ stringify_at (S depth) x) :: each rest
               end) props)
      +:+ newline +:+ outer +:+ "}"
  end.

Definition stringify (v : json) : string := stringify_at 0 v.

(** ** Parsing *)

Definition is_ws (c : ascii) : bool :=
  let n := N_of_ascii c in ((n =? 32) || (n =? 9) || (n =? 10) || (n =? 13))%N.

Fixpoint skip_ws (s : string) : string :=
  match s with
  | String c rest => if is_ws c then skip_ws rest else s
  | EmptyString => s
  end.

Fixpoint strip_prefix (p s : string) : option string :=
  match p, s with
  | EmptyString, _ => Some s
  | String a p', String b s' => if Ascii.eqb a b then strip_prefix p' s' else None
  | String _ _, EmptyString => None
  end.

Definition digit_value (c : ascii) : option Z :=
  let n := N_of_ascii c in
  if ((48 <=? n) && (n <=? 57))%N then Some (Z.of_N n - 48) else None.

Definition hex_value (c : ascii) : option N :=
  let n := N_of_ascii c in
  if ((48 <=? n) && (n <=? 57))%N then Some (n - 48)%N
  else if ((97 <=? n) && (n <=? 102))%N then Some (n - 87)%N
  else if ((65 <=? n) && (n <=? 70))%N then Some (n - 55)%N
  else None.

(** The characters after an opening quote, up to the closing one. *)
Fixpoint parse_chars (s : string) : option (string * string) :=
  match s with
  | EmptyString => None
  | String c rest =>
      if Ascii.eqb c dquote then Some ("", rest)
      else if Ascii.eqb c backslash then
        match rest with
        | String e rest' =>
            let simple (x : ascii) :=
              match parse_chars rest' with
              | Some (str, r) => Some (String x str, r)
              | None => None
              end in
            if Ascii.eqb e dquote then simple dquote
            else if Ascii.eqb e backslash then simple backslash
            else if Ascii.eqb e "/" then simple "/"%char
            else if Ascii.eqb e "b" then simple "008"%char
            else if Ascii.eqb e "f" then simple "012"%char
            else if Ascii.eqb e "n" then simple "010"%char
            else if Ascii.eqb e "r" then simple "013"%char
            else if Ascii.eqb e "t" then simple "009"%char
            else if Ascii.eqb e "u" then
              match rest' with
              | String "0" (String "0" (String h (String l rest''))) =>
                  match hex_value h, hex_value l, parse_chars rest'' with
                  | Some hv, Some lv, Some (str, r) =>
                      if (hv <? 8)%N then Some (String (ascii_of_N (16 * hv + lv)) str, r)
                      else None
                  | _, _, _ => None
                  end
              | _ => None
              end
            else None
        | EmptyString => None
        end
      else if (N_of_ascii c <? 32)%N then None
      else
        match parse_chars rest with
        | Some (str, r) => Some (String c str, r)
        | None => None
        end
  end.

Fixpoint parse_digits (acc : Z) (s : string) : Z * string :=
  match s with
  | String c rest =>
      match digit_value c with
      | Some d => parse_digits (10 * acc + d) rest
      | None => (acc, s)
      end
  | EmptyString => (acc, s)
  end.

Definition starts_fraction (s : string) : bool :=
  match s with
  | String c _ => Ascii.eqb c "." || Ascii.eqb c "e" || Ascii.eqb c "E"
  | EmptyString => false
  end.

Definition is_digit (c : ascii) : bool :=
  match digit_value c with
  | Some _ => true
  | None => false
  end.

(** An integer without leading zeros. *)
Definition parse_nat (s : string) : option (Z * string) :=
  match s with
  | String c rest =>
      match digit_value c with
      | Some d =>
          if d =? 0 then
            match rest with
            | String c' _ =>
                if is_digit c' || starts_fraction rest then None else Some (0, rest)
            | EmptyString => Some (0, rest)
            end
          else
            let '(n, r) := parse_digits d rest in
            if starts_fraction r then None else Some (n, r)
      | None => None
      end
  | EmptyString => None
  end.

Definition parse_number (s : string) : option (Z * string) :=
  match s with
  | String c rest =>
      if Ascii.eqb c "-" then
        match parse_nat rest with
        | Some (n, r) => Some (- n, r)
        | None => None
        end
      else parse_nat s
  | EmptyString => None
  end.

(** Assignment to a property: a repeated key keeps its place and takes
    the later value. *)
Fixpoint obj_set (k : string) (v : json) (props : list (string * json))
  : list (string * json) :=
  match props with
  | [] => [(k, v)]
  | (k', v') :: rest =>
      if String.eqb k k' then (k, v) :: rest else (k', v') :: obj_set k v rest
  end.

Fixpoint parse_value (fuel : nat) (s : string) {struct fuel} : option (json * string) :=
  match fuel with
  | O => None
  | S fuel =>
      let s := skip_ws s in
      match s with
      | EmptyString => None
      | String c rest =>
          if Ascii.eqb c "-" || is_digit c then
            match parse_number s with
            | Some (n, r) => Some (JNum n, r)
            | None => None
            end
          else if Ascii.eqb c dquote then
            match parse_chars rest with
            | Some (str, r) => Some (JStr str, r)
            | None => None
            end
          else if Ascii.eqb c "[" then
            match strip_prefix "]" (skip_ws rest) with
            | Some r => Some (JArr [], r)
            | None =>
                match parse_items fuel rest with
                | Some (items, r) => Some (JArr items, r)
                | None => None
                end
            end
          else if Ascii.eqb c "{" then
            match strip_prefix "}" (skip_ws rest) with
            | Some r => Some (JObj [], r)
            | None =>
                match parse_members fuel [] rest with
                | Some (props, r) => Some (JObj props, r)
                | None => None
                end
            end
          else
            match strip_prefix "null" s, strip_prefix "true" s, strip_prefix "false" s with
            | Some r, _, _ => Some (JNull, r)
            | _, Some r, _ => Some (JBool true, r)
            | _, _, Some r => Some (JBool false, r)
            | None, None, None => None
            end
      end
  end
with parse_items (fuel : nat) (s : string) {struct fuel} : option (list json * string) :=
  match fuel with
  | O => None
  | S fuel =>
      match parse_value fuel s with
      | Some (v, r) =>
          match skip_ws r with
          | String c r' =>
              if Ascii.eqb c "," then
                match parse_items fuel r' with
                | Some (vs, r'') => Some (v :: vs, r'')
                | None => None
                end
              else if Ascii.eqb c "]" then Some ([v], r')
              else None
          | EmptyString => None
          end
      | None => None
      end
  end
with parse_members (fuel : nat) (acc : list (string * json)) (s : string) {struct fuel}
  : option (list (string * json) * string) :=
  match fuel with
  | O => None
  | S fuel =>
      match skip_ws s with
      | String q r0 =>
          if Ascii.eqb q dquote then
            match parse_chars r0 with
            | Some (k, r1) =>
                match strip_prefix ":" (skip_ws r1) with
                | Some r2 =>
                    match parse_value fuel r2 with
                    | Some (v, r3) =>
                        let acc := obj_set k v acc in
                        match skip_ws r3 with
                        | String c r4 =>
                            if Ascii.eqb c "," then parse_members fuel acc r4
                            else if Ascii.eqb c "}" then Some (acc, r4)
                            else None
                        | EmptyString => None
                        end
                    | None => None
                    end
                | None => None
                end
            | None => None
            end
          else None
      | EmptyString => None
      end
  end.

Definition parse (s : string) : option json :=
  match parse_value (S (String.length s)) s with
  | Some (v, rest) =>
      match skip_ws rest with
      | EmptyString => Some v
      | String _ _ => None
      end
  | None => None
  end.

#[export] Instance codec : JsonCodec := {|
  JSON_parse := parse;
  JSON_stringify := stringify
|}.

End MiniJson.

(* ===================================================================== *)
(** * A runtime to run the model on *)
(* ===================================================================== *)

Module MiniRuntime.

Fixpoint zeros (n : nat) : string :=
  match n with
  | O => ""
  | S k => String "0" (zeros k)
  end.

(** The decimal digits of a natural number, padded with zeros on the left. *)
Definition pad (width : nat) (n : Z) : string :=
  let s := pretty n in zeros (width - String.length s) +:+ s.

(** The civil date of a day number counted from 1970-01-01, in the
    proleptic Gregorian calendar. *)
Definition civil_from_days (z : Z) : Z * Z * Z :=
  let z := z + 719468 in
  let era := z / 146097 in
  let doe := z - era * 146097 in
  let yoe := (doe - doe / 1460 + doe / 36524 - doe / 146096) / 365 in
  let doy := doe - (365 * yoe + yoe / 4 - yoe / 100) in
  let mp := (5 * doy + 2) / 153 in
  let d := doy - (153 * mp + 2) / 5 + 1 in
  let m := if mp <? 10 then mp + 3 else mp - 9 in
  let y := yoe + era * 400 in
  (if m <=? 2 then y + 1 else y, m, d).

Definition year_text (y : Z) : string :=
  if (0 <=? y) && (y <=? 9999) then pad 4 y
  else if y <? 0 then "-" +:+ pad 6 (- y)
  else "+" +:+ pad 6 y.

Definition date_text (ms : Z) : option string :=
  if (ms <? -8640000000000000) || (8640000000000000 <? ms) then None
  else
    let '(y, m, d) := civil_from_days (ms / 86400000) in
    let t := ms mod 86400000 in
    Some (year_text y +:+ "-" +:+ pad 2 m +:+ "-" +:+ pad 2 d +:+ "T" +:+
          pad 2 (t / 3600000) +:+ ":" +:+ pad 2 (t / 60000 mod 60) +:+ ":" +:+
          pad 2 (t / 1000 mod 60) +:+ "." +:+ pad 3 (t mod 1000) +:+ "Z").

(** The messages of the errors the platform raises, without the address
    or the path Node appends to them. *)
Definition error_text (e : Error) : string :=
  match e with
  | SystemError "EADDRINUSE" => "listen EADDRINUSE: address already in use"
  | SystemError "EACCES" => "EACCES: permission denied"
  | SystemError code => code
  | SyntaxError => "Unexpected end of JSON input"
  | JsError m | TypeError m => m
  end.

(** [JSON.stringify(v)]: no white space between the tokens. *)
Fixpoint stringify_compact (v : json) : string :=
  match v with
  | JNull => "null"
  | JBool true => "true"
  | JBool false => "false"
  | JNum n => pretty n
  | JStr s => MiniJson.quote s
  | JArr items =>
      "[" +:+ join "," ((fix each (l : list json) : list string :=
                           match l with
                           | [] => []
                           | x :: rest => stringify_compact x :: each rest
                           end) items) +:+ "]"
  | JObj props =>
      "{" +:+ join "," ((fix each (l : list (string * json)) : list string :=
                           match l with
                           | [] => []
                           | (k, x) :: rest =>
                               (MiniJson.quote k +:+ ":" +:+ stringify_compact x) :: each rest
                           end) props) +:+ "}"
  end.

#[export] Instance runtime : Runtime := {|
  Date_toISOString := date_text;
  platform_message := error_text;
  JSON_stringify_compact := stringify_compact
|}.

End MiniRuntime.

(* ===================================================================== *)
(** * A URL parser to run the model on *)
(* ===================================================================== *)

(** Enough of [new URL] for the examples: a target that starts with one
    slash is cut at the first [?], and its query at [&] and [=]; nothing is
    decoded or normalised. [//] has an empty host and is no URL. Other
    inputs are not used below and are refused. *)
Module MiniUrl.

Fixpoint break (c : ascii) (s : string) : string * option string :=
  match s with
  | EmptyString => (EmptyString, None)
  | String a rest =>
      if Ascii.eqb a c then (EmptyString, Some rest)
      else let '(h, t) := break c rest in (String a h, t)
  end.

Fixpoint split (c : ascii) (s : string) : list string :=
  match s with
  | EmptyString => [EmptyString]
  | String a rest =>
      if Ascii.eqb a c then EmptyString :: split c rest
      else match split c rest with
           | h :: t => String a h :: t
           | [] => [String a EmptyString]
           end
  end.

Definition pair_of (field : string) : string * string :=
  let '(k, v) := break "=" field in (k, default EmptyString v).

Definition query (q : string) : list (string * string) :=
  pair_of <$> filter (λ f, f ≠ EmptyString) (split "&" q).

Definition parse (input base : string) : option Request :=
  match input with
  | String "/" (String "/" _) => None
  | String "/" _ =>
      let '(path, q) := break "?" input in
      Some (mkRequest path (query (default EmptyString q)))
  | _ => None
  end.

#[export] Instance parser : UrlParser := {|
  URL_parse := parse
|}.

End MiniUrl.

(* ===================================================================== *)
(** * Vocabulary for the statements about the listeners *)
(* ===================================================================== *)

(** The requests on which the checking listener settles its promise:
    a callback that carries an error, a wrong or missing state, or a code. *)
Definition settles_checked (expectedState : string) (req : Request) : bool :=
  String.eqb (pathname req) "/callback" &&
  (bool_decide (is_Some (truthy (searchParams_get "error" req))) ||
   bool_decide (searchParams_get "state" req ≠ Some expectedState) ||
   bool_decide (is_Some (truthy (searchParams_get "code" req)))).

(** The requests on which the one-argument listener settles its promise. *)
Definition settles_plain (req : Request) : bool :=
  String.eqb (pathname req) "/callback" &&
  (bool_decide (is_Some (truthy (searchParams_get "error" req))) ||
   bool_decide (is_Some (truthy (searchParams_get "code" req)))).

(** The milliseconds a list of requests spans. *)
Definition elapsed (evs : list (N * Target)) : Z := Z.of_N (foldr N.add 0%N evs.*1).

(** A request whose target is a URL and that does not settle the promise. *)
Definition passes `{UrlParser} (port : Z) (settles : Request → bool) (url : Target) : bool :=
  match request_url port url with
  | Some req => negb (settles req)
  | None => false
  end.

(** Every request that arrives before [budget] ms have gone passes. *)
Fixpoint passing_for `{UrlParser} (port : Z) (settles : Request → bool) (budget : Z)
    (evs : list (N * Target)) : bool :=
  match evs with
  | [] => true
  | (dt, url) :: rest =>
      if budget <=? Z.of_N dt then true
      else passes port settles url &&
           passing_for port settles (budget - Z.of_N dt) rest
  end.

(** A request as it arrives and the parsed request it stands for. *)
Definition parsed_as `{UrlParser} (port : Z) (ev : N * Target) (r : N * Request) : Prop :=
  ev.1 = r.1 ∧ request_url port ev.2 = Some r.2.

(** The same world, but for the requests to come. *)
Definition alike (w1 w2 : World) : Prop := set_inbound [] w1 = set_inbound [] w2.

(** What [authorize] does before it starts the listener: the state nonce,
    the two lines on the console, the browser. *)
Definition authorize_prelude (config : OAuthConfig) : M unit :=
  state ← randomBytes_hex;
  let authUrl := OAuthClient.buildAuthorizationUrl config state in
  console_error (newline +:+ "Please open this URL in your browser to authenticate:");;
  console_error authUrl;;
  plat ← process_platform;
  let cmd := match plat with
             | darwin => "open"
             | win32 => "cmd"
             | _ => "xdg-open"
             end in
  let args := match plat with
              | win32 => ["/c"; "start"; authUrl]
              | _ => [authUrl]
              end in
  execFile cmd args.

(* ===================================================================== *)
(** * Scenarios *)
(* ===================================================================== *)

(** Concrete worlds on which the statements below are run, with the
    [MiniJson] codec. *)
Module Scenario.

Definition filePath : list string := ["home"; "user"; ".mf-cloud"; "tokens.json"].

Definition config : OAuthConfig :=
  mkOAuthConfig "test-client-id" "test-client-secret" "http://localhost:3456/callback".

Definition now : Z := 1700000000000.

(** A home directory without [.mf-cloud], umask 0o022. *)
Definition home : FS :=
  mkFS (<[ ["home"; "user"] := Dir 493 ]> (<[ ["home"] := Dir 493 ]> ∅)) 18.

Definition blank : World :=
  mkWorld home now (mkHost other_platform true) [] [] [] [] [].

Definition validTokens : TokenData :=
  mkTokenData "valid-access" "valid-refresh" (now + 3600000) "test".
Definition expiredTokens : TokenData :=
  mkTokenData "expired-access" "expired-refresh" (now - 1000) "test".

(** The world after [save(t)] on [w]. *)
Definition holding (t : TokenData) (w : World) : World :=
  (@TokenStore.save MiniJson.codec filePath t w).2.

(** A token file left behind with mode 0o644, holding [{}]. *)
Definition loose : World :=
  set_fs (set_node filePath (File 420 "{}")
            (set_node (dirname filePath) (Dir 493) home)) blank.

Definition callback (params : list (string * string)) : Request :=
  mkRequest "/callback" params.

Definition nonce : string := "5f1d0c2a9b7e4f638a0d6c1e2b3f4a59".

Definition granted : FetchResult :=
  Answer (mkResponse 200 "" (Some (mkTokenResponse "new-access" "new-refresh" 3600 "test"))).

(** A callback that carries a code and a [state] the flow never issued. *)
Definition forged : World :=
  set_responses [granted]
    (set_inbound [(5000%N, callback [("code", "stolen-code"); ("state", "attacker-state")])]
       (set_entropy [nonce] blank)).

(** The user denies consent. *)
Definition refused : World :=
  set_inbound [(5000%N, callback [("error", "access_denied")])]
    (set_entropy [nonce] blank).

(** The browser is closed: nothing calls back, except a favicon probe five
    minutes later. *)
Definition abandoned : World :=
  set_inbound [(300000%N, mkRequest "/favicon.ico" [])] (set_entropy [nonce] blank).

(** The consent arrives after three minutes. *)
Definition late : World :=
  set_responses [granted]
    (set_inbound [(180000%N, callback [("code", "late-code"); ("state", nonce)])]
       (set_entropy [nonce] blank)).

(** An expired token on disk, a token endpoint that cannot be reached for
    the refresh, and a user who then grants consent. *)
Definition offline_then_granted : World :=
  set_responses [NetworkFailure; granted]
    (set_inbound [(5000%N, callback [("code", "fresh-code"); ("state", nonce)])]
       (set_entropy [nonce] (holding expiredTokens blank))).

(** An expired token on disk and a token endpoint that grants the refresh. *)
Definition refreshable : World :=
  set_responses [granted] (holding expiredTokens blank).

(** A stray probe, then the consent with the nonce of the flow, five
    seconds in. *)
Definition probed : World :=
  set_responses [granted]
    (set_inbound [(1000%N, mkRequest "/favicon.ico" []);
                  (4000%N, callback [("code", "good-code"); ("state", nonce)])]
       (set_entropy [nonce] blank)).

(** Something else listens on the port of the callback. *)
Definition occupied : World := set_listening [3456] forged.

(** An expired token in a file its owner may only read (0o400), and a token
    endpoint that grants the refresh. *)
Definition readonly : World :=
  set_responses [granted]
    (set_fs (set_node filePath
               (File 256 (MiniJson.stringify (TokenData_to_json expiredTokens)))
               (fs (holding expiredTokens blank)))
       blank).

Definition refreshedTokens : TokenData :=
  mkTokenData "new-access" "new-refresh" (now + 3600000) "test".

(** The API servers around a world of the credential code. *)
Definition calling (answers : list ApiFetchResult) (w : World) : ApiWorld :=
  mkApiWorld w answers [].

Definition items_url : string := "https://invoice.moneyforward.com/api/v3".

(** Requests as they arrive at the port: a stray probe, then the consent
    with the nonce of the flow, five seconds in. *)
Definition consent : Target := Some ("/callback?code=good-code&state=" +:+ nonce).

Definition knocking : list (N * Target) :=
  [(1000%N, Some "/favicon.ico"); (4000%N, consent)].

(** A request for [//] comes before the consent. *)
Definition poked : list (N * Target) :=
  [(1000%N, Some "/favicon.ico"); (500%N, Some "//"); (3500%N, consent)].

(** The consent comes ten seconds after the two minutes. *)
Definition overdue : list (N * Target) :=
  [(1000%N, Some "/favicon.ico"); (129000%N, consent)].

(** A token whose [expires_at] is [NaN]. *)
Definition undatedTokens : TokenValue :=
  mkTokenValue "test-access-token" "test-refresh-token" NaN "test".

End Scenario.

(* ===================================================================== *)
(** * Running asynchronous code *)
(* ===================================================================== *)

Lemma bind_run {A B} (m : M A) (k : A → M B) (w : World) :
  (m ≫= k) w =
  match m w with
  | (Ok a, w') => k a w'
  | (Throw e, w') => (Throw e, w')
  | (Pending, w') => (Pending, w')
  end.
Proof. reflexivity. Qed.

Lemma bind_ok {A B} (m : M A) (k : A → M B) (w w' : World) (a : A) :
  m w = (Ok a, w') → (m ≫= k) w = k a w'.
Proof. intros E. rewrite bind_run, E. reflexivity. Qed.

Lemma bind_throw {A B} (m : M A) (k : A → M B) (w w' : World) (e : Error) :
  m w = (Throw e, w') → (m ≫= k) w = (Throw e, w').
Proof. intros E. rewrite bind_run, E. reflexivity. Qed.

Lemma bind_pending {A B} (m : M A) (k : A → M B) (w w' : World) :
  m w = (Pending, w') → (m ≫= k) w = (Pending, w').
Proof. intros E. rewrite bind_run, E. reflexivity. Qed.

Lemma try_catch_run {A} (m h : M A) (w : World) :
  try_catch m h w =
  match m w with
  | (Throw _, w') => h w'
  | r => r
  end.
Proof. reflexivity. Qed.

Lemma set_fs_set_fs (f g : FS) (w : World) : set_fs f (set_fs g w) = set_fs f w.
Proof. reflexivity. Qed.

Lemma set_fs_same (w : World) : set_fs (fs w) w = w.
Proof. destruct w; reflexivity. Qed.

(* ===================================================================== *)
(** * The file system *)
(* ===================================================================== *)

Lemma lookup_node_cons (f : FS) (c : string) (p : list string) :
  lookup_node f (c :: p) = nodes f !! (c :: p).
Proof. reflexivity. Qed.

Lemma lookup_node_snoc (f : FS) (p : list string) (c : string) :
  lookup_node f (p ++ [c]) = nodes f !! (p ++ [c]).
Proof. destruct p; reflexivity. Qed.

Lemma lookup_set_node_eq (f : FS) (p : list string) (n : node) :
  p ≠ [] → lookup_node (set_node p n f) p = Some n.
Proof.
  intros Hp. destruct p as [|c p]; [done|].
  rewrite lookup_node_cons. simpl. apply lookup_insert_eq.
Qed.

Lemma lookup_set_node_ne (f : FS) (p q : list string) (n : node) :
  p ≠ q → lookup_node (set_node p n f) q = lookup_node f q.
Proof.
  intros Hpq. destruct q as [|c q]; [reflexivity|].
  rewrite !lookup_node_cons. simpl. by apply lookup_insert_ne.
Qed.

Lemma dirname_ne (p : list string) : p ≠ [] → dirname p ≠ p.
Proof.
  intros Hp E. apply (f_equal length) in E.
  unfold dirname in E. rewrite removelast_firstn_len, length_take in E.
  destruct p; [done|]. simpl in E. lia.
Qed.

Lemma dirname_snoc (p : list string) : p ≠ [] → ∃ c, p = dirname p ++ [c].
Proof.
  intros Hp. destruct (exists_last Hp) as (d & c & ->).
  exists c. unfold dirname. by rewrite removelast_last.
Qed.

(** What a successful recursive [mkdir] leaves behind. *)
Lemma mkdir_from_umask (todo pre : list string) (m : Z) (f f' : FS) :
  mkdir_from pre todo m f = inr f' → umask f' = umask f.
Proof.
  revert pre f. induction todo as [|c rest IH]; intros pre f E; simpl in E.
  - by inversion E.
  - destruct (lookup_node f (pre ++ [c])) as [[?|? ?]|]; [eauto|done|].
    apply IH in E. exact E.
Qed.

Lemma mkdir_from_keeps (todo pre : list string) (m : Z) (f f' : FS) q n :
  mkdir_from pre todo m f = inr f' →
  lookup_node f q = Some n → lookup_node f' q = Some n.
Proof.
  revert pre f. induction todo as [|c rest IH]; intros pre f E Hq; simpl in E.
  - by inversion E; subst.
  - destruct (lookup_node f (pre ++ [c])) as [[?|? ?]|] eqn:Hd; [eauto|done|].
    eapply IH; [exact E|].
    rewrite lookup_set_node_ne; [done|]. intros <-. congruence.
Qed.

Lemma mkdir_from_is_dir (todo pre : list string) (m : Z) (f f' : FS) :
  mkdir_from pre todo m f = inr f' →
  (∃ dm, lookup_node f pre = Some (Dir dm)) →
  ∃ dm, lookup_node f' (pre ++ todo) = Some (Dir dm).
Proof.
  revert pre f. induction todo as [|c rest IH]; intros pre f E Hdone; simpl in E.
  - inversion E; subst. by rewrite app_nil_r.
  - replace (pre ++ c :: rest) with ((pre ++ [c]) ++ rest) by by rewrite <- app_assoc.
    destruct (lookup_node f (pre ++ [c])) as [[dm|? ?]|] eqn:Hd; [|done|].
    + eapply IH; eauto.
    + eapply IH; [exact E|]. eexists. apply lookup_set_node_eq. by destruct pre.
Qed.

Lemma mkdir_from_created (todo pre : list string) (m : Z) (f f' : FS) :
  mkdir_from pre todo m f = inr f' →
  todo ≠ [] →
  lookup_node f (pre ++ todo) = None →
  lookup_node f' (pre ++ todo) = Some (Dir (created_mode f m)).
Proof.
  revert pre f. induction todo as [|c rest IH]; intros pre f E Hne Hnone; [done|].
  simpl in E.
  replace (pre ++ c :: rest) with ((pre ++ [c]) ++ rest) in * by by rewrite <- app_assoc.
  destruct rest as [|c' rest'].
  - rewrite app_nil_r in *. rewrite Hnone in E. simpl in E. inversion E; subst.
    apply lookup_set_node_eq. by destruct pre.
  - destruct (lookup_node f (pre ++ [c])) as [[dm|? ?]|] eqn:Hd; [|done|].
    + apply IH; [exact E|done|exact Hnone].
    + erewrite IH; [|exact E|done|].
      * reflexivity.
      * rewrite lookup_set_node_ne; [exact Hnone|].
        intros Heq. apply (f_equal length) in Heq.
        rewrite !length_app in Heq. simpl in Heq. lia.
Qed.

Lemma created_mode_restricted (f : FS) :
  Z.land (created_mode f mode_0o700) mode_0o077 = 0.
Proof.
  unfold created_mode.
  rewrite <- Z.land_assoc, (Z.land_comm (Z.lnot _)), Z.land_assoc.
  reflexivity.
Qed.

Lemma created_mode_exact (f : FS) (m : Z) :
  Z.land (umask f) m = 0 → created_mode f m = m.
Proof.
  intros Hu. unfold created_mode. apply Z.bits_inj'. intros n Hn.
  rewrite Z.land_spec, Z.lnot_spec by done.
  apply (f_equal (λ z, Z.testbit z n)) in Hu.
  rewrite Z.land_spec, Z.bits_0 in Hu.
  destruct (Z.testbit m n), (Z.testbit (umask f) n); simpl in *; congruence.
Qed.

(* ===================================================================== *)
(** * token-store.ts: the shape check *)
(* ===================================================================== *)

Lemma typeof_string_inv (v : option json) :
  jstype_eqb (typeof v) TString = true → ∃ s, v = Some (JStr s).
Proof. destruct v as [[]|]; simpl; try discriminate. eauto. Qed.

Lemma typeof_number_inv (v : option json) :
  jstype_eqb (typeof v) TNumber = true → ∃ n, v = Some (JNum n).
Proof. destruct v as [[]|]; simpl; try discriminate. eauto. Qed.

(** [isValidTokenData] accepts exactly the objects that own the four
    properties at their types. *)
Lemma isValidTokenData_shape (v : json) :
  isValidTokenData v = true ↔
  ∃ a r e s,
    prop v "access_token" = Some (JStr a) ∧
    prop v "refresh_token" = Some (JStr r) ∧
    prop v "expires_at" = Some (JNum e) ∧
    prop v "scope" = Some (JStr s).
Proof.
  split.
  - unfold isValidTokenData.
    destruct (negb (jstype_eqb (typeof (Some v)) TObject) || _); [discriminate|].
    rewrite !andb_true_iff. intros [[[Ha Hr] He] Hs].
    apply typeof_string_inv in Ha as [a Ha], Hr as [r Hr], Hs as [s Hs].
    apply typeof_number_inv in He as [e He].
    exists a, r, e, s. done.
  - intros (a & r & e & s & Ha & Hr & He & Hs).
    destruct v; try discriminate.
    unfold isValidTokenData. simpl in *. by rewrite Ha, Hr, He, Hs.
Qed.

Lemma isValidTokenData_view (v : json) :
  isValidTokenData v = true ↔ is_Some (as_TokenData v).
Proof.
  rewrite isValidTokenData_shape. unfold as_TokenData. split.
  - intros (a & r & e & s & -> & -> & -> & ->). eauto.
  - intros [t Ht].
    destruct (prop v "access_token") as [[]|]; try discriminate.
    destruct (prop v "refresh_token") as [[]|]; try discriminate.
    destruct (prop v "expires_at") as [[]|]; try discriminate.
    destruct (prop v "scope") as [[]|]; try discriminate.
    eauto 10.
Qed.

Lemma TokenData_to_json_valid (t : TokenData) :
  isValidTokenData (TokenData_to_json t) = true.
Proof. reflexivity. Qed.

Lemma as_TokenData_to_json (t : TokenData) :
  as_TokenData (TokenData_to_json t) = Some t.
Proof. destruct t. reflexivity. Qed.

(* ===================================================================== *)
(** * token-store.ts: load, save, isExpired *)
(* ===================================================================== *)

Section TokenStoreFacts.
Context `{JsonCodec}.
Variable filePath : list string.

Lemma load_run (w : World) :
  TokenStore.load filePath w = (Ok (loaded filePath (fs w)), w).
Proof.
  unfold TokenStore.load, loaded. rewrite try_catch_run, bind_run.
  unfold readFile.
  destruct (fs_readFile filePath (fs w)) as [e|data]; [reflexivity|].
  destruct (JSON_parse data) as [v|]; [|reflexivity].
  destruct (isValidTokenData v); reflexivity.
Qed.

Lemma isExpired_run (t : TokenData) (w : World) :
  TokenStore.isExpired t w = (Ok (expires_at t - EXPIRY_BUFFER_MS <=? clock w), w).
Proof. reflexivity. Qed.

(** The three file-system calls behind a [save] that returns. *)
Lemma save_inv (t : TokenData) (w w' : World) :
  TokenStore.save filePath t w = (Ok (), w') →
  ∃ f1 f2 f3,
    fs_mkdir_recursive (dirname filePath) mode_0o700 (fs w) = inr f1 ∧
    fs_writeFile filePath (JSON_stringify (TokenData_to_json t)) mode_0o600 f1 = inr f2 ∧
    fs_chmod filePath mode_0o600 f2 = inr f3 ∧
    w' = set_fs f3 w.
Proof.
  unfold TokenStore.save, mkdir_recursive, writeFile, chmod.
  rewrite bind_run. unfold fs_call at 1.
  destruct (fs_mkdir_recursive _ _ (fs w)) as [e|f1] eqn:E1; [discriminate|].
  rewrite bind_run. unfold fs_call at 1. simpl fs.
  destruct (fs_writeFile _ _ _ f1) as [e|f2] eqn:E2; [discriminate|].
  unfold fs_call. simpl fs.
  destruct (fs_chmod _ _ f2) as [e|f3] eqn:E3; [discriminate|].
  intros [= <-]. exists f1, f2, f3. done.
Qed.

Lemma save_plain_inv (t : TokenData) (w w' : World) :
  TokenStorePlain.save filePath t w = (Ok (), w') →
  ∃ f1 f2,
    fs_mkdir_recursive (dirname filePath) mode_0o700 (fs w) = inr f1 ∧
    fs_writeFile filePath (JSON_stringify (TokenData_to_json t)) mode_0o600 f1 = inr f2 ∧
    w' = set_fs f2 w.
Proof.
  unfold TokenStorePlain.save, mkdir_recursive, writeFile.
  rewrite bind_run. unfold fs_call at 1.
  destruct (fs_mkdir_recursive _ _ (fs w)) as [e|f1] eqn:E1; [discriminate|].
  unfold fs_call. simpl fs.
  destruct (fs_writeFile _ _ _ f1) as [e|f2] eqn:E2; [discriminate|].
  intros [= <-]. exists f1, f2. done.
Qed.

Lemma writeFile_inv (p : list string) (data : string) (m : Z) (f f' : FS) :
  fs_writeFile p data m f = inr f' →
  p ≠ [] ∧ (∃ dm, lookup_node f (dirname p) = Some (Dir dm)) ∧
  ∃ fm, f' = set_node p (File fm data) f ∧
        match lookup_node f p with
        | None => fm = created_mode f m
        | Some (File old _) => fm = old ∧ owner_can_write old = true
        | Some (Dir _) => False
        end.
Proof.
  unfold fs_writeFile. destruct p as [|c p]; [discriminate|].
  destruct (lookup_node f (dirname (c :: p))) as [[dm|? ?]|]; try discriminate.
  destruct (lookup_node f (c :: p)) as [[?|old ?]|] eqn:Hp; try discriminate.
  - destruct (owner_can_write old) eqn:Hw; [|discriminate].
    intros [= <-]. split; [done|]. split; [eauto|]. eauto.
  - intros [= <-]. split; [done|]. split; [eauto|]. eauto.
Qed.

Lemma chmod_file (p : list string) (m fm : Z) (data : string) (f f' : FS) :
  lookup_node f p = Some (File fm data) → p ≠ [] →
  fs_chmod p m f = inr f' → f' = set_node p (File m data) f.
Proof.
  intros Hp Hne. unfold fs_chmod. destruct p; [done|]. rewrite Hp. by intros [= <-].
Qed.

(** After a [save] that returns: the token file holds the serialised
    token with mode 0o600 whatever was there before, its directory exists,
    and a directory that had to be created carries no group or other
    permission. *)
Lemma save_result (t : TokenData) (w w' : World) :
  TokenStore.save filePath t w = (Ok (), w') →
  lookup_node (fs w') filePath =
    Some (File mode_0o600 (JSON_stringify (TokenData_to_json t))) ∧
  (∃ dm, lookup_node (fs w') (dirname filePath) = Some (Dir dm)) ∧
  (lookup_node (fs w) (dirname filePath) = None →
   lookup_node (fs w') (dirname filePath) = Some (Dir (created_mode (fs w) mode_0o700))).
Proof.
  intros (f1 & f2 & f3 & Hmk & Hwr & Hch & ->)%save_inv. simpl fs.
  apply writeFile_inv in Hwr as (Hne & [dm Hdir] & fm & -> & _).
  eapply chmod_file in Hch; [|by apply lookup_set_node_eq|done]. subst f3.
  pose proof (dirname_ne _ Hne) as Hdn.
  split; [by apply lookup_set_node_eq|].
  rewrite !lookup_set_node_ne by done.
  split; [eauto|].
  intros Hnone. unfold fs_mkdir_recursive in Hmk.
  apply (mkdir_from_created _ [] _ _ _ Hmk); [|exact Hnone].
  intros E. rewrite E in Hnone. discriminate.
Qed.

Lemma save_then_loaded (t : TokenData) (w w' : World) :
  JSON_parse (JSON_stringify (TokenData_to_json t)) = Some (TokenData_to_json t) →
  TokenStore.save filePath t w = (Ok (), w') →
  loaded filePath (fs w') = Some t.
Proof.
  intros Hcodec Hsave. apply save_result in Hsave as (Hfile & _).
  unfold loaded, fs_readFile. rewrite Hfile. simpl.
  rewrite Hcodec, TokenData_to_json_valid. apply as_TokenData_to_json.
Qed.

End TokenStoreFacts.

(* ===================================================================== *)
(** * oauth-client.ts: what the token endpoint calls touch *)
(* ===================================================================== *)

Lemma fetch_frame (url : string) (body : list (string * string)) (w w' : World)
    (r : result Response) :
  fetch url body w = (r, w') →
  fs w' = fs w ∧ clock w' = clock w ∧ listening w' = listening w ∧
  inbound w' = inbound w ∧
  trace w' = trace w ++ [Fetch url (URLSearchParams_toString body)].
Proof.
  unfold fetch. simpl.
  destruct (responses w) as [|[|a] rest]; intros [= <- <-]; done.
Qed.

Lemma refreshToken_frame (config : OAuthConfig) (rt : string) (w w' : World)
    (r : result TokenData) :
  OAuthClient.refreshToken config rt w = (r, w') →
  fs w' = fs w ∧ clock w' = clock w ∧ listening w' = listening w ∧
  inbound w' = inbound w ∧
  trace w' = trace w ++
    [Fetch MF_TOKEN_URL
       (URLSearchParams_toString (OAuthClient.buildRefreshRequestBody config rt))].
Proof.
  unfold OAuthClient.refreshToken. rewrite bind_run.
  destruct (fetch _ _ w) as [[res| |] w1] eqn:Hf; apply fetch_frame in Hf.
  - destruct (negb (ok res)).
    + intros [= <- <-]. done.
    + rewrite bind_run. unfold res_json.
      destruct (body_json res); intros [= <- <-]; done.
  - intros [= <- <-]. done.
  - intros [= <- <-]. done.
Qed.

(* ===================================================================== *)
(** * auth-manager.ts *)
(* ===================================================================== *)

Section AuthManagerFacts.
Variable store : ITokenStore.
Variable client : IOAuthClient.

(** A token the store reports as fresh is returned after [load] and
    [isExpired] alone. *)
Lemma getValidToken_fresh (t : TokenData) (w w1 w2 : World) :
  load store w = (Ok (Some t), w1) →
  isExpired store t w1 = (Ok false, w2) →
  AuthManager.getValidToken store client w = (Ok t, w2).
Proof.
  intros Hl He. unfold AuthManager.getValidToken.
  rewrite (bind_ok _ _ _ _ _ Hl), (bind_ok _ _ _ _ _ He). reflexivity.
Qed.

(** A rejected refresh is caught: the interactive flow starts from the
    world the refresh left, after the message on the console. *)
Lemma getValidToken_refresh_rejected (t : TokenData) (e : Error) (w w1 w2 w3 : World) :
  load store w = (Ok (Some t), w1) →
  isExpired store t w1 = (Ok true, w2) →
  refreshToken client (refresh_token t) w2 = (Throw e, w3) →
  AuthManager.getValidToken store client w =
  AuthManager.doInteractiveAuth store client (emit (ConsoleError refresh_failed_message) w3).
Proof.
  intros Hl He Hr. unfold AuthManager.getValidToken.
  rewrite (bind_ok _ _ _ _ _ Hl), (bind_ok _ _ _ _ _ He). cbn [negb].
  rewrite try_catch_run, (bind_throw _ _ _ _ _ Hr). reflexivity.
Qed.

Lemma getValidToken_refreshed (t t' : TokenData) (w w1 w2 w3 w4 : World) :
  load store w = (Ok (Some t), w1) →
  isExpired store t w1 = (Ok true, w2) →
  refreshToken client (refresh_token t) w2 = (Ok t', w3) →
  save store t' w3 = (Ok (), w4) →
  AuthManager.getValidToken store client w = (Ok t', w4).
Proof.
  intros Hl He Hr Hs. unfold AuthManager.getValidToken.
  rewrite (bind_ok _ _ _ _ _ Hl), (bind_ok _ _ _ _ _ He). cbn [negb].
  rewrite try_catch_run, (bind_ok _ _ _ _ _ Hr), (bind_ok _ _ _ _ _ Hs). reflexivity.
Qed.

Lemma doInteractiveAuth_ok (t : TokenData) (w w1 w2 : World) :
  authorize client w = (Ok t, w1) →
  save store t w1 = (Ok (), w2) →
  AuthManager.doInteractiveAuth store client w = (Ok t, w2).
Proof.
  intros Ha Hs. unfold AuthManager.doInteractiveAuth.
  rewrite (bind_ok _ _ _ _ _ Ha), (bind_ok _ _ _ _ _ Hs). reflexivity.
Qed.

Lemma doInteractiveAuth_throw (e : Error) (w w1 : World) :
  authorize client w = (Throw e, w1) →
  AuthManager.doInteractiveAuth store client w = (Throw e, w1).
Proof. intros Ha. unfold AuthManager.doInteractiveAuth. by rewrite (bind_throw _ _ _ _ _ Ha). Qed.

End AuthManagerFacts.

(* ===================================================================== *)
(** * callback-server.ts: the listener that checks [state] *)
(* ===================================================================== *)

Lemma server_close_frees (port : Z) (w : World) : port ∉ listening (server_close port w).
Proof.
  unfold server_close. simpl. rewrite list_elem_of_filter. tauto.
Qed.

Lemma serve_done (handler : Request → Listener * World → Listener * World)
    (onTimer : Listener * World → Listener * World)
    (evs : list (N * Request)) (l : Listener) (w : World) (s : Settlement) :
  promise l = Some s → serve handler onTimer evs l w = (l, set_inbound evs w).
Proof. intros Hp. destruct evs; simpl; by rewrite Hp. Qed.

Lemma serve_nil (handler : Request → Listener * World → Listener * World)
    (onTimer : Listener * World → Listener * World) (l : Listener) (w : World) :
  promise l = None →
  serve handler onTimer [] l w =
  match timer l with
  | Some due => onTimer (clearTimeout l, set_clock (Z.max (clock w) due) (set_inbound [] w))
  | None => (l, set_inbound [] w)
  end.
Proof. intros Hp. simpl. by rewrite Hp. Qed.

Lemma serve_cons (handler : Request → Listener * World → Listener * World)
    (onTimer : Listener * World → Listener * World)
    (dt : N) (req : Request) (rest : list (N * Request)) (l : Listener) (w : World) :
  promise l = None →
  serve handler onTimer ((dt, req) :: rest) l w =
  let t := clock w + Z.of_N dt in
  match (match timer l with
         | Some due => if due <=? t then Some due else None
         | None => None
         end) with
  | Some due =>
      let now := Z.max (clock w) due in
      onTimer (clearTimeout l,
               set_clock now (set_inbound ((Z.to_N (t - now), req) :: rest) w))
  | None =>
      let '(l', w') := handler req (l, set_clock t w) in
      serve handler onTimer rest l' w'
  end.
Proof. intros Hp. simpl. by rewrite Hp. Qed.

#[local] Arguments serve : simpl never.
#[local] Arguments CallbackServer.onRequest : simpl never.
#[local] Arguments CallbackServerPlain.onRequest : simpl never.

Lemma settles_checked_false (port : Z) (st : string) (req : Request)
    (l : Listener) (w : World) :
  settles_checked st req = false →
  CallbackServer.onRequest port st req (l, w) = (l, respond 404 "Not Found" w).
Proof.
  unfold settles_checked, CallbackServer.onRequest.
  destruct (String.eqb (pathname req) "/callback"); [|done].
  simpl. rewrite !orb_false_iff, !bool_decide_eq_false.
  intros [[He Hs] Hc].
  destruct (truthy (searchParams_get "error" req)); [by destruct He|].
  rewrite bool_decide_eq_false_2 by done.
  destruct (truthy (searchParams_get "code" req)); [by destruct Hc|]. done.
Qed.

(** A callback with the wrong state never resolves the promise: the
    listener rejects, with the denial when the request carries an error and
    with the state mismatch otherwise, and closes its server. *)
Lemma onRequest_wrong_state (port : Z) (st : string) (req : Request)
    (due : option Z) (w : World) :
  pathname req = "/callback" →
  searchParams_get "state" req ≠ Some st →
  ∃ w',
    CallbackServer.onRequest port st req (mkListener None due, w) =
      (mkListener
         (Some (Rejected (match truthy (searchParams_get "error" req) with
                          | Some _ => CallbackServer.denied
                          | None => CallbackServer.state_mismatch
                          end))) None, w') ∧
    (port ∉ listening w') ∧ clock w' = clock w.
Proof.
  intros Hp Hs. unfold CallbackServer.onRequest. rewrite Hp. simpl.
  destruct (truthy (searchParams_get "error" req)).
  - eexists. split; [reflexivity|]. split; [apply server_close_frees|done].
  - rewrite bool_decide_eq_true_2 by done.
    eexists. split; [reflexivity|]. split; [apply server_close_frees|done].
Qed.

(** The state check of the checking listener, on the first request. *)
Lemma waitForCallback_wrong_state (port : Z) (st : string) (w : World)
    (dt : N) (req : Request) (rest : list (N * Request)) :
  port ∉ listening w →
  inbound w = (dt, req) :: rest →
  (Z.of_N dt < CallbackServer.CALLBACK_TIMEOUT_MS) →
  pathname req = "/callback" →
  searchParams_get "state" req ≠ Some st →
  ∃ w',
    CallbackServer.waitForCallback port st w =
      (Throw (match truthy (searchParams_get "error" req) with
              | Some _ => CallbackServer.denied
              | None => CallbackServer.state_mismatch
              end), w') ∧
    (port ∉ listening w').
Proof.
  intros Hfree Hin Hdt Hp Hs. unfold CallbackServer.waitForCallback.
  rewrite bool_decide_eq_false_2 by done.
  simpl inbound. rewrite Hin, serve_cons by done. simpl timer. simpl clock.
  cbv beta iota zeta.
  rewrite (proj2 (Z.leb_gt _ _)) by lia.
  edestruct (onRequest_wrong_state port st req
               (Some (clock w + CallbackServer.CALLBACK_TIMEOUT_MS))) as (w' & -> & Hfree' & _);
    [done..|].
  erewrite serve_done by reflexivity.
  eexists. split; [reflexivity|]. exact Hfree'.
Qed.

(* ===================================================================== *)
(** * callback-server.ts: the one-argument listener *)
(* ===================================================================== *)

Lemma settles_plain_false (port : Z) (req : Request) (l : Listener) (w : World) :
  settles_plain req = false →
  CallbackServerPlain.onRequest port req (l, w) = (l, respond 404 "Not Found" w).
Proof.
  unfold settles_plain, CallbackServerPlain.onRequest.
  destruct (String.eqb (pathname req) "/callback"); [|done].
  simpl. rewrite !orb_false_iff, !bool_decide_eq_false.
  intros [He Hc].
  destruct (truthy (searchParams_get "error" req)); [by destruct He|].
  destruct (truthy (searchParams_get "code" req)); [by destruct Hc|]. done.
Qed.

(** Without a timer the loop only ends on a settling request: when none
    comes, however long the wait, the promise stays pending and the socket
    stays bound. *)
Lemma serve_plain_quiet (port : Z) (evs : list (N * Request)) (w : World) :
  Forall (λ ev, settles_plain ev.2 = false) evs →
  ∃ w',
    serve (CallbackServerPlain.onRequest port) id evs (mkListener None None) w =
      (mkListener None None, w') ∧
    listening w' = listening w ∧ fs w' = fs w ∧
    clock w' = clock w + Z.of_N (foldr N.add 0%N evs.*1).
Proof.
  revert w. induction evs as [|[dt req] rest IH]; intros w Hq.
  - rewrite serve_nil by done. eexists. split; [reflexivity|]. simpl.
    repeat split; lia.
  - apply Forall_cons in Hq as [Hreq Hq]. simpl in Hreq.
    rewrite serve_cons by done. simpl timer. cbv beta iota zeta.
    rewrite settles_plain_false by done.
    destruct (IH (respond 404 "Not Found" (set_clock (clock w + Z.of_N dt) w)) Hq)
      as (w' & -> & Hl & Hf & Hc).
    eexists. split; [reflexivity|].
    split; [exact Hl|]. split; [exact Hf|].
    rewrite Hc. rewrite fmap_cons, foldr_cons. cbn [fst clock respond emit set_clock].
    rewrite N2Z.inj_add. lia.
Qed.

Lemma waitForCallback_plain_pending (port : Z) (w : World) :
  port ∉ listening w →
  Forall (λ ev, settles_plain ev.2 = false) (inbound w) →
  ∃ w',
    CallbackServerPlain.waitForCallback port w = (Pending, w') ∧
    port ∈ listening w' ∧
    clock w' = clock w + Z.of_N (foldr N.add 0%N (inbound w).*1).
Proof.
  intros Hfree Hq. unfold CallbackServerPlain.waitForCallback.
  rewrite bool_decide_eq_false_2 by done. simpl inbound.
  edestruct (serve_plain_quiet port (inbound w)) as (w' & -> & Hl & _ & Hc); [exact Hq|].
  exists w'. split; [reflexivity|]. simpl in *. rewrite Hl. split; [set_solver|done].
Qed.

(** The first request is a callback with a code and no error: the promise
    resolves with the code. The [state] parameter is never read. *)
Lemma waitForCallback_plain_code (port : Z) (w : World)
    (dt : N) (req : Request) (rest : list (N * Request)) (code : string) :
  port ∉ listening w →
  inbound w = (dt, req) :: rest →
  pathname req = "/callback" →
  truthy (searchParams_get "error" req) = None →
  truthy (searchParams_get "code" req) = Some code →
  CallbackServerPlain.waitForCallback port w =
    (Ok (code, port),
     set_inbound rest
       (respond 200 html_success
          (set_clock (clock w + Z.of_N dt)
             (emit (ConsoleError (listen_message port))
                (set_listening (port :: listening w) w))))).
Proof.
  intros Hfree Hin Hp He Hc. unfold CallbackServerPlain.waitForCallback.
  rewrite bool_decide_eq_false_2 by done. simpl inbound.
  rewrite Hin, serve_cons by done. simpl timer. cbv beta iota zeta.
  unfold CallbackServerPlain.onRequest. rewrite Hp. simpl String.eqb. cbv iota.
  rewrite He, Hc. erewrite serve_done by reflexivity. reflexivity.
Qed.

(** The first request is a callback with an error: the promise is
    rejected, and nothing closes the server. *)
Lemma waitForCallback_plain_error (port : Z) (w : World)
    (dt : N) (req : Request) (rest : list (N * Request)) (error : string) :
  port ∉ listening w →
  inbound w = (dt, req) :: rest →
  pathname req = "/callback" →
  truthy (searchParams_get "error" req) = Some error →
  CallbackServerPlain.waitForCallback port w =
    (Throw (CallbackServerPlain.oauth_error error),
     set_inbound rest
       (respond 400 ("<h1>認証エラー</h1><p>" +:+ error +:+ "</p>")
          (set_clock (clock w + Z.of_N dt)
             (emit (ConsoleError (listen_message port))
                (set_listening (port :: listening w) w))))).
Proof.
  intros Hfree Hin Hp He. unfold CallbackServerPlain.waitForCallback.
  rewrite bool_decide_eq_false_2 by done. simpl inbound.
  rewrite Hin, serve_cons by done. simpl timer. cbv beta iota zeta.
  unfold CallbackServerPlain.onRequest. rewrite Hp. simpl String.eqb. cbv iota.
  rewrite He. erewrite serve_done by reflexivity. reflexivity.
Qed.

(* ===================================================================== *)
(** * oauth-client.ts: authorize *)
(* ===================================================================== *)

Lemma authorize_prelude_run (config : OAuthConfig) (w : World) :
  ∃ w1,
    authorize_prelude config w = (Ok (), w1) ∧
    fs w1 = fs w ∧ clock w1 = clock w ∧ listening w1 = listening w ∧
    inbound w1 = inbound w ∧ responses w1 = responses w.
Proof.
  destruct w as [f c [pl br] en inb rs ls tr].
  destruct en, pl, br;
    (eexists; split;
     [cbv -[OAuthClient.buildAuthorizationUrl String.append]; reflexivity|done]).
Qed.

Lemma authorize_run (config : OAuthConfig) (port : Z) (w : World) :
  OAuthClient.authorize config port w =
  (authorize_prelude config ≫= λ _,
   CallbackServerPlain.waitForCallback port ≫= λ '(code, server),
   close server ≫= λ _, OAuthClient.exchangeCode config code) w.
Proof.
  destruct w as [f c [pl br] en inb rs ls tr].
  destruct en, pl, br;
    cbv -[OAuthClient.buildAuthorizationUrl OAuthClient.exchangeCode
          CallbackServerPlain.waitForCallback server_close String.append];
    reflexivity.
Qed.

Lemma authorize_after_prelude (config : OAuthConfig) (port : Z) (w : World) :
  ∃ w1,
    authorize_prelude config w = (Ok (), w1) ∧
    fs w1 = fs w ∧ clock w1 = clock w ∧ listening w1 = listening w ∧
    inbound w1 = inbound w ∧ responses w1 = responses w ∧
    OAuthClient.authorize config port w =
      (CallbackServerPlain.waitForCallback port ≫= λ '(code, server),
       close server ≫= λ _, OAuthClient.exchangeCode config code) w1.
Proof.
  destruct (authorize_prelude_run config w) as (w1 & Hpre & Hf & Hc & Hl & Hi & Hr).
  exists w1. repeat (split; [done|]).
  rewrite authorize_run. by rewrite (bind_ok _ _ _ _ _ Hpre).
Qed.

(** ** The interactive flow, as [authorize] runs it *)

(** [authorize] hands the code of the first callback to the token
    endpoint, without comparing the [state] of the callback with the nonce
    it generated; the server is closed by then. *)
Lemma authorize_resolves (config : OAuthConfig) (port : Z) (w : World)
    (dt : N) (req : Request) (rest : list (N * Request)) (code : string) :
  port ∉ listening w →
  inbound w = (dt, req) :: rest →
  pathname req = "/callback" →
  truthy (searchParams_get "error" req) = None →
  truthy (searchParams_get "code" req) = Some code →
  ∃ w',
    OAuthClient.authorize config port w = OAuthClient.exchangeCode config code w' ∧
    (port ∉ listening w') ∧
    clock w' = clock w + Z.of_N dt ∧ fs w' = fs w ∧ responses w' = responses w.
Proof.
  intros Hfree Hin Hp He Hc.
  destruct (authorize_after_prelude config port w)
    as (w1 & _ & Hf & Hcl & Hl & Hi & Hr & ->).
  erewrite bind_ok;
    [|apply (waitForCallback_plain_code port w1 dt req rest code); congruence].
  cbv beta iota. rewrite bind_run. unfold close at 1.
  eexists. split; [reflexivity|].
  split; [apply server_close_frees|]. simpl. rewrite Hcl. done.
Qed.

Lemma exchangeCode_frame (config : OAuthConfig) (code : string) (w w' : World)
    (r : result TokenData) :
  OAuthClient.exchangeCode config code w = (r, w') →
  fs w' = fs w ∧ clock w' = clock w ∧ listening w' = listening w.
Proof.
  unfold OAuthClient.exchangeCode. rewrite bind_run.
  destruct (fetch _ _ w) as [[res| |] w1] eqn:Hf;
    apply fetch_frame in Hf as (Hfs & Hc & Hl & _).
  - destruct (negb (ok res)).
    + intros [= <- <-]. done.
    + rewrite bind_run. unfold res_json.
      destruct (body_json res); intros [= <- <-]; done.
  - intros [= <- <-]. done.
  - intros [= <- <-]. done.
Qed.

(* ===================================================================== *)
(** * Strings *)
(* ===================================================================== *)

Lemma append_String (x : ascii) (a b : string) : String x a +:+ b = String x (a +:+ b).
Proof. reflexivity. Qed.

Lemma append_empty (b : string) : "" +:+ b = b.
Proof. reflexivity. Qed.

Lemma append_assoc (a b c : string) : (a +:+ b) +:+ c = a +:+ (b +:+ c).
Proof. induction a as [|x a IH]; [done|]. rewrite !append_String. by f_equal. Qed.

Lemma chars_app (a b : string) : chars (a +:+ b) = chars a ++ chars b.
Proof. induction a as [|x a IH]; [done|]. rewrite append_String. simpl. by f_equal. Qed.

Lemma replace_all_app (c : ascii) (by_ a b : string) :
  replace_all c by_ (a +:+ b) = replace_all c by_ a +:+ replace_all c by_ b.
Proof.
  induction a as [|x a IH]; [done|]. rewrite append_String. simpl.
  destruct (Ascii.eqb x c); rewrite IH.
  - by rewrite append_assoc.
  - by rewrite append_String.
Qed.

(* ===================================================================== *)
(** * When a save returns *)
(* ===================================================================== *)

Lemma mkdir_from_succeeds (todo pre : list string) (m : Z) (f : FS) :
  (∀ k fm data, (0 < k ≤ length todo)%nat →
     lookup_node f (pre ++ take k todo) ≠ Some (File fm data)) →
  ∃ f', mkdir_from pre todo m f = inr f'.
Proof.
  revert pre f. induction todo as [|c rest IH]; intros pre f Hnofile; [by eexists|].
  simpl.
  assert (∀ f1, (∀ q, (length (pre ++ [c]) < length q)%nat →
                      lookup_node f1 q = lookup_node f q) →
          ∃ f', mkdir_from (pre ++ [c]) rest m f1 = inr f') as Hrec.
  { intros f1 Hsame. apply IH. intros k fm data Hk.
    rewrite Hsame.
    - rewrite <- app_assoc. apply (Hnofile (S k)). simpl. lia.
    - rewrite !length_app, length_take. simpl. lia. }
  destruct (lookup_node f (pre ++ [c])) as [[dm|fm data]|] eqn:Hd.
  - by apply Hrec.
  - exfalso. exact (Hnofile 1%nat fm data ltac:(simpl; lia) Hd).
  - apply Hrec. intros q Hq. apply lookup_set_node_ne. intros <-. lia.
Qed.

Lemma mkdir_from_longer (todo pre : list string) (m : Z) (f f' : FS) (q : list string) :
  mkdir_from pre todo m f = inr f' →
  (length (pre ++ todo) < length q)%nat →
  lookup_node f' q = lookup_node f q.
Proof.
  revert pre f. induction todo as [|c rest IH]; intros pre f E Hq; simpl in E.
  - by inversion E.
  - assert (length ((pre ++ [c]) ++ rest) < length q)%nat as Hq'
      by by rewrite <- app_assoc.
    destruct (lookup_node f (pre ++ [c])) as [[dm|fm data]|]; [eauto|done|].
    rewrite (IH _ _ E Hq'). apply lookup_set_node_ne. intros <-.
    rewrite !length_app in Hq. simpl in Hq. lia.
Qed.

Section TokenStoreWritable.
Context `{JsonCodec}.
Variable filePath : list string.

(** On the file system of this development, where directories let their
    owner through, a [save] returns whenever no regular file stands where a
    directory is needed and the target is free or a file its owner may
    write. *)
Lemma save_succeeds (t : TokenData) (w : World) :
  filePath ≠ [] →
  (∀ k fm data, (0 < k ≤ length (dirname filePath))%nat →
     lookup_node (fs w) (take k (dirname filePath)) ≠ Some (File fm data)) →
  (lookup_node (fs w) filePath = None ∨
   ∃ fm data, lookup_node (fs w) filePath = Some (File fm data) ∧
              owner_can_write fm = true) →
  ∃ w', TokenStore.save filePath t w = (Ok (), w').
Proof.
  intros Hne Hdirs Htarget.
  destruct (mkdir_from_succeeds (dirname filePath) [] mode_0o700 (fs w) Hdirs)
    as [f1 Hmk].
  assert (lookup_node f1 filePath = lookup_node (fs w) filePath) as Hsame.
  { apply (mkdir_from_longer _ _ _ _ _ _ Hmk). simpl.
    destruct (dirname_snoc _ Hne) as [c Hc]. rewrite Hc at 2.
    rewrite length_app. simpl. lia. }
  destruct (mkdir_from_is_dir _ [] _ _ _ Hmk) as [dm Hdir]; [by eexists|].
  simpl in Hdir.
  assert (∃ fm, fs_writeFile filePath (JSON_stringify (TokenData_to_json t))
                  mode_0o600 f1
                = inr (set_node filePath
                         (File fm (JSON_stringify (TokenData_to_json t))) f1))
    as [fm Hwr].
  { unfold fs_writeFile. destruct filePath as [|c p] eqn:Hp; [done|].
    rewrite <- Hp in *. rewrite Hdir, Hsame.
    destruct Htarget as [->|(fm & data & -> & ->)]; eauto. }
  eexists. unfold TokenStore.save, mkdir_recursive, writeFile, chmod.
  rewrite bind_run. unfold fs_call at 1. unfold fs_mkdir_recursive. rewrite Hmk.
  rewrite bind_run. unfold fs_call at 1. simpl fs. rewrite Hwr.
  unfold fs_call. simpl fs. unfold fs_chmod.
  destruct filePath as [|c p] eqn:Hp; [done|]. rewrite <- Hp in *.
  rewrite lookup_set_node_eq by done. reflexivity.
Qed.
End TokenStoreWritable.

(* ===================================================================== *)
(** * MiniJson reads back the tokens it prints *)
(* ===================================================================== *)

Module MiniJsonFacts.
Import MiniJson.

(** Strings *)
Lemma parse_chars_escape_char (c : ascii) (rest : string) :
  parse_chars (escape_char c +:+ rest) =
  match parse_chars rest with
  | Some (str, r) => Some (String c str, r)
  | None => None
  end.
Proof.
  destruct c as [[] [] [] [] [] [] [] []]; reflexivity.
Qed.

Lemma parse_chars_escape (s rest : string) :
  parse_chars (escape s +:+ String dquote rest) = Some (s, rest).
Proof.
  induction s as [|c s IH]; [reflexivity|].
  simpl escape. rewrite append_assoc, parse_chars_escape_char, IH. reflexivity.
Qed.

(** Numbers *)
Lemma digit_value_pretty_char (d : N) :
  (d < 10)%N → digit_value (pretty_N_char d) = Some (Z.of_N d).
Proof.
  intros Hd.
  assert (d = 0 ∨ d = 1 ∨ d = 2 ∨ d = 3 ∨ d = 4 ∨ d = 5 ∨ d = 6 ∨ d = 7 ∨ d = 8 ∨ d = 9)%N
    as Hcases by lia.
  repeat (destruct Hcases as [->|Hcases]; [reflexivity|]). by subst.
Qed.

Lemma pretty_N_go_app (x : N) (s t : string) :
  pretty_N_go x s +:+ t = pretty_N_go x (s +:+ t).
Proof.
  revert s. induction (N.lt_wf_0 x) as [x _ IH]. intros s.
  destruct (decide (x = 0)%N) as [->|Hx]; [by rewrite !pretty_N_go_0|].
  rewrite (pretty_N_go_step x s), (pretty_N_go_step x (s +:+ t)) by lia.
  rewrite IH by (apply N.div_lt; lia). by rewrite append_String.
Qed.

Lemma parse_digits_pretty (x : N) (acc : Z) (s : string) :
  (0 < x)%N →
  ∃ k, 0 ≤ k ∧ parse_digits acc (pretty_N_go x s) = parse_digits (acc * 10 ^ k + Z.of_N x) s.
Proof.
  revert acc s. induction (N.lt_wf_0 x) as [x _ IH]. intros acc s Hx.
  rewrite pretty_N_go_step by done.
  assert (Hmod : (x `mod` 10 < 10)%N) by (apply N.mod_lt; lia).
  pose proof (N.div_mod x 10 ltac:(lia)) as Hdm.
  destruct (decide (x `div` 10 = 0)%N) as [Hq|Hq].
  - rewrite Hq, pretty_N_go_0. exists 1. split; [lia|].
    simpl parse_digits. rewrite digit_value_pretty_char by done.
    f_equal. lia.
  - destruct (IH (x `div` 10)%N ltac:(apply N.div_lt; lia) acc
                (String (pretty_N_char (x `mod` 10)) s) ltac:(lia)) as (k & Hk & ->).
    exists (k + 1). split; [lia|].
    simpl parse_digits. rewrite digit_value_pretty_char by done.
    f_equal. rewrite Z.pow_add_r by lia. lia.
Qed.

Lemma pretty_N_go_head (x : N) (s : string) :
  (0 < x)%N →
  ∃ c tl d, pretty_N_go x s = String c tl ∧ digit_value c = Some d ∧ 0 < d.
Proof.
  revert s. induction (N.lt_wf_0 x) as [x _ IH]. intros s Hx.
  rewrite pretty_N_go_step by done.
  assert (Hmod : (x `mod` 10 < 10)%N) by (apply N.mod_lt; lia).
  pose proof (N.div_mod x 10 ltac:(lia)) as Hdm.
  destruct (decide (x `div` 10 = 0)%N) as [Hq|Hq].
  - rewrite Hq, pretty_N_go_0. eexists _, _, _. split; [reflexivity|].
    split; [by apply digit_value_pretty_char|]. lia.
  - apply IH; [apply N.div_lt; lia|lia].
Qed.

Lemma digit_not_minus (c : ascii) (d : Z) :
  digit_value c = Some d → Ascii.eqb c "-" = false.
Proof.
  intros Hd. destruct (Ascii.eqb_spec c "-") as [->|]; [discriminate|done].
Qed.

Lemma parse_digits_stop (acc : Z) (c : ascii) (rest : string) :
  digit_value c = None → parse_digits acc (String c rest) = (acc, String c rest).
Proof. intros Hc. simpl. by rewrite Hc. Qed.

Lemma parse_nat_pretty (p : positive) (c : ascii) (rest : string) :
  digit_value c = None → starts_fraction (String c rest) = false →
  parse_nat (pretty_N_go (N.pos p) "" +:+ String c rest) = Some (Z.pos p, String c rest).
Proof.
  intros Hc Hf. rewrite pretty_N_go_app, append_empty.
  destruct (pretty_N_go_head (N.pos p) (String c rest)) as (c0 & tl & d & Heq & Hd & Hpos);
    [lia|].
  destruct (parse_digits_pretty (N.pos p) 0 (String c rest)) as (k & _ & Hparse); [lia|].
  rewrite Heq in *. unfold parse_nat. rewrite Hd.
  rewrite (proj2 (Z.eqb_neq d 0)) by lia.
  simpl parse_digits in Hparse. rewrite Hd in Hparse.
  replace (10 * 0 + d) with d in Hparse by lia. rewrite Hparse.
  rewrite Hc. cbv beta iota zeta. rewrite Hf. do 2 f_equal.
Qed.

Lemma parse_number_pretty (z : Z) (c : ascii) (rest : string) :
  digit_value c = None → starts_fraction (String c rest) = false →
  parse_number (pretty z +:+ String c rest) = Some (z, String c rest).
Proof.
  intros Hc Hf. unfold pretty, pretty_Z. destruct z as [|p|p].
  - simpl. unfold is_digit. rewrite Hc. simpl in Hf. by rewrite Hf.
  - unfold pretty, pretty_positive, pretty, pretty_N.
    rewrite decide_False by done.
    pose proof (parse_nat_pretty p c rest Hc Hf) as Hn.
    destruct (pretty_N_go_head (N.pos p) "") as (c0 & tl & d & Heq & Hd & _); [lia|].
    rewrite Heq in *. rewrite append_String in *. unfold parse_number.
    by rewrite (digit_not_minus _ _ Hd).
  - unfold pretty, pretty_positive, pretty, pretty_N.
    rewrite decide_False by done. rewrite append_assoc, append_String, append_empty.
    unfold parse_number.
    simpl Ascii.eqb. cbv iota. by rewrite parse_nat_pretty.
Qed.



Lemma digit_not_ws (c : ascii) (d : Z) : digit_value c = Some d → is_ws c = false.
Proof.
  unfold digit_value, is_ws.
  destruct (_ && _)%bool eqn:Hd; [|discriminate]. intros _.
  apply andb_true_iff in Hd as [H1 H2].
  apply N.leb_le in H1. apply N.leb_le in H2.
  rewrite !orb_false_iff, !N.eqb_neq. lia.
Qed.

Lemma digit_is_digit (c : ascii) (d : Z) : digit_value c = Some d → is_digit c = true.
Proof. unfold is_digit. by intros ->. Qed.

(** The first character of a printed integer. *)
Lemma pretty_Z_head (z : Z) (rest : string) :
  ∃ c tl, pretty z +:+ rest = String c tl ∧
          is_ws c = false ∧ (Ascii.eqb c "-" || is_digit c = true).
Proof.
  unfold pretty, pretty_Z. destruct z as [|p|p].
  - eexists _, _. split; [reflexivity|done].
  - unfold pretty, pretty_positive, pretty, pretty_N. rewrite decide_False by done.
    rewrite pretty_N_go_app.
    destruct (pretty_N_go_head (N.pos p) ("" +:+ rest)) as (c & tl & d & -> & Hd & _); [lia|].
    eexists _, _. split; [reflexivity|].
    split; [by eapply digit_not_ws|].
    rewrite (digit_is_digit _ _ Hd). apply orb_true_r.
  - rewrite append_assoc, append_String. eexists _, _. split; [reflexivity|done].
Qed.

Lemma parse_value_string (f : nat) (a rest : string) :
  parse_value (S f) (String " " (String dquote (escape a +:+ String dquote rest)))
  = Some (JStr a, rest).
Proof. simpl. by rewrite parse_chars_escape. Qed.

Lemma parse_value_number (f : nat) (z : Z) (c : ascii) (rest : string) :
  digit_value c = None → starts_fraction (String c rest) = false →
  parse_value (S f) (String " " (pretty z +:+ String c rest))
  = Some (JNum z, String c rest).
Proof.
  intros Hc Hf.
  pose proof (parse_number_pretty z c rest Hc Hf) as Hnum.
  destruct (pretty_Z_head z (String c rest)) as (c0 & tl & Heq & Hws & Hstart).
  rewrite Heq in *. simpl. rewrite Hws, Hstart.
  change (parse_number (String c0 tl)) with (parse_number (String c0 tl)).
  by rewrite Hnum.
Qed.

Lemma parse_members_more (f : nat) (acc : list (string * json))
    (k vtext : string) (v : json) (rest : string) :
  parse_value f vtext = Some (v, String "," rest) →
  parse_members (S f) acc (String "010" (String " " (String " "
       (String dquote (escape k +:+ String dquote (String ":" vtext)))))) = parse_members f (obj_set k v acc) rest.
Proof.
  intros Hv. simpl. rewrite parse_chars_escape. simpl.
  by rewrite Hv.
Qed.

Lemma parse_members_last (f : nat) (acc : list (string * json))
    (k vtext : string) (v : json) (rest : string) :
  parse_value f vtext = Some (v, String "010" (String "}" rest)) →
  parse_members (S f) acc (String "010" (String " " (String " "
       (String dquote (escape k +:+ String dquote (String ":" vtext)))))) = Some (obj_set k v acc, rest).
Proof.
  intros Hv. simpl. rewrite parse_chars_escape. simpl.
  by rewrite Hv.
Qed.

Lemma parse_value_object (f : nat) (k vtext : string) :
  parse_value (S f) (String "{" (String "010" (String " " (String " "
       (String dquote (escape k +:+ String dquote (String ":" vtext))))))) =
  match parse_members f [] (String "010" (String " " (String " "
       (String dquote (escape k +:+ String dquote (String ":" vtext)))))) with
  | Some (props, r) => Some (JObj props, r)
  | None => None
  end.
Proof. reflexivity. Qed.

Ltac norm_append :=
  repeat (rewrite append_assoc || rewrite append_String || rewrite append_empty).

Lemma stringify_token (t : TokenData) :
  ∃ k vtext,
    stringify (TokenData_to_json t) = String "{" (String "010" (String " " (String " "
       (String dquote (escape k +:+ String dquote (String ":" vtext)))))) ∧
    ∀ f, parse_value (S (S (S (S (S (S f)))))) (String "{" (String "010" (String " " (String " "
       (String dquote (escape k +:+ String dquote (String ":" vtext)))))))
         = Some (TokenData_to_json t, "").
Proof.
  destruct t as [a r e s].
  cbv [stringify stringify_at TokenData_to_json join spaces Nat.mul Nat.add
       access_token refresh_token expires_at scope quote newline].
  norm_append.
  do 2 eexists. split; [reflexivity|]. intros f.
  rewrite parse_value_object.
  erewrite parse_members_more by apply parse_value_string.
  erewrite parse_members_more by apply parse_value_string.
  erewrite parse_members_more by (by apply parse_value_number).
  erewrite parse_members_last by apply parse_value_string.
  reflexivity.
Qed.

Lemma parse_stringify_token (t : TokenData) :
  parse (stringify (TokenData_to_json t)) = Some (TokenData_to_json t).
Proof.
  destruct (stringify_token t) as (k & vtext & -> & Hparse).
  unfold parse. simpl String.length. by rewrite Hparse.
Qed.
End MiniJsonFacts.

Lemma MiniJson_reads_back (t : TokenData) :
  @JSON_parse MiniJson.codec (@JSON_stringify MiniJson.codec (TokenData_to_json t))
  = Some (TokenData_to_json t).
Proof. apply MiniJsonFacts.parse_stringify_token. Qed.

(* ===================================================================== *)
(** * The credential store *)
(* ===================================================================== *)

(** Claim C7. [isExpired(t)] is false for every token whose [expires_at]
    lies strictly more than 60000 ms after the current instant, and true
    for every token whose [expires_at] is at or before the current instant
    plus 60000 ms. *)
Theorem isExpired_sixty_second_margin (t : TokenData) (w : World) :
  (clock w + 60000 < expires_at t → TokenStore.isExpired t w = (Ok false, w)) ∧
  (expires_at t ≤ clock w + 60000 → TokenStore.isExpired t w = (Ok true, w)).
Proof.
  rewrite isExpired_run. unfold EXPIRY_BUFFER_MS. split; intros Hlt; do 2 f_equal.
  - apply Z.leb_gt. lia.
  - apply Z.leb_le. lia.
Qed.

Lemma isExpired_sixty_second_margin_witness :
  TokenStore.isExpired Scenario.validTokens Scenario.blank = (Ok false, Scenario.blank) ∧
  TokenStore.isExpired
    (mkTokenData "soon" "soon-refresh" (Scenario.now + 60000) "test") Scenario.blank
  = (Ok true, Scenario.blank).
Proof.
  split.
  - apply (proj1 (isExpired_sixty_second_margin _ _)). by vm_compute.
  - apply (proj2 (isExpired_sixty_second_margin _ _)). by vm_compute.
Defined.

(** Both revisions of the store share the expiry test. *)
Lemma isExpired_same (t : TokenData) :
  TokenStorePlain.isExpired t = TokenStore.isExpired t.
Proof. reflexivity. Qed.

(** What a [save_value] that returns leaves in the token file. *)
Lemma save_value_file `{JsonCodec} (filePath : list string) (v : TokenValue)
    (w w' : World) :
  TokenStore.save_value filePath v w = (Ok (), w') →
  lookup_node (fs w') filePath =
    Some (File mode_0o600 (JSON_stringify (TokenValue_to_json v))).
Proof.
  unfold TokenStore.save_value, mkdir_recursive, writeFile, chmod.
  rewrite bind_run. unfold fs_call at 1.
  destruct (fs_mkdir_recursive _ _ (fs w)) as [e|f1] eqn:E1; [discriminate|].
  rewrite bind_run. unfold fs_call at 1. simpl fs.
  destruct (fs_writeFile _ _ _ f1) as [e|f2] eqn:E2; [discriminate|].
  unfold fs_call. simpl fs.
  destruct (fs_chmod _ _ f2) as [e|f3] eqn:E3; [discriminate|].
  intros [= <-]. simpl fs.
  apply writeFile_inv in E2 as (Hne & _ & fm & -> & _).
  eapply chmod_file in E3; [|by apply lookup_set_node_eq|done]. subst f3.
  by apply lookup_set_node_eq.
Qed.

(** On the tokens with an integer [expires_at], [save_value] is [save]. *)
Lemma save_value_of_TokenData `{JsonCodec} (filePath : list string) (t : TokenData) :
  TokenStore.save_value filePath (of_TokenData t) = TokenStore.save filePath t.
Proof. reflexivity. Qed.

(** Claim C8, as it holds. Let [save(t)] return, and let [JSON.parse] read
    back what [JSON.stringify] printed for [t]. Then [load()] on the same
    path gives a token equal to [t] when the [expires_at] of [t] is an
    integer, and [null] when it is [NaN] or an infinity: the file then
    holds [null] in its place, which the shape check of [load] refuses. *)
Theorem save_load_round_trip_by_expiry `{JsonCodec} (filePath : list string)
    (t : TokenValue) (w w' : World) :
  JSON_parse (JSON_stringify (TokenValue_to_json t)) = Some (TokenValue_to_json t) →
  TokenStore.save_value filePath t w = (Ok (), w') →
  TokenStore.load filePath w' =
    (Ok (match tv_expires_at t with
         | Integer n =>
             Some (mkTokenData (tv_access_token t) (tv_refresh_token t) n (tv_scope t))
         | NaN | PosInfinity | NegInfinity => None
         end), w').
Proof.
  intros Hcodec Hsave. rewrite load_run. do 2 f_equal.
  unfold loaded, fs_readFile. rewrite (save_value_file filePath t w w' Hsave).
  change (owner_can_read mode_0o600) with true. cbv iota.
  rewrite Hcodec. destruct t as [a r [n| | |] s]; reflexivity.
Qed.

Lemma save_load_round_trip_by_expiry_witness :
  @TokenStore.load MiniJson.codec Scenario.filePath
    (Scenario.holding Scenario.validTokens Scenario.blank)
  = (Ok (Some Scenario.validTokens), Scenario.holding Scenario.validTokens Scenario.blank).
Proof.
  apply (@save_load_round_trip_by_expiry MiniJson.codec Scenario.filePath
           (of_TokenData Scenario.validTokens) Scenario.blank).
  - vm_compute. reflexivity.
  - vm_compute. reflexivity.
Defined.

(** Claim C8, refuted as it stands: a token whose [expires_at] is [NaN] is
    saved, and [load()] then returns [null]. *)
Lemma save_load_round_trip_loses_NaN :
  ∃ w',
    @TokenStore.save_value MiniJson.codec Scenario.filePath Scenario.undatedTokens
      Scenario.blank = (Ok (), w') ∧
    @TokenStore.load MiniJson.codec Scenario.filePath w' = (Ok None, w').
Proof. eexists. split; vm_compute; reflexivity. Qed.

Example undated_token_on_disk :
  lookup_node
    (fs (@TokenStore.save_value MiniJson.codec Scenario.filePath Scenario.undatedTokens
           Scenario.blank).2) Scenario.filePath
  = Some (File mode_0o600
            (@JSON_stringify MiniJson.codec
               (JObj [ ("access_token", JStr "test-access-token");
                       ("refresh_token", JStr "test-refresh-token");
                       ("expires_at", JNull);
                       ("scope", JStr "test") ]))).
Proof. vm_compute. reflexivity. Qed.

(** The validating [load] never throws; a file that is missing or
    unreadable, that is not JSON, or whose document has another shape than
    a token, loads as absent. *)
Theorem load_absent `{JsonCodec} (filePath : list string) (w : World) :
  (∃ r, TokenStore.load filePath w = (Ok r, w)) ∧
  (∀ e, fs_readFile filePath (fs w) = inl e →
        TokenStore.load filePath w = (Ok None, w)) ∧
  (∀ data, fs_readFile filePath (fs w) = inr data → JSON_parse data = None →
           TokenStore.load filePath w = (Ok None, w)) ∧
  (∀ data v, fs_readFile filePath (fs w) = inr data → JSON_parse data = Some v →
             isValidTokenData v = false →
             TokenStore.load filePath w = (Ok None, w)).
Proof.
  rewrite load_run. unfold loaded. split; [eauto|].
  split; [by intros e ->|].
  split; [by intros data -> ->|].
  by intros data v -> -> ->.
Qed.

(** Claim C5, on the revision of [load] that skips validation: a token
    file whose JSON document has another shape than a token is returned to
    the caller as if it were one, instead of loading as absent. *)
Theorem plain_load_returns_any_document `{JsonCodec} (filePath : list string)
    (w : World) (data : string) (v : json) :
  fs_readFile filePath (fs w) = inr data →
  JSON_parse data = Some v →
  isValidTokenData v = false →
  v ≠ JNull →
  TokenStorePlain.load filePath w = (Ok (Some v), w).
Proof.
  intros Hread Hparse _ Hnull.
  unfold TokenStorePlain.load. rewrite try_catch_run, bind_run.
  unfold readFile. rewrite Hread, Hparse. by destruct v.
Qed.

Lemma plain_load_returns_any_document_witness :
  @TokenStorePlain.load MiniJson.codec Scenario.filePath Scenario.loose
  = (Ok (Some (JObj [])), Scenario.loose).
Proof.
  apply (@plain_load_returns_any_document MiniJson.codec Scenario.filePath
           Scenario.loose "{}" (JObj [])).
  - vm_compute. reflexivity.
  - vm_compute. reflexivity.
  - vm_compute. reflexivity.
  - discriminate.
Defined.

(** On the same file the validating revision answers absent. *)
Example load_rejects_empty_object :
  @TokenStore.load MiniJson.codec Scenario.filePath Scenario.loose
  = (Ok None, Scenario.loose).
Proof. vm_compute. reflexivity. Qed.

(** The file mode after the [save] that calls [chmod]: 0o600 whatever the
    mode before, and a directory that had to be created is closed to group
    and others (it is 0o700 exactly unless the umask masks owner bits). *)
Theorem save_enforces_modes `{JsonCodec} (filePath : list string)
    (t : TokenData) (w w' : World) :
  TokenStore.save filePath t w = (Ok (), w') →
  lookup_node (fs w') filePath =
    Some (File mode_0o600 (JSON_stringify (TokenData_to_json t))) ∧
  (lookup_node (fs w) (dirname filePath) = None →
   ∃ dm, lookup_node (fs w') (dirname filePath) = Some (Dir dm) ∧
         Z.land dm mode_0o077 = 0 ∧
         (Z.land (umask (fs w)) mode_0o700 = 0 → dm = mode_0o700)).
Proof.
  intros (Hfile & _ & Hdir)%save_result. split; [exact Hfile|].
  intros Hnone. eexists. split; [by apply Hdir|].
  split; [apply created_mode_restricted|apply created_mode_exact].
Qed.

Lemma save_enforces_modes_witness :
  lookup_node (fs (@TokenStore.save MiniJson.codec Scenario.filePath
                     Scenario.validTokens Scenario.loose).2) Scenario.filePath
  = Some (File mode_0o600 (MiniJson.stringify (TokenData_to_json Scenario.validTokens))).
Proof.
  eapply (@save_enforces_modes MiniJson.codec Scenario.filePath Scenario.validTokens
            Scenario.loose).
  vm_compute. reflexivity.
Defined.

Example save_creates_private_directory :
  lookup_node (fs (Scenario.holding Scenario.validTokens Scenario.blank))
              (dirname Scenario.filePath)
  = Some (Dir mode_0o700).
Proof. vm_compute. reflexivity. Qed.

(** Claim C6, on the revision of [save] without [chmod]: a token file that
    already exists keeps the mode it had, so a file left with looser
    permissions is not brought to 0o600 by saving. *)
Theorem plain_save_keeps_mode `{JsonCodec} (filePath : list string)
    (t : TokenData) (w w' : World) (m : Z) (old : string) :
  lookup_node (fs w) filePath = Some (File m old) →
  TokenStorePlain.save filePath t w = (Ok (), w') →
  lookup_node (fs w') filePath =
    Some (File m (JSON_stringify (TokenData_to_json t))).
Proof.
  intros Hold (f1 & f2 & Hmk & Hwr & ->)%save_plain_inv. simpl fs.
  apply (mkdir_from_keeps _ _ _ _ _ _ _ Hmk) in Hold.
  apply writeFile_inv in Hwr as (Hne & _ & fm & -> & Hfm).
  rewrite Hold in Hfm. destruct Hfm as [-> _].
  by apply lookup_set_node_eq.
Qed.

Lemma plain_save_keeps_mode_witness :
  lookup_node (fs (@TokenStorePlain.save MiniJson.codec Scenario.filePath
                     Scenario.validTokens Scenario.loose).2) Scenario.filePath
  = Some (File 420 (MiniJson.stringify (TokenData_to_json Scenario.validTokens))).
Proof.
  apply (@plain_save_keeps_mode MiniJson.codec Scenario.filePath Scenario.validTokens
           Scenario.loose _ 420 "{}").
  - vm_compute. reflexivity.
  - vm_compute. reflexivity.
Defined.

(* ===================================================================== *)
(** * The credential manager *)
(* ===================================================================== *)

(** Claim C9. When the store holds a token that [isExpired] reports as not
    expired, [getValidToken()] returns that token and leaves the world as
    it found it: no request to the token endpoint, no listener, no
    browser, no write to the store. *)
Theorem getValidToken_returns_fresh_token `{JsonCodec} (filePath : list string)
    (config : OAuthConfig) (t : TokenData) (w : World) :
  TokenStore.load filePath w = (Ok (Some t), w) →
  TokenStore.isExpired t w = (Ok false, w) →
  authManager_getValidToken filePath config w = (Ok t, w).
Proof.
  intros Hload Hfresh.
  exact (getValidToken_fresh (tokenStore filePath) (oauthClient config) t w w w
           Hload Hfresh).
Qed.

Lemma getValidToken_returns_fresh_token_witness :
  @authManager_getValidToken MiniJson.codec Scenario.filePath Scenario.config
    (set_responses [Scenario.granted] (Scenario.holding Scenario.validTokens Scenario.blank))
  = (Ok Scenario.validTokens,
     set_responses [Scenario.granted] (Scenario.holding Scenario.validTokens Scenario.blank)).
Proof.
  apply (@getValidToken_returns_fresh_token MiniJson.codec).
  - vm_compute. reflexivity.
  - vm_compute. reflexivity.
Defined.

(** Claim C1. For every stored token that is expired, when [refreshToken]
    fails with whatever error, [getValidToken()] catches it: the store is
    as it was (the old token still loads), the call continues as the
    interactive flow, and what that flow returns is saved and returned. *)
Theorem getValidToken_refresh_failure_falls_back `{JsonCodec}
    (filePath : list string) (config : OAuthConfig)
    (t : TokenData) (e : Error) (w w' : World) :
  TokenStore.load filePath w = (Ok (Some t), w) →
  TokenStore.isExpired t w = (Ok true, w) →
  OAuthClient.refreshToken config (refresh_token t) w = (Throw e, w') →
  let w_auth := emit (ConsoleError refresh_failed_message) w' in
  fs w_auth = fs w ∧
  TokenStore.load filePath w_auth = (Ok (Some t), w_auth) ∧
  authManager_getValidToken filePath config w =
    authManager_doInteractiveAuth filePath config w_auth ∧
  (∀ t' w1 w2,
     OAuthClient.authorize config OAuthClient.DEFAULT_PORT w_auth = (Ok t', w1) →
     TokenStore.save filePath t' w1 = (Ok (), w2) →
     authManager_getValidToken filePath config w = (Ok t', w2) ∧
     lookup_node (fs w2) filePath =
       Some (File mode_0o600 (JSON_stringify (TokenData_to_json t')))).
Proof.
  intros Hload Hexp Hrefresh w_auth.
  pose proof (refreshToken_frame _ _ _ _ _ Hrefresh) as (Hfs & _).
  assert (authManager_getValidToken filePath config w =
          authManager_doInteractiveAuth filePath config w_auth) as Hfall
    by exact (getValidToken_refresh_rejected (tokenStore filePath) (oauthClient config)
                t e w w w w' Hload Hexp Hrefresh).
  split; [exact Hfs|]. split.
  - rewrite load_run in *. subst w_auth. simpl fs. rewrite Hfs. congruence.
  - split; [exact Hfall|]. intros t' w1 w2 Hauth Hsave. split.
    + rewrite Hfall.
      exact (doInteractiveAuth_ok (tokenStore filePath) (oauthClient config)
               t' w_auth w1 w2 Hauth Hsave).
    + by apply save_result in Hsave as (Hfile & _).
Qed.

Lemma getValidToken_refresh_failure_falls_back_witness :
  ∃ w_final,
    @authManager_getValidToken MiniJson.codec Scenario.filePath Scenario.config
      Scenario.offline_then_granted
    = (Ok (mkTokenData "new-access" "new-refresh" (Scenario.now + 5000 + 3600000) "test"),
       w_final) ∧
    lookup_node (fs w_final) Scenario.filePath
    = Some (File mode_0o600
              (MiniJson.stringify
                 (TokenData_to_json
                    (mkTokenData "new-access" "new-refresh"
                       (Scenario.now + 5000 + 3600000) "test")))).
Proof.
  eexists.
  eapply (@getValidToken_refresh_failure_falls_back MiniJson.codec
            Scenario.filePath Scenario.config Scenario.expiredTokens
            (TypeError "fetch failed") Scenario.offline_then_granted).
  - vm_compute. reflexivity.
  - vm_compute. reflexivity.
  - vm_compute. reflexivity.
  - vm_compute. reflexivity.
  - vm_compute. reflexivity.
Defined.

(** Claim C10. For a store holding a token that is expired,
    [getAuthStatus()] answers [authenticated: false] together with the
    token's own [expires_at] and [scope]; and whatever the store holds, it
    answers, with [expiresAt] or [scope] null exactly when no token loads. *)
Theorem getAuthStatus_expired_keeps_details `{JsonCodec} (filePath : list string)
    (w : World) :
  (∀ t, TokenStore.load filePath w = (Ok (Some t), w) →
        TokenStore.isExpired t w = (Ok true, w) →
        authManager_getAuthStatus filePath w =
          (Ok (mkAuthStatus false (Some (expires_at t)) (Some (scope t))), w)) ∧
  (∃ st, authManager_getAuthStatus filePath w = (Ok st, w) ∧
         (expiresAt st = None ↔ TokenStore.load filePath w = (Ok None, w)) ∧
         (status_scope st = None ↔ TokenStore.load filePath w = (Ok None, w))).
Proof.
  unfold authManager_getAuthStatus, AuthManager.getAuthStatus. simpl load.
  rewrite bind_run, load_run. split.
  - intros t [= ->] Hexp. rewrite bind_run. simpl isExpired. by rewrite Hexp.
  - destruct (loaded filePath (fs w)) as [t|].
    + rewrite bind_run. simpl isExpired. rewrite isExpired_run.
      eexists. split; [reflexivity|]. by split.
    + eexists. split; [reflexivity|]. by split.
Qed.

Lemma getAuthStatus_expired_keeps_details_witness :
  @authManager_getAuthStatus MiniJson.codec Scenario.filePath
    (Scenario.holding Scenario.expiredTokens Scenario.blank)
  = (Ok (mkAuthStatus false (Some (Scenario.now - 1000)) (Some "test")),
     Scenario.holding Scenario.expiredTokens Scenario.blank).
Proof.
  apply (proj1 (@getAuthStatus_expired_keeps_details MiniJson.codec Scenario.filePath
                  (Scenario.holding Scenario.expiredTokens Scenario.blank))
           Scenario.expiredTokens).
  - vm_compute. reflexivity.
  - vm_compute. reflexivity.
Defined.

Example getAuthStatus_without_token :
  @authManager_getAuthStatus MiniJson.codec Scenario.filePath Scenario.blank
  = (Ok (mkAuthStatus false None None), Scenario.blank).
Proof. vm_compute. reflexivity. Qed.

(* ===================================================================== *)
(** * The interactive flow and its listener *)
(* ===================================================================== *)

(** The listener started with an expected state, on a first callback whose
    state differs: rejected with the state mismatch (with the denial when
    the callback carries an error), never resolved, even with a code. *)
Theorem checked_listener_rejects_foreign_state (port : Z) (st : string) (w : World)
    (dt : N) (req : Request) (rest : list (N * Request)) :
  port ∉ listening w →
  inbound w = (dt, req) :: rest →
  Z.of_N dt < CallbackServer.CALLBACK_TIMEOUT_MS →
  pathname req = "/callback" →
  searchParams_get "state" req ≠ Some st →
  ∃ e w',
    CallbackServer.waitForCallback port st w = (Throw e, w') ∧
    (port ∉ listening w') ∧
    (e = CallbackServer.state_mismatch ∨ e = CallbackServer.denied) ∧
    (truthy (searchParams_get "error" req) = None → e = CallbackServer.state_mismatch).
Proof.
  intros Hfree Hin Hdt Hp Hs.
  destruct (waitForCallback_wrong_state port st w dt req rest Hfree Hin Hdt Hp Hs)
    as (w' & Hw & Hfree').
  eexists _, w'. split; [exact Hw|]. split; [exact Hfree'|].
  destruct (truthy (searchParams_get "error" req)); split; auto; discriminate.
Qed.

Lemma checked_listener_rejects_foreign_state_witness :
  ∃ e w',
    CallbackServer.waitForCallback 3456 Scenario.nonce Scenario.forged = (Throw e, w') ∧
    (3456 ∉ listening w') ∧
    (e = CallbackServer.state_mismatch ∨ e = CallbackServer.denied) ∧
    (truthy (searchParams_get "error"
               (Scenario.callback [("code", "stolen-code"); ("state", "attacker-state")]))
       = None →
     e = CallbackServer.state_mismatch).
Proof.
  apply (checked_listener_rejects_foreign_state 3456 Scenario.nonce Scenario.forged
           5000%N
           (Scenario.callback [("code", "stolen-code"); ("state", "attacker-state")]) []).
  - vm_compute. set_solver.
  - reflexivity.
  - by vm_compute.
  - reflexivity.
  - vm_compute. discriminate.
Defined.

Example checked_listener_on_forged_callback :
  (CallbackServer.waitForCallback 3456 Scenario.nonce Scenario.forged).1
  = Throw CallbackServer.state_mismatch.
Proof. vm_compute. reflexivity. Qed.

(** Claim C2, on the listener [authorize] starts: a callback whose [state]
    differs from the nonce of the flow resolves the listener with its
    code, and [authorize] goes on to exchange that code. *)
Theorem authorize_accepts_foreign_state (config : OAuthConfig) (port : Z) (w : World)
    (nonce : string) (more : list string)
    (dt : N) (req : Request) (rest : list (N * Request)) (code : string) :
  port ∉ listening w →
  entropy w = nonce :: more →
  inbound w = (dt, req) :: rest →
  pathname req = "/callback" →
  searchParams_get "state" req ≠ Some nonce →
  truthy (searchParams_get "error" req) = None →
  truthy (searchParams_get "code" req) = Some code →
  ∃ w',
    OAuthClient.authorize config port w = OAuthClient.exchangeCode config code w' ∧
    responses w' = responses w.
Proof.
  intros Hfree _ Hin Hp _ He Hc.
  destruct (authorize_resolves config port w dt req rest code Hfree Hin Hp He Hc)
    as (w' & Hw & _ & _ & _ & Hr).
  by exists w'.
Qed.

Lemma authorize_accepts_foreign_state_witness :
  ∃ w',
    OAuthClient.authorize Scenario.config 3456 Scenario.forged
    = OAuthClient.exchangeCode Scenario.config "stolen-code" w' ∧
    responses w' = responses Scenario.forged.
Proof.
  apply (authorize_accepts_foreign_state Scenario.config 3456 Scenario.forged
           Scenario.nonce [] 5000%N
           (Scenario.callback [("code", "stolen-code"); ("state", "attacker-state")]) []).
  - vm_compute. set_solver.
  - reflexivity.
  - reflexivity.
  - reflexivity.
  - vm_compute. discriminate.
  - reflexivity.
  - reflexivity.
Defined.

Example authorize_on_forged_callback :
  (OAuthClient.authorize Scenario.config 3456 Scenario.forged).1
  = Ok (mkTokenData "new-access" "new-refresh" (Scenario.now + 5000 + 3600000) "test").
Proof. vm_compute. reflexivity. Qed.

(** Claim C3, on [authorize] as it runs: when the callback carries an
    error, [authorize] propagates the rejection while the port of its
    listener is still bound. *)
Theorem authorize_denied_leaves_port_bound (config : OAuthConfig) (port : Z) (w : World)
    (dt : N) (req : Request) (rest : list (N * Request)) (error : string) :
  port ∉ listening w →
  inbound w = (dt, req) :: rest →
  pathname req = "/callback" →
  truthy (searchParams_get "error" req) = Some error →
  ∃ w',
    OAuthClient.authorize config port w =
      (Throw (CallbackServerPlain.oauth_error error), w') ∧
    port ∈ listening w'.
Proof.
  intros Hfree Hin Hp He.
  destruct (authorize_after_prelude config port w)
    as (w1 & _ & Hf & Hcl & Hl & Hi & Hr & ->).
  erewrite bind_throw;
    [|apply (waitForCallback_plain_error port w1 dt req rest error); congruence].
  eexists. split; [reflexivity|]. simpl. set_solver.
Qed.

Lemma authorize_denied_leaves_port_bound_witness :
  ∃ w',
    OAuthClient.authorize Scenario.config 3456 Scenario.refused
    = (Throw (JsError "OAuth error: access_denied"), w') ∧
    3456 ∈ listening w'.
Proof.
  apply (authorize_denied_leaves_port_bound Scenario.config 3456 Scenario.refused
           5000%N (Scenario.callback [("error", "access_denied")]) [] "access_denied").
  - vm_compute. set_solver.
  - reflexivity.
  - reflexivity.
  - reflexivity.
Defined.

(** A second attempt after a denial cannot bind the port. *)
Example authorize_after_denial :
  (OAuthClient.authorize Scenario.config 3456
     (OAuthClient.authorize Scenario.config 3456 Scenario.refused).2).1
  = Throw (SystemError "EADDRINUSE").
Proof. vm_compute. reflexivity. Qed.

(** On the paths where [authorize] gets a code, the server is closed
    before the exchange, whatever the exchange then does. *)
Theorem authorize_closes_before_exchange (config : OAuthConfig) (port : Z) (w : World)
    (dt : N) (req : Request) (rest : list (N * Request)) (code : string) :
  port ∉ listening w →
  inbound w = (dt, req) :: rest →
  pathname req = "/callback" →
  truthy (searchParams_get "error" req) = None →
  truthy (searchParams_get "code" req) = Some code →
  ∀ r w', OAuthClient.authorize config port w = (r, w') → port ∉ listening w'.
Proof.
  intros Hfree Hin Hp He Hc r w' Hrun.
  destruct (authorize_resolves config port w dt req rest code Hfree Hin Hp He Hc)
    as (w1 & Hw & Hclosed & _).
  rewrite Hw in Hrun. apply exchangeCode_frame in Hrun as (_ & _ & ->). exact Hclosed.
Qed.

Lemma authorize_closes_before_exchange_witness :
  3456 ∉ listening (OAuthClient.authorize Scenario.config 3456 Scenario.forged).2.
Proof.
  apply (authorize_closes_before_exchange Scenario.config 3456 Scenario.forged 5000%N
           (Scenario.callback [("code", "stolen-code"); ("state", "attacker-state")]) []
           "stolen-code")
    with (r := (OAuthClient.authorize Scenario.config 3456 Scenario.forged).1).
  - vm_compute. set_solver.
  - reflexivity.
  - reflexivity.
  - reflexivity.
  - reflexivity.
  - apply surjective_pairing.
Defined.

(** After the timeout the port can be bound again: a second listener on
    the same port takes the consent that comes then. *)
Example checked_listener_after_timeout :
  (CallbackServer.waitForCallback 3456 Scenario.nonce
     (CallbackServer.waitForCallback 3456 Scenario.nonce Scenario.late).2).1
  = Ok ("late-code", 3456).
Proof. vm_compute. reflexivity. Qed.

(** Claim C4, on [authorize] as it runs: its listener arms no timer. While
    no callback with a code or an error arrives, [authorize] does not
    return and the port stays bound, however much time passes. *)
Theorem authorize_waits_without_bound (config : OAuthConfig) (port : Z) (w : World) :
  port ∉ listening w →
  Forall (λ ev, settles_plain ev.2 = false) (inbound w) →
  ∃ w',
    OAuthClient.authorize config port w = (Pending, w') ∧
    port ∈ listening w' ∧
    clock w' = clock w + Z.of_N (foldr N.add 0%N (inbound w).*1).
Proof.
  intros Hfree Hq.
  destruct (authorize_after_prelude config port w)
    as (w1 & _ & Hf & Hcl & Hl & Hi & Hr & ->).
  destruct (waitForCallback_plain_pending port w1) as (w' & Hw & Hb & Hc);
    [congruence..|].
  rewrite (bind_pending _ _ _ _ Hw).
  exists w'. split; [reflexivity|]. split; [done|]. rewrite Hc, Hcl, Hi. done.
Qed.

Lemma authorize_waits_without_bound_witness :
  ∃ w',
    OAuthClient.authorize Scenario.config 3456 Scenario.abandoned = (Pending, w') ∧
    3456 ∈ listening w' ∧
    clock w' = Scenario.now + 300000.
Proof.
  apply (authorize_waits_without_bound Scenario.config 3456 Scenario.abandoned).
  - vm_compute. set_solver.
  - repeat constructor.
Defined.

(** A consent that arrives after three minutes is still taken. *)
Example authorize_on_late_callback :
  (OAuthClient.authorize Scenario.config 3456 Scenario.late).1
  = Ok (mkTokenData "new-access" "new-refresh" (Scenario.now + 180000 + 3600000) "test").
Proof. vm_compute. reflexivity. Qed.

(* ===================================================================== *)
(** * Further properties of the protocol client and the manager *)
(* ===================================================================== *)

(** When the refresh succeeds, [getValidToken()] returns the refreshed
    token after one request to the token endpoint and one [save], which
    leaves that token in the file; no listener is started. *)
Theorem getValidToken_refreshes_expired_token `{JsonCodec}
    (filePath : list string) (config : OAuthConfig)
    (t t' : TokenData) (w w1 w2 : World) :
  TokenStore.load filePath w = (Ok (Some t), w) →
  TokenStore.isExpired t w = (Ok true, w) →
  OAuthClient.refreshToken config (refresh_token t) w = (Ok t', w1) →
  TokenStore.save filePath t' w1 = (Ok (), w2) →
  authManager_getValidToken filePath config w = (Ok t', w2) ∧
  lookup_node (fs w2) filePath =
    Some (File mode_0o600 (JSON_stringify (TokenData_to_json t'))) ∧
  trace w2 = trace w ++
    [Fetch MF_TOKEN_URL
       (URLSearchParams_toString
          (OAuthClient.buildRefreshRequestBody config (refresh_token t)))] ∧
  listening w2 = listening w.
Proof.
  intros Hload Hexp Hrefresh Hsave. split.
  - exact (getValidToken_refreshed (tokenStore filePath) (oauthClient config)
             t t' w w w w1 w2 Hload Hexp Hrefresh Hsave).
  - pose proof (refreshToken_frame _ _ _ _ _ Hrefresh) as (_ & _ & Hl & _ & Htr).
    pose proof (save_result _ _ _ _ Hsave) as (Hfile & _).
    apply save_inv in Hsave as (f1 & f2 & f3 & _ & _ & _ & ->).
    split; [exact Hfile|]. split; [exact Htr|exact Hl].
Qed.

Lemma getValidToken_refreshes_expired_token_witness :
  ∃ w2,
    @authManager_getValidToken MiniJson.codec Scenario.filePath Scenario.config
      Scenario.refreshable
    = (Ok (mkTokenData "new-access" "new-refresh" (Scenario.now + 3600000) "test"), w2) ∧
    lookup_node (fs w2) Scenario.filePath =
      Some (File mode_0o600
              (MiniJson.stringify
                 (TokenData_to_json
                    (mkTokenData "new-access" "new-refresh" (Scenario.now + 3600000) "test")))) ∧
    trace w2 = trace Scenario.refreshable ++
      [Fetch MF_TOKEN_URL
         (URLSearchParams_toString
            (OAuthClient.buildRefreshRequestBody Scenario.config
               (refresh_token Scenario.expiredTokens)))] ∧
    listening w2 = listening Scenario.refreshable.
Proof.
  eexists.
  eapply (@getValidToken_refreshes_expired_token MiniJson.codec Scenario.filePath
            Scenario.config Scenario.expiredTokens _ Scenario.refreshable).
  - vm_compute. reflexivity.
  - vm_compute. reflexivity.
  - vm_compute. reflexivity.
  - vm_compute. reflexivity.
Defined.

(** [exchangeCode]: an answer outside 200..299 is thrown with its status
    and body; a good answer gives the token with [expires_at] counted from
    the current instant, [expires_in] seconds on, and the scope copied. *)
Theorem exchangeCode_result (config : OAuthConfig) (code : string) (w : World)
    (r : Response) (rest : list FetchResult) :
  responses w = Answer r :: rest →
  let w' := set_responses rest
              (emit (Fetch MF_TOKEN_URL
                       (URLSearchParams_toString
                          (OAuthClient.buildTokenRequestBody config code))) w) in
  (ok r = false →
   OAuthClient.exchangeCode config code w =
     (Throw (JsError ("Token exchange failed (" +:+ pretty (status r) +:+ "): "
                      +:+ body_text r)), w')) ∧
  (∀ j, ok r = true → body_json r = Some j →
   OAuthClient.exchangeCode config code w =
     (Ok (mkTokenData (tr_access_token j) (tr_refresh_token j)
            (clock w + tr_expires_in j * 1000) (tr_scope j)), w')).
Proof.
  intros Hres w'. unfold OAuthClient.exchangeCode. rewrite bind_run.
  unfold fetch. simpl responses. rewrite Hres. fold w'. split.
  - intros ->. reflexivity.
  - intros j -> Hj. cbn [negb]. rewrite bind_run.
    unfold res_json. rewrite Hj. reflexivity.
Qed.

Lemma exchangeCode_result_witness :
  (OAuthClient.exchangeCode Scenario.config "c"
     (set_responses [Scenario.granted] Scenario.blank)).1
  = Ok (mkTokenData "new-access" "new-refresh" (Scenario.now + 3600 * 1000) "test").
Proof.
  pose proof (exchangeCode_result Scenario.config "c"
                (set_responses [Scenario.granted] Scenario.blank)
                (mkResponse 200 "" (Some (mkTokenResponse "new-access" "new-refresh" 3600 "test")))
                [] eq_refl) as [_ Hok].
  by rewrite (Hok _ eq_refl eq_refl).
Defined.

(** ** The error page *)

Lemma escapeHtml_app (a b : string) :
  escapeHtml (a +:+ b) = escapeHtml a +:+ escapeHtml b.
Proof. unfold escapeHtml. by rewrite !replace_all_app. Qed.

Lemma escapeHtml_one (c : ascii) :
  forallb inert (chars (escapeHtml (String c ""))) = true.
Proof. destruct c as [[] [] [] [] [] [] [] []]; reflexivity. Qed.

(** Whatever the [error] parameter holds, its escaped form contains no
    [<], no [>] and no double quote. *)
Theorem escapeHtml_inert (str : string) :
  forallb inert (chars (escapeHtml str)) = true.
Proof.
  induction str as [|c str IH]; [reflexivity|].
  change (String c str) with (String c "" +:+ str).
  by rewrite escapeHtml_app, chars_app, forallb_app, escapeHtml_one, IH.
Qed.

(** The one-argument listener writes the parameter into the page as it
    comes. *)
Example plain_listener_echoes_markup :
  last (trace (CallbackServerPlain.waitForCallback 3456
                 (set_inbound [(1%N, Scenario.callback [("error", "<script>")])]
                    Scenario.blank)).2)
  = Some (HttpReply 400 ("<h1>認証エラー</h1><p>" +:+ "<script>" +:+ "</p>")).
Proof. vm_compute. reflexivity. Qed.

Example checked_listener_escapes_markup :
  last (trace (CallbackServer.waitForCallback 3456 Scenario.nonce
                 (set_inbound [(1%N, Scenario.callback [("error", "<script>")])]
                    Scenario.blank)).2)
  = Some (HttpReply 400 ("<h1>認証エラー</h1><p>" +:+ "&lt;script&gt;" +:+ "</p>")).
Proof. vm_compute. reflexivity. Qed.

(* ===================================================================== *)
(** * The listeners from the request line *)
(* ===================================================================== *)

Lemma onRequest_checked_callback (port : Z) (st : string) (req : Request)
    (due : option Z) (w : World) :
  pathname req = "/callback" →
  CallbackServer.onRequest port st req (mkListener None due, w) =
  match truthy (searchParams_get "error" req) with
  | Some error =>
      (mkListener (Some (Rejected CallbackServer.denied)) None,
       server_close port
         (respond 400 ("<h1>認証エラー</h1><p>" +:+ escapeHtml error +:+ "</p>") w))
  | None =>
      if bool_decide (searchParams_get "state" req ≠ Some st) then
        (mkListener (Some (Rejected CallbackServer.state_mismatch)) None,
         server_close port
           (respond 400 "<h1>エラー</h1><p>不正なstateパラメータです。</p>" w))
      else
        match truthy (searchParams_get "code" req) with
        | Some code =>
            (mkListener (Some (Resolved code)) None, respond 200 html_success w)
        | None => (mkListener None due, respond 404 "Not Found" w)
        end
  end.
Proof.
  intros Hp. unfold CallbackServer.onRequest. rewrite Hp. simpl String.eqb. cbv iota.
  destruct (truthy (searchParams_get "error" req)); [reflexivity|].
  destruct (bool_decide _); [reflexivity|].
  destruct (truthy (searchParams_get "code" req)); reflexivity.
Qed.

Lemma serve_targets_done
    (listener : Target → Listener * World → option (Listener * World))
    (onTimer : Listener * World → Listener * World)
    (evs : list (N * Target)) (l : Listener) (w : World) (s : Settlement) :
  promise l = Some s → serve_targets listener onTimer evs l w = Some (l, w).
Proof. intros Hp. destruct evs; simpl; by rewrite Hp. Qed.

Lemma serve_targets_nil
    (listener : Target → Listener * World → option (Listener * World))
    (onTimer : Listener * World → Listener * World) (l : Listener) (w : World) :
  promise l = None →
  serve_targets listener onTimer [] l w =
  match timer l with
  | Some due => Some (onTimer (clearTimeout l, set_clock (Z.max (clock w) due) w))
  | None => Some (l, w)
  end.
Proof. intros Hp. simpl. by rewrite Hp. Qed.

Lemma serve_targets_cons
    (listener : Target → Listener * World → option (Listener * World))
    (onTimer : Listener * World → Listener * World)
    (dt : N) (url : Target) (rest : list (N * Target)) (l : Listener) (w : World) :
  promise l = None →
  serve_targets listener onTimer ((dt, url) :: rest) l w =
  let t := clock w + Z.of_N dt in
  match (match timer l with
         | Some due => if due <=? t then Some due else None
         | None => None
         end) with
  | Some due => Some (onTimer (clearTimeout l, set_clock (Z.max (clock w) due) w))
  | None =>
      match listener url (l, set_clock t w) with
      | Some (l', w') => serve_targets listener onTimer rest l' w'
      | None => None
      end
  end.
Proof. intros Hp. simpl. by rewrite Hp. Qed.

#[local] Arguments serve_targets : simpl never.

Lemma elapsed_cons (dt : N) (url : Target) (evs : list (N * Target)) :
  elapsed ((dt, url) :: evs) = Z.of_N dt + elapsed evs.
Proof. unfold elapsed. rewrite fmap_cons, foldr_cons. simpl fst. by rewrite N2Z.inj_add. Qed.

Lemma elapsed_nonneg (evs : list (N * Target)) : 0 ≤ elapsed evs.
Proof. unfold elapsed. lia. Qed.

Section RequestLine.
Context `{UrlParser}.

(** A request that passes gets its 404 and changes nothing else. *)
Lemma requestListener_passes (port : Z) (settles : Request → bool)
    (handler : Request → Listener * World → Listener * World)
    (url : Target) (l : Listener) (w : World) :
  (∀ req l w, settles req = false → handler req (l, w) = (l, respond 404 "Not Found" w)) →
  passes port settles url = true →
  requestListener port handler url (l, w) = Some (l, respond 404 "Not Found" w).
Proof.
  intros Hh. unfold passes, requestListener.
  destruct (request_url port url) as [req|]; [|discriminate].
  intros Hs%negb_true_iff. by rewrite Hh.
Qed.

(** Requests that pass only cost their 404 and the time they take, while
    the timer is not due. *)
Lemma serve_targets_prefix (port : Z) (settles : Request → bool)
    (handler : Request → Listener * World → Listener * World)
    (onTimer : Listener * World → Listener * World)
    (pre evs : list (N * Target)) (due : option Z) (w : World) :
  (∀ req l w, settles req = false → handler req (l, w) = (l, respond 404 "Not Found" w)) →
  Forall (λ ev, passes port settles ev.2 = true) pre →
  (∀ d, due = Some d → clock w + elapsed pre < d) →
  ∃ w1,
    serve_targets (requestListener port handler) onTimer (pre ++ evs)
      (mkListener None due) w =
    serve_targets (requestListener port handler) onTimer evs (mkListener None due) w1 ∧
    clock w1 = clock w + elapsed pre ∧ listening w1 = listening w ∧ fs w1 = fs w ∧
    trace w1 = trace w ++ replicate (length pre) (HttpReply 404 "Not Found").
Proof.
  intros Hh. revert w. induction pre as [|[dt url] pre IH]; intros w Hq Hdue.
  - exists w. unfold elapsed. simpl. rewrite app_nil_r. repeat split; lia.
  - apply Forall_cons in Hq as [Hurl Hq]. simpl in Hurl.
    pose proof (elapsed_nonneg pre) as Hnn.
    rewrite <- app_comm_cons, serve_targets_cons by done. simpl timer. cbv beta iota zeta.
    assert (match due with
            | Some d => if d <=? clock w + Z.of_N dt then Some d else None
            | None => None
            end = None) as ->.
    { destruct due as [d|]; [|done].
      specialize (Hdue d eq_refl). rewrite elapsed_cons in Hdue.
      by rewrite (proj2 (Z.leb_gt d (clock w + Z.of_N dt))) by lia. }
    rewrite (requestListener_passes port settles) by done.
    destruct (IH (respond 404 "Not Found" (set_clock (clock w + Z.of_N dt) w)) Hq)
      as (w1 & -> & Hc & Hl & Hf & Ht).
    { intros d Hd. specialize (Hdue d Hd). rewrite elapsed_cons in Hdue. simpl. lia. }
    exists w1. split; [reflexivity|]. rewrite elapsed_cons, Hc, Ht. simpl.
    rewrite <- app_assoc. repeat split; try done. lia.
Qed.

(** The event loop of the checking listener when every request of the
    first two minutes passes. *)
Lemma serve_targets_checked_passing (port : Z) (st : string) (evs : list (N * Target))
    (due : Z) (w : World) :
  clock w ≤ due →
  passing_for port (settles_checked st) (due - clock w) evs = true →
  ∃ w',
    serve_targets (requestListener port (CallbackServer.onRequest port st))
      (CallbackServer.onTimeout port) evs (mkListener None (Some due)) w =
      Some (mkListener (Some (Rejected CallbackServer.timed_out)) None, w') ∧
    clock w' = due ∧ (port ∉ listening w') ∧ fs w' = fs w.
Proof.
  revert w. induction evs as [|[dt url] rest IH]; intros w Hle Hq.
  - rewrite serve_targets_nil by done. simpl. eexists. split; [reflexivity|]. simpl.
    split; [lia|]. split; [apply server_close_frees|done].
  - simpl in Hq. rewrite serve_targets_cons by done. simpl timer. cbv zeta.
    destruct (Z.leb_spec (due - clock w) (Z.of_N dt)) as [Hdue|Hdue].
    + rewrite (proj2 (Z.leb_le due (clock w + Z.of_N dt))) by lia.
      eexists. split; [reflexivity|]. simpl.
      split; [lia|]. split; [apply server_close_frees|done].
    + rewrite (proj2 (Z.leb_gt due (clock w + Z.of_N dt))) by lia.
      apply andb_true_iff in Hq as [Hns Hq].
      rewrite (requestListener_passes port (settles_checked st))
        by (done || apply settles_checked_false).
      destruct (IH (respond 404 "Not Found" (set_clock (clock w + Z.of_N dt) w)))
        as (w' & -> & Hc & Hp & Hfs).
      * simpl. lia.
      * simpl. replace (due - (clock w + Z.of_N dt)) with (due - clock w - Z.of_N dt) by lia.
        exact Hq.
      * eexists. split; [reflexivity|]. done.
Qed.

End RequestLine.

(** The listener with the timer, from the request line: when every request
    of the first two minutes has a target that is a URL and settles
    nothing, the promise is rejected at the two-minute mark with the port
    released. *)
Theorem checked_listener_times_out `{UrlParser} (port : Z) (st : string)
    (evs : list (N * Target)) (w : World) :
  port ∉ listening w →
  passing_for port (settles_checked st) CallbackServer.CALLBACK_TIMEOUT_MS evs = true →
  ∃ w',
    OnTheWire.waitForCallback port st evs w = Some (Throw CallbackServer.timed_out, w') ∧
    clock w' = clock w + CallbackServer.CALLBACK_TIMEOUT_MS ∧
    (port ∉ listening w').
Proof.
  intros Hfree Hq. unfold OnTheWire.waitForCallback.
  rewrite bool_decide_eq_false_2 by done.
  edestruct (serve_targets_checked_passing port st evs
               (clock w + CallbackServer.CALLBACK_TIMEOUT_MS)
               (emit (ConsoleError (listen_message port))
                  (set_listening (port :: listening w) w)))
    as (w' & Hs & Hc & Hp & _).
  - simpl. unfold CallbackServer.CALLBACK_TIMEOUT_MS. lia.
  - simpl. replace (clock w + _ - clock w) with CallbackServer.CALLBACK_TIMEOUT_MS by lia.
    exact Hq.
  - exists w'. cbv zeta. rewrite Hs. done.
Qed.

Lemma checked_listener_times_out_witness :
  ∃ w',
    @OnTheWire.waitForCallback MiniUrl.parser 3456 Scenario.nonce Scenario.overdue
      Scenario.blank = Some (Throw CallbackServer.timed_out, w') ∧
    clock w' = clock Scenario.blank + CallbackServer.CALLBACK_TIMEOUT_MS ∧
    (3456 ∉ listening w').
Proof.
  apply (@checked_listener_times_out MiniUrl.parser 3456 Scenario.nonce Scenario.overdue
           Scenario.blank).
  - vm_compute. set_solver.
  - vm_compute. reflexivity.
Defined.

(** The listener that checks [state], from the request line. Requests whose
    target is a URL and that settle nothing are answered 404 and the wait
    goes on; the first request that settles the promise decides, when it
    arrives before the two minutes are over. *)
Theorem checked_listener_first_settling_request `{UrlParser} (port : Z) (st : string)
    (w : World) (pre : list (N * Target)) (dt : N) (url : Target) (req : Request)
    (rest : list (N * Target)) :
  port ∉ listening w →
  Forall (λ ev, passes port (settles_checked st) ev.2 = true) pre →
  elapsed pre + Z.of_N dt < CallbackServer.CALLBACK_TIMEOUT_MS →
  request_url port url = Some req →
  settles_checked st req = true →
  ∃ r w' reply,
    OnTheWire.waitForCallback port st (pre ++ (dt, url) :: rest) w = Some (r, w') ∧
    clock w' = clock w + elapsed pre + Z.of_N dt ∧
    trace w' = trace w ++ ConsoleError (listen_message port)
                 :: replicate (length pre) (HttpReply 404 "Not Found") ++ [reply] ∧
    match truthy (searchParams_get "error" req) with
    | Some _ => r = Throw CallbackServer.denied ∧ port ∉ listening w'
    | None =>
        if bool_decide (searchParams_get "state" req = Some st) then
          ∃ code, truthy (searchParams_get "code" req) = Some code ∧
                  r = Ok (code, port) ∧ port ∈ listening w' ∧
                  reply = HttpReply 200 html_success
        else r = Throw CallbackServer.state_mismatch ∧ port ∉ listening w'
    end.
Proof.
  intros Hfree Hq Hdue Hurl Hs. unfold OnTheWire.waitForCallback.
  rewrite bool_decide_eq_false_2 by done. cbv zeta.
  pose proof (elapsed_nonneg pre) as Hnn.
  edestruct (serve_targets_prefix port (settles_checked st)
               (CallbackServer.onRequest port st) (CallbackServer.onTimeout port)
               pre ((dt, url) :: rest)
               (Some (clock w + CallbackServer.CALLBACK_TIMEOUT_MS))
               (emit (ConsoleError (listen_message port))
                  (set_listening (port :: listening w) w)))
    as (w1 & Hrun & Hc & Hl & _ & Ht);
    [apply settles_checked_false|exact Hq|intros d [= <-]; simpl; lia|].
  simpl clock in Hrun. rewrite Hrun. clear Hrun.
  simpl in Hc, Hl, Ht.
  rewrite serve_targets_cons by done. simpl timer. cbv beta iota zeta.
  rewrite (proj2 (Z.leb_gt _ _)) by lia.
  unfold requestListener. rewrite Hurl.
  unfold settles_checked in Hs. apply andb_true_iff in Hs as [Hp Hs].
  apply String.eqb_eq in Hp.
  rewrite onRequest_checked_callback by done.
  destruct (truthy (searchParams_get "error" req)) as [error|] eqn:He.
  - erewrite serve_targets_done by reflexivity. simpl.
    eexists _, _, _. split; [reflexivity|]. simpl. rewrite Ht, <- !app_assoc. simpl.
    split; [lia|]. split; [reflexivity|]. split; [done|]. apply server_close_frees.
  - destruct (decide (searchParams_get "state" req = Some st)) as [Hst|Hst].
    + rewrite (bool_decide_eq_false_2 (_ ≠ _)) by (intros Hne; by apply Hne).
      rewrite (bool_decide_eq_true_2 (_ = _)) by done.
      rewrite !orb_true_iff, !bool_decide_eq_true in Hs.
      destruct Hs as [[[? [=]]|Hs]|[code Hcode]]; [done|].
      rewrite Hcode. erewrite serve_targets_done by reflexivity. simpl.
      eexists _, _, _. split; [reflexivity|]. simpl. rewrite Ht, <- !app_assoc. simpl.
      split; [lia|]. split; [reflexivity|]. exists code. rewrite Hl.
      split; [done|]. split; [done|]. split; [set_solver|done].
    + rewrite (bool_decide_eq_true_2 (_ ≠ _)) by done.
      rewrite (bool_decide_eq_false_2 (_ = _)) by done.
      erewrite serve_targets_done by reflexivity. simpl.
      eexists _, _, _. split; [reflexivity|]. simpl. rewrite Ht, <- !app_assoc. simpl.
      split; [lia|]. split; [reflexivity|]. split; [done|]. apply server_close_frees.
Qed.

Lemma checked_listener_first_settling_request_witness :
  ∃ r w' reply,
    @OnTheWire.waitForCallback MiniUrl.parser 3456 Scenario.nonce Scenario.knocking
      Scenario.blank = Some (r, w') ∧
    clock w' = clock Scenario.blank + elapsed [(1000%N, Some "/favicon.ico")] + Z.of_N 4000 ∧
    trace w' = trace Scenario.blank ++ ConsoleError (listen_message 3456)
                 :: replicate (length [(1000%N, Some "/favicon.ico")])
                      (HttpReply 404 "Not Found") ++ [reply] ∧
    match truthy (searchParams_get "error"
                    (Scenario.callback [("code", "good-code"); ("state", Scenario.nonce)])) with
    | Some _ => r = Throw CallbackServer.denied ∧ 3456 ∉ listening w'
    | None =>
        if bool_decide (searchParams_get "state"
                          (Scenario.callback [("code", "good-code"); ("state", Scenario.nonce)])
                        = Some Scenario.nonce) then
          ∃ code, truthy (searchParams_get "code"
                            (Scenario.callback [("code", "good-code"); ("state", Scenario.nonce)]))
                  = Some code ∧
                  r = Ok (code, 3456) ∧ 3456 ∈ listening w' ∧
                  reply = HttpReply 200 html_success
        else r = Throw CallbackServer.state_mismatch ∧ 3456 ∉ listening w'
    end.
Proof.
  apply (@checked_listener_first_settling_request MiniUrl.parser 3456 Scenario.nonce
           Scenario.blank [(1000%N, Some "/favicon.ico")] 4000%N Scenario.consent
           (Scenario.callback [("code", "good-code"); ("state", Scenario.nonce)]) []).
  - vm_compute. set_solver.
  - repeat constructor.
  - by vm_compute.
  - vm_compute. reflexivity.
  - reflexivity.
Defined.

Example checked_listener_on_knocking :
  fst <$> @OnTheWire.waitForCallback MiniUrl.parser 3456 Scenario.nonce Scenario.knocking
            Scenario.blank
  = Some (Ok ("good-code", 3456)).
Proof. vm_compute. reflexivity. Qed.

(** A request whose target is no URL ends the wait of either listener, and
    the process with it, when it arrives while the promise is pending:
    no request before it settled the promise and, for the listener with
    the timer, the two minutes are not over. Nothing is answered, neither
    to this request nor to a consent that would have come later. *)
Theorem listener_dies_on_unparsable_target `{UrlParser} (port : Z) (st : string)
    (w : World) (pre : list (N * Target)) (dt : N) (url : Target)
    (rest : list (N * Target)) :
  port ∉ listening w →
  request_url port url = None →
  (Forall (λ ev, passes port (settles_checked st) ev.2 = true) pre →
   elapsed pre + Z.of_N dt < CallbackServer.CALLBACK_TIMEOUT_MS →
   OnTheWire.waitForCallback port st (pre ++ (dt, url) :: rest) w = None) ∧
  (Forall (λ ev, passes port settles_plain ev.2 = true) pre →
   OnTheWire.waitForCallback_plain port (pre ++ (dt, url) :: rest) w = None).
Proof.
  intros Hfree Hurl. split.
  - intros Hq Hdue. unfold OnTheWire.waitForCallback.
    rewrite bool_decide_eq_false_2 by done. cbv zeta.
    pose proof (elapsed_nonneg pre) as Hnn.
    edestruct (serve_targets_prefix port (settles_checked st)
                 (CallbackServer.onRequest port st) (CallbackServer.onTimeout port)
                 pre ((dt, url) :: rest)
                 (Some (clock w + CallbackServer.CALLBACK_TIMEOUT_MS))
                 (emit (ConsoleError (listen_message port))
                    (set_listening (port :: listening w) w)))
      as (w1 & Hrun & Hc & _);
      [apply settles_checked_false|exact Hq|intros d [= <-]; simpl; lia|].
    simpl clock in Hrun. rewrite Hrun. clear Hrun. simpl in Hc.
    rewrite serve_targets_cons by done. simpl timer. cbv beta iota zeta.
    rewrite (proj2 (Z.leb_gt _ _)) by lia.
    unfold requestListener. by rewrite Hurl.
  - intros Hq. unfold OnTheWire.waitForCallback_plain.
    rewrite bool_decide_eq_false_2 by done. cbv zeta.
    edestruct (serve_targets_prefix port settles_plain
                 (CallbackServerPlain.onRequest port) id
                 pre ((dt, url) :: rest) None
                 (emit (ConsoleError (listen_message port))
                    (set_listening (port :: listening w) w)))
      as (w1 & Hrun & _);
      [apply settles_plain_false|exact Hq|discriminate|].
    rewrite Hrun. clear Hrun.
    rewrite serve_targets_cons by done. simpl timer. cbv beta iota zeta.
    unfold requestListener. by rewrite Hurl.
Qed.

Lemma listener_dies_on_unparsable_target_witness :
  @OnTheWire.waitForCallback MiniUrl.parser 3456 Scenario.nonce Scenario.poked
    Scenario.blank = None ∧
  @OnTheWire.waitForCallback_plain MiniUrl.parser 3456 Scenario.poked Scenario.blank = None.
Proof.
  pose proof (@listener_dies_on_unparsable_target MiniUrl.parser 3456 Scenario.nonce
                Scenario.blank [(1000%N, Some "/favicon.ico")] 500%N (Some "//")
                [(3500%N, Scenario.consent)]) as [Hc Hp].
  - vm_compute. set_solver.
  - reflexivity.
  - split.
    + apply Hc; [repeat constructor|by vm_compute].
    + apply Hp. repeat constructor.
Defined.

(** Without the request for [//] the same consent is taken. *)
Example plain_listener_on_knocking :
  fst <$> @OnTheWire.waitForCallback_plain MiniUrl.parser 3456 Scenario.knocking
            Scenario.blank
  = Some (Ok ("good-code", 3456)).
Proof. vm_compute. reflexivity. Qed.

(** ** The two event loops

    On requests whose targets are all URLs, the loop from the request line
    does what the loop on the parsed requests does; the latter also keeps
    the requests still to come in the world. *)

Lemma alike_fields (w1 w2 : World) :
  alike w1 w2 ↔
  fs w1 = fs w2 ∧ clock w1 = clock w2 ∧ host w1 = host w2 ∧ entropy w1 = entropy w2 ∧
  responses w1 = responses w2 ∧ listening w1 = listening w2 ∧ trace w1 = trace w2.
Proof.
  unfold alike, set_inbound. destruct w1, w2. simpl. split.
  - intros [= -> -> -> -> -> -> ->]. done.
  - intros (-> & -> & -> & -> & -> & -> & ->). done.
Qed.

Ltac alike_solve :=
  repeat match goal with
         | H : alike _ _ |- _ => apply alike_fields in H; destruct H as (? & ? & ? & ? & ? & ? & ?)
         end;
  apply alike_fields; simpl; repeat split; congruence.

Lemma serve_targets_parsed `{UrlParser} (port : Z)
    (handler : Request → Listener * World → Listener * World)
    (onTimer : Listener * World → Listener * World)
    (evs : list (N * Target)) (reqs : list (N * Request)) (l : Listener) (w1 w2 : World) :
  (∀ req l w1 w2, alike w1 w2 →
     (handler req (l, w1)).1 = (handler req (l, w2)).1 ∧
     alike (handler req (l, w1)).2 (handler req (l, w2)).2) →
  (∀ l w1 w2, alike w1 w2 →
     (onTimer (l, w1)).1 = (onTimer (l, w2)).1 ∧
     alike (onTimer (l, w1)).2 (onTimer (l, w2)).2) →
  Forall2 (parsed_as port) evs reqs →
  alike w1 w2 →
  ∃ l' w1' w2',
    serve_targets (requestListener port handler) onTimer evs l w1 = Some (l', w1') ∧
    serve handler onTimer reqs l w2 = (l', w2') ∧
    alike w1' w2'.
Proof.
  intros Hh Ht Hevs. revert l w1 w2.
  induction Hevs as [|[dt url] [dt' req] evs reqs [Hdt Hurl] _ IH]; intros l w1 w2 Hw.
  - destruct (promise l) as [s|] eqn:Hp.
    + erewrite serve_targets_done, serve_done by done.
      eexists _, _, _. split; [reflexivity|]. split; [reflexivity|]. alike_solve.
    + rewrite serve_targets_nil, serve_nil by done.
      destruct (timer l) as [due|].
      * destruct (Ht (clearTimeout l) (set_clock (Z.max (clock w1) due) w1)
                    (set_clock (Z.max (clock w2) due) (set_inbound [] w2))) as [Hl Hw'];
          [alike_solve|].
        destruct (onTimer (_, set_clock _ w1)) as [l1 w1'].
        destruct (onTimer (_, set_clock _ (set_inbound [] w2))) as [l2 w2'].
        simpl in Hl, Hw'. subst l2. eexists _, _, _. done.
      * eexists _, _, _. split; [reflexivity|]. split; [reflexivity|]. alike_solve.
  - simpl in Hdt, Hurl. subst dt'.
    destruct (promise l) as [s|] eqn:Hp.
    + erewrite serve_targets_done, serve_done by done.
      eexists _, _, _. split; [reflexivity|]. split; [reflexivity|]. alike_solve.
    + rewrite serve_targets_cons, serve_cons by done. cbv zeta.
      assert (clock w1 = clock w2) as Hc by (apply alike_fields in Hw; tauto).
      rewrite Hc.
      destruct (match timer l with
                | Some due => if due <=? clock w2 + Z.of_N dt then Some due else None
                | None => None
                end) as [due|].
      * destruct (Ht (clearTimeout l) (set_clock (Z.max (clock w2) due) w1)
                    (set_clock (Z.max (clock w2) due)
                       (set_inbound ((Z.to_N (clock w2 + Z.of_N dt - Z.max (clock w2) due), req)
                                       :: reqs) w2))) as [Hl Hw'];
          [alike_solve|].
        destruct (onTimer (_, set_clock _ w1)) as [l1 w1'].
        destruct (onTimer (_, set_clock _ (set_inbound _ w2))) as [l2 w2'].
        simpl in Hl, Hw'. subst l2. eexists _, _, _. done.
      * unfold requestListener. rewrite Hurl.
        destruct (Hh req l (set_clock (clock w2 + Z.of_N dt) w1)
                    (set_clock (clock w2 + Z.of_N dt) w2)) as [Hl Hw'];
          [alike_solve|].
        destruct (handler req (l, set_clock _ w1)) as [l1 w1'].
        destruct (handler req (l, set_clock _ w2)) as [l2 w2'].
        simpl in Hl, Hw'. subst l2. by apply IH.
Qed.

Lemma onRequest_checked_alike (port : Z) (st : string) (req : Request) (l : Listener)
    (w1 w2 : World) :
  alike w1 w2 →
  (CallbackServer.onRequest port st req (l, w1)).1 =
  (CallbackServer.onRequest port st req (l, w2)).1 ∧
  alike (CallbackServer.onRequest port st req (l, w1)).2
        (CallbackServer.onRequest port st req (l, w2)).2.
Proof.
  intros Hw. unfold CallbackServer.onRequest.
  destruct (String.eqb (pathname req) "/callback"); [|split; [done|alike_solve]].
  cbv zeta.
  destruct (truthy (searchParams_get "error" req)); [split; [done|alike_solve]|].
  destruct (bool_decide _); [split; [done|alike_solve]|].
  destruct (truthy (searchParams_get "code" req)); split; (done || alike_solve).
Qed.

Lemma onTimeout_alike (port : Z) (l : Listener) (w1 w2 : World) :
  alike w1 w2 →
  (CallbackServer.onTimeout port (l, w1)).1 = (CallbackServer.onTimeout port (l, w2)).1 ∧
  alike (CallbackServer.onTimeout port (l, w1)).2 (CallbackServer.onTimeout port (l, w2)).2.
Proof. intros Hw. split; [done|]. simpl. alike_solve. Qed.

Lemma onRequest_plain_alike (port : Z) (req : Request) (l : Listener) (w1 w2 : World) :
  alike w1 w2 →
  (CallbackServerPlain.onRequest port req (l, w1)).1 =
  (CallbackServerPlain.onRequest port req (l, w2)).1 ∧
  alike (CallbackServerPlain.onRequest port req (l, w1)).2
        (CallbackServerPlain.onRequest port req (l, w2)).2.
Proof.
  intros Hw. unfold CallbackServerPlain.onRequest.
  destruct (String.eqb (pathname req) "/callback"); [|split; [done|alike_solve]].
  cbv zeta.
  destruct (truthy (searchParams_get "error" req)); [split; [done|alike_solve]|].
  destruct (truthy (searchParams_get "code" req)); split; (done || alike_solve).
Qed.

(** When every target is a URL, [waitForCallback] from the request line
    gives what [waitForCallback] gives on the parsed requests, in both
    revisions. *)
Lemma waitForCallback_parsed `{UrlParser} (port : Z) (st : string)
    (evs : list (N * Target)) (w : World) :
  Forall2 (parsed_as port) evs (inbound w) →
  (∃ w1, OnTheWire.waitForCallback port st evs w =
           Some ((CallbackServer.waitForCallback port st w).1, w1) ∧
         alike w1 (CallbackServer.waitForCallback port st w).2) ∧
  (∃ w1, OnTheWire.waitForCallback_plain port evs w =
           Some ((CallbackServerPlain.waitForCallback port w).1, w1) ∧
         alike w1 (CallbackServerPlain.waitForCallback port w).2).
Proof.
  intros Hevs.
  unfold OnTheWire.waitForCallback, OnTheWire.waitForCallback_plain,
    CallbackServer.waitForCallback, CallbackServerPlain.waitForCallback.
  destruct (bool_decide (port ∈ listening w)).
  { split; eexists; (split; [reflexivity|]); unfold await_listener; simpl; done. }
  cbv zeta. simpl inbound. simpl clock. set (w0 := emit _ _). split.
  - destruct (serve_targets_parsed port (CallbackServer.onRequest port st)
                (CallbackServer.onTimeout port) evs (inbound w)
                (mkListener None (Some (clock w + CallbackServer.CALLBACK_TIMEOUT_MS)))
                w0 w0) as (l' & w1' & w2' & -> & -> & Hw);
      [intros; by apply onRequest_checked_alike|intros; by apply onTimeout_alike
      |done|done|].
    unfold await_listener. simpl.
    destruct (promise l') as [[c|e]|]; eexists; (split; [reflexivity|exact Hw]).
  - destruct (serve_targets_parsed port (CallbackServerPlain.onRequest port) id
                evs (inbound w) (mkListener None None) w0 w0)
      as (l' & w1' & w2' & -> & -> & Hw);
      [intros; by apply onRequest_plain_alike|intros; by split|done|done|].
    unfold await_listener. simpl.
    destruct (promise l') as [[c|e]|]; eexists; (split; [reflexivity|exact Hw]).
Qed.

Example checked_listener_on_probed_consent :
  (CallbackServer.waitForCallback 3456 Scenario.nonce Scenario.probed).1
  = Ok ("good-code", 3456).
Proof. vm_compute. reflexivity. Qed.

(* ===================================================================== *)
(** * The two listeners side by side *)
(* ===================================================================== *)

(** The two listeners side by side: on the same requests, a promise the
    checking listener resolves is resolved by the one-argument listener
    too, with the same code. *)
Lemma serve_plain_follows_checked (port : Z) (st : string) (evs : list (N * Request))
    (due : Z) (wc wp : World) (code : string) :
  promise (serve (CallbackServer.onRequest port st) (CallbackServer.onTimeout port)
             evs (mkListener None (Some due)) wc).1 = Some (Resolved code) →
  promise (serve (CallbackServerPlain.onRequest port) id
             evs (mkListener None None) wp).1 = Some (Resolved code).
Proof.
  revert wc wp. induction evs as [|[dt req] rest IH]; intros wc wp.
  - rewrite serve_nil by done. simpl. discriminate.
  - rewrite !serve_cons by done. simpl timer. cbv beta iota zeta.
    destruct (due <=? clock wc + Z.of_N dt); [simpl; discriminate|].
    destruct (String.eqb (pathname req) "/callback") eqn:Hp.
    + apply String.eqb_eq in Hp. rewrite onRequest_checked_callback by done.
      unfold CallbackServerPlain.onRequest. rewrite Hp. simpl String.eqb. cbv iota.
      destruct (truthy (searchParams_get "error" req)).
      { erewrite serve_done by reflexivity. simpl. discriminate. }
      destruct (bool_decide (searchParams_get "state" req ≠ Some st)).
      { erewrite serve_done by reflexivity. simpl. discriminate. }
      destruct (truthy (searchParams_get "code" req)) as [c|].
      * erewrite !serve_done by reflexivity. done.
      * apply IH.
    + rewrite settles_checked_false, settles_plain_false
        by (unfold settles_checked, settles_plain; by rewrite Hp).
      apply IH.
Qed.

Theorem plain_listener_accepts_what_checked_accepts (port : Z) (st : string) (w : World)
    (code : string) (server : Z) :
  (CallbackServer.waitForCallback port st w).1 = Ok (code, server) →
  (CallbackServerPlain.waitForCallback port w).1 = Ok (code, server).
Proof.
  unfold CallbackServer.waitForCallback, CallbackServerPlain.waitForCallback.
  destruct (bool_decide (port ∈ listening w)); [simpl; discriminate|].
  cbv zeta. simpl inbound. unfold await_listener.
  set (w0 := emit _ _).
  pose proof (serve_plain_follows_checked port st (inbound w) (clock w + CallbackServer.CALLBACK_TIMEOUT_MS)
                w0 w0) as Hfollow.
  simpl clock.
  destruct (serve (CallbackServer.onRequest port st) _ _ _ _) as [lc wc].
  destruct (serve (CallbackServerPlain.onRequest port) _ _ _ _) as [lp wp'].
  simpl in *. destruct (promise lc) as [[c|e]|]; [|discriminate..].
  intros [= -> <-]. by rewrite (Hfollow code eq_refl).
Qed.

Lemma plain_listener_accepts_what_checked_accepts_witness :
  (CallbackServerPlain.waitForCallback 3456 Scenario.probed).1 = Ok ("good-code", 3456).
Proof.
  apply (plain_listener_accepts_what_checked_accepts 3456 Scenario.nonce Scenario.probed).
  vm_compute. reflexivity.
Defined.

(* ===================================================================== *)
(** * What the interactive flow leaves alone *)
(* ===================================================================== *)

Lemma serve_preserves (P : World → Prop)
    (handler : Request → Listener * World → Listener * World)
    (onTimer : Listener * World → Listener * World) :
  (∀ req l w, P w → P (handler req (l, w)).2) →
  (∀ l w, P w → P (onTimer (l, w)).2) →
  (∀ c w, P w → P (set_clock c w)) →
  (∀ i w, P w → P (set_inbound i w)) →
  ∀ evs l w, P w → P (serve handler onTimer evs l w).2.
Proof.
  intros Hh Ht Hc Hi evs. induction evs as [|[dt req] rest IH]; intros l w Hw.
  - destruct (promise l) as [s|] eqn:Hp.
    + erewrite serve_done by exact Hp. by apply Hi.
    + rewrite serve_nil by done. destruct (timer l); [apply Ht, Hc|]; by apply Hi.
  - destruct (promise l) as [s|] eqn:Hp.
    + erewrite serve_done by exact Hp. by apply Hi.
    + rewrite serve_cons by done. cbv zeta.
      destruct (match timer l with
                | Some due => if due <=? clock w + Z.of_N dt then Some due else None
                | None => None
                end).
      * apply Ht, Hc. by apply Hi.
      * specialize (Hh req l (set_clock (clock w + Z.of_N dt) w) (Hc _ _ Hw)).
        destruct (handler req (l, set_clock (clock w + Z.of_N dt) w)) as [l' w'].
        by apply IH.
Qed.

Lemma onRequest_plain_world (port : Z) (req : Request) (l : Listener) (w : World) :
  ∃ code body,
    (CallbackServerPlain.onRequest port req (l, w)).2 = respond code body w.
Proof.
  unfold CallbackServerPlain.onRequest.
  destruct (String.eqb (pathname req) "/callback"); [|by eexists _, _].
  destruct (truthy (searchParams_get "error" req)); [by eexists _, _|].
  destruct (truthy (searchParams_get "code" req)); by eexists _, _.
Qed.

(** The one-argument listener touches neither the disk nor the answers of
    the token endpoint. *)
Lemma waitForCallback_plain_frame (port : Z) (w : World) :
  fs (CallbackServerPlain.waitForCallback port w).2 = fs w ∧
  responses (CallbackServerPlain.waitForCallback port w).2 = responses w.
Proof.
  unfold CallbackServerPlain.waitForCallback.
  destruct (bool_decide (port ∈ listening w)); [done|].
  unfold await_listener.
  set (w0 := emit _ _).
  assert (fs (serve (CallbackServerPlain.onRequest port) id (inbound w0)
                (mkListener None None) w0).2 = fs w ∧
          responses (serve (CallbackServerPlain.onRequest port) id (inbound w0)
                (mkListener None None) w0).2 = responses w) as Hinv.
  { apply (serve_preserves (λ x, fs x = fs w ∧ responses x = responses w)); try done.
    intros req l x Hx. by destruct (onRequest_plain_world port req l x) as (c & b & ->). }
  destruct (serve _ _ _ _ _) as [l w1]. simpl in *.
  by destruct (promise l) as [[]|].
Qed.

(** [authorize] never writes to the disk. *)
Lemma authorize_keeps_disk (config : OAuthConfig) (port : Z) (w : World) :
  fs (OAuthClient.authorize config port w).2 = fs w.
Proof.
  destruct (authorize_after_prelude config port w)
    as (w1 & _ & Hf & _ & _ & _ & _ & ->).
  rewrite bind_run.
  pose proof (waitForCallback_plain_frame port w1) as [Hfs _].
  destruct (CallbackServerPlain.waitForCallback port w1) as [[[code srv]| |] w2];
    simpl in Hfs; [|simpl; congruence..].
  rewrite bind_run. unfold close at 1.
  destruct (OAuthClient.exchangeCode config code (server_close srv w2)) as [r w3] eqn:Hx.
  apply exchangeCode_frame in Hx as (Hfs3 & _). simpl in *. congruence.
Qed.

Lemma authorize_prelude_trace (config : OAuthConfig) (w w1 : World) :
  authorize_prelude config w = (Ok (), w1) →
  ∃ evs, trace w1 = trace w ++ evs ∧
         Forall (λ e, match e with Fetch _ _ | HttpReply _ _ => False | _ => True end) evs.
Proof.
  destruct w as [f c [pl br] en inb rs ls tr].
  destruct en, pl, br; intros [= <-]; simpl trace;
    (eexists; split; [rewrite <- !app_assoc; reflexivity|repeat constructor]).
Qed.

(** [authorize] on a port that is already bound: the listener cannot
    start, the error of the socket is what [authorize] throws, and nothing
    was asked of the token endpoint. *)
Theorem authorize_port_in_use (config : OAuthConfig) (port : Z) (w : World) :
  port ∈ listening w →
  ∃ w' evs,
    OAuthClient.authorize config port w = (Throw (SystemError "EADDRINUSE"), w') ∧
    listening w' = listening w ∧ fs w' = fs w ∧ clock w' = clock w ∧
    inbound w' = inbound w ∧ responses w' = responses w ∧
    trace w' = trace w ++ evs ∧
    Forall (λ e, match e with Fetch _ _ | HttpReply _ _ => False | _ => True end) evs.
Proof.
  intros Hbound.
  destruct (authorize_after_prelude config port w)
    as (w1 & Hpre & Hf & Hcl & Hl & Hi & Hr & ->).
  destruct (authorize_prelude_trace config w w1 Hpre) as (evs & Htr & Hev).
  exists w1, evs. rewrite bind_run. unfold CallbackServerPlain.waitForCallback.
  rewrite bool_decide_eq_true_2 by (by rewrite Hl). simpl. done.
Qed.

Lemma authorize_port_in_use_witness :
  ∃ w' evs,
    OAuthClient.authorize Scenario.config 3456 Scenario.occupied
    = (Throw (SystemError "EADDRINUSE"), w') ∧
    listening w' = listening Scenario.occupied ∧ fs w' = fs Scenario.occupied ∧
    clock w' = clock Scenario.occupied ∧
    inbound w' = inbound Scenario.occupied ∧ responses w' = responses Scenario.occupied ∧
    trace w' = trace Scenario.occupied ++ evs ∧
    Forall (λ e, match e with Fetch _ _ | HttpReply _ _ => False | _ => True end) evs.
Proof.
  apply (authorize_port_in_use Scenario.config 3456 Scenario.occupied).
  vm_compute. set_solver.
Defined.

(* ===================================================================== *)
(** * The manager: failures and repeated calls *)
(* ===================================================================== *)

Section ManagerOutcomes.
Context `{JsonCodec}.
Variable filePath : list string.
Variable config : OAuthConfig.

(** When [authorize] does not return a token, [doInteractiveAuth] ends the
    same way and the disk is as it was: nothing is saved. *)
Theorem doInteractiveAuth_failure_keeps_store (w w' : World) (r : result TokenData) :
  OAuthClient.authorize config OAuthClient.DEFAULT_PORT w = (r, w') →
  (∀ t, r ≠ Ok t) →
  authManager_doInteractiveAuth filePath config w = (r, w') ∧
  fs w' = fs w ∧
  TokenStore.load filePath w' = (Ok (loaded filePath (fs w)), w').
Proof.
  intros Hauth Hr.
  pose proof (authorize_keeps_disk config OAuthClient.DEFAULT_PORT w) as Hfs.
  rewrite Hauth in Hfs. simpl in Hfs.
  split; [|split; [done|by rewrite load_run, Hfs]].
  unfold authManager_doInteractiveAuth, AuthManager.doInteractiveAuth.
  simpl authorize. rewrite bind_run, Hauth.
  destruct r as [t| |]; [by destruct (Hr t)|done..].
Qed.

(** A refreshed token that cannot be saved is dropped: the failure of
    [save] is caught like a failure of the refresh. *)
Theorem getValidToken_save_failure_falls_back
    (t t' : TokenData) (e : Error) (w w1 w2 : World) :
  TokenStore.load filePath w = (Ok (Some t), w) →
  TokenStore.isExpired t w = (Ok true, w) →
  OAuthClient.refreshToken config (refresh_token t) w = (Ok t', w1) →
  TokenStore.save filePath t' w1 = (Throw e, w2) →
  authManager_getValidToken filePath config w =
  authManager_doInteractiveAuth filePath config
    (emit (ConsoleError refresh_failed_message) w2).
Proof.
  intros Hl He Hr Hs.
  unfold authManager_getValidToken, AuthManager.getValidToken.
  simpl load. rewrite (bind_ok _ _ _ _ _ Hl).
  simpl isExpired. rewrite (bind_ok _ _ _ _ _ He). cbn [negb].
  rewrite try_catch_run. simpl refreshToken. rewrite (bind_ok _ _ _ _ _ Hr).
  simpl save. rewrite (bind_throw _ _ _ _ _ Hs). reflexivity.
Qed.

Lemma doInteractiveAuth_inv (t : TokenData) (w w' : World) :
  authManager_doInteractiveAuth filePath config w = (Ok t, w') →
  ∃ w1, TokenStore.save filePath t w1 = (Ok (), w').
Proof.
  unfold authManager_doInteractiveAuth, AuthManager.doInteractiveAuth.
  rewrite bind_run. destruct (authorize _ w) as [[ta| |] w1]; [|done..].
  rewrite bind_run. simpl save.
  destruct (TokenStore.save filePath ta w1) as [[[]| |] w2] eqn:Hs; [|done..].
  intros [= <- <-]. eauto.
Qed.

(** The ways [getValidToken()] returns a token: the stored one, untouched
    and more than sixty seconds from its expiry, or one it has just saved. *)
Lemma getValidToken_inv (t : TokenData) (w w' : World) :
  authManager_getValidToken filePath config w = (Ok t, w') →
  (w' = w ∧ loaded filePath (fs w) = Some t ∧ clock w + EXPIRY_BUFFER_MS < expires_at t) ∨
  (∃ w1, TokenStore.save filePath t w1 = (Ok (), w')).
Proof.
  unfold authManager_getValidToken, AuthManager.getValidToken.
  simpl load. rewrite bind_run, load_run.
  destruct (loaded filePath (fs w)) as [t0|] eqn:Hld.
  - rewrite bind_run. simpl isExpired. rewrite isExpired_run.
    destruct (Z.leb_spec (expires_at t0 - EXPIRY_BUFFER_MS) (clock w)) as [Hexp|Hfresh];
      cbn [negb].
    + rewrite try_catch_run, bind_run. simpl refreshToken.
      destruct (OAuthClient.refreshToken config (refresh_token t0) w) as [[t1| |] w1].
      * rewrite bind_run. simpl save.
        destruct (TokenStore.save filePath t1 w1) as [[[]| |] w2] eqn:Hs.
        -- intros [= <- <-]. right. eauto.
        -- rewrite bind_run. unfold console_error at 1.
           intros Hi. right. by apply doInteractiveAuth_inv in Hi.
        -- done.
      * rewrite bind_run. unfold console_error at 1.
        intros Hi. right. by apply doInteractiveAuth_inv in Hi.
      * done.
    + intros [= <- <-]. left. split; [done|]. split; [done|lia].
  - intros Hi. right. by apply doInteractiveAuth_inv in Hi.
Qed.

(** Whatever path [getValidToken()] took, the token it returns is the one
    [load()] gives afterwards; and as long as the disk stays as it is and
    that token is more than sixty seconds from its expiry, every later
    [getValidToken()] returns it again and changes nothing. *)
Theorem getValidToken_returns_stored_token (t : TokenData) (w w' : World) :
  JSON_parse (JSON_stringify (TokenData_to_json t)) = Some (TokenData_to_json t) →
  authManager_getValidToken filePath config w = (Ok t, w') →
  TokenStore.load filePath w' = (Ok (Some t), w') ∧
  (∀ later, fs later = fs w' → clock later + 60000 < expires_at t →
     authManager_getValidToken filePath config later = (Ok t, later)).
Proof.
  intros Hcodec Hrun.
  assert (loaded filePath (fs w') = Some t) as Hld.
  { apply getValidToken_inv in Hrun as [(-> & Hld & _)|(w1 & Hs)]; [done|].
    by eapply save_then_loaded. }
  split; [by rewrite load_run, Hld|].
  intros later Hfs Hfresh.
  apply (getValidToken_fresh (tokenStore filePath) (oauthClient config) t later later later).
  - simpl. by rewrite load_run, Hfs, Hld.
  - simpl. rewrite isExpired_run. do 2 f_equal. unfold EXPIRY_BUFFER_MS. apply Z.leb_gt. lia.
Qed.

(** [getAuthStatus()] only reads: it always answers, changes nothing, and
    says [authenticated] exactly when a token loads that is more than sixty
    seconds from its expiry. *)
Theorem getAuthStatus_only_reads (w : World) :
  ∃ st,
    authManager_getAuthStatus filePath w = (Ok st, w) ∧
    (authenticated st = true ↔
     ∃ t, TokenStore.load filePath w = (Ok (Some t), w) ∧ clock w + 60000 < expires_at t) ∧
    (∀ t, TokenStore.load filePath w = (Ok (Some t), w) →
          expiresAt st = Some (expires_at t) ∧ status_scope st = Some (scope t)).
Proof.
  unfold authManager_getAuthStatus, AuthManager.getAuthStatus. simpl load.
  rewrite bind_run, load_run.
  destruct (loaded filePath (fs w)) as [t|].
  - rewrite bind_run. simpl isExpired. rewrite isExpired_run.
    eexists. split; [reflexivity|]. simpl. unfold EXPIRY_BUFFER_MS. split.
    + rewrite negb_true_iff, Z.leb_gt. split.
      * intros Hlt. exists t. split; [done|lia].
      * intros (t' & [= <-] & Hlt). lia.
    + by intros t' [= <-].
  - eexists. split; [reflexivity|]. simpl. split.
    + split; [done|]. by intros (t' & [=] & _).
    + by intros t' [=].
Qed.
End ManagerOutcomes.

Lemma doInteractiveAuth_failure_keeps_store_witness :
  @authManager_doInteractiveAuth MiniJson.codec Scenario.filePath Scenario.config
    Scenario.refused
  = (Throw (JsError "OAuth error: access_denied"),
     (OAuthClient.authorize Scenario.config OAuthClient.DEFAULT_PORT Scenario.refused).2) ∧
  fs (OAuthClient.authorize Scenario.config OAuthClient.DEFAULT_PORT Scenario.refused).2
  = fs Scenario.refused ∧
  @TokenStore.load MiniJson.codec Scenario.filePath
    (OAuthClient.authorize Scenario.config OAuthClient.DEFAULT_PORT Scenario.refused).2
  = (Ok (@loaded MiniJson.codec Scenario.filePath (fs Scenario.refused)),
     (OAuthClient.authorize Scenario.config OAuthClient.DEFAULT_PORT Scenario.refused).2).
Proof.
  apply (@doInteractiveAuth_failure_keeps_store MiniJson.codec Scenario.filePath
           Scenario.config Scenario.refused).
  - vm_compute. reflexivity.
  - discriminate.
Defined.

Lemma getValidToken_save_failure_falls_back_witness :
  @authManager_getValidToken MiniJson.codec Scenario.filePath Scenario.config
    Scenario.readonly
  = @authManager_doInteractiveAuth MiniJson.codec Scenario.filePath Scenario.config
      (emit (ConsoleError refresh_failed_message)
         (@TokenStore.save MiniJson.codec Scenario.filePath Scenario.refreshedTokens
            (OAuthClient.refreshToken Scenario.config "expired-refresh"
               Scenario.readonly).2).2).
Proof.
  apply (@getValidToken_save_failure_falls_back MiniJson.codec Scenario.filePath
           Scenario.config Scenario.expiredTokens Scenario.refreshedTokens
           (SystemError "EACCES") Scenario.readonly
           (OAuthClient.refreshToken Scenario.config "expired-refresh" Scenario.readonly).2).
  - vm_compute. reflexivity.
  - vm_compute. reflexivity.
  - vm_compute. reflexivity.
  - vm_compute. reflexivity.
Defined.

Lemma getValidToken_returns_stored_token_witness :
  let w' := (@authManager_getValidToken MiniJson.codec Scenario.filePath Scenario.config
               Scenario.refreshable).2 in
  @TokenStore.load MiniJson.codec Scenario.filePath w'
  = (Ok (Some Scenario.refreshedTokens), w') ∧
  (∀ later, fs later = fs w' → clock later + 60000 < expires_at Scenario.refreshedTokens →
     @authManager_getValidToken MiniJson.codec Scenario.filePath Scenario.config later
     = (Ok Scenario.refreshedTokens, later)).
Proof.
  apply (@getValidToken_returns_stored_token MiniJson.codec Scenario.filePath
           Scenario.config Scenario.refreshedTokens Scenario.refreshable).
  - apply MiniJson_reads_back.
  - vm_compute. reflexivity.
Defined.

(* ===================================================================== *)
(** * Saving again *)
(* ===================================================================== *)

Lemma mkdir_from_dirs (todo pre : list string) (m : Z) (f f' : FS) (k : nat) :
  mkdir_from pre todo m f = inr f' →
  (0 < k ≤ length todo)%nat →
  ∃ dm, lookup_node f' (pre ++ take k todo) = Some (Dir dm).
Proof.
  revert pre f k. induction todo as [|c rest IH]; intros pre f k E Hk; simpl in *; [lia|].
  destruct k as [|k]; [lia|]. simpl take.
  replace (pre ++ c :: take k rest) with ((pre ++ [c]) ++ take k rest)
    by by rewrite <- app_assoc.
  destruct k as [|k].
  - rewrite take_0, app_nil_r.
    destruct (lookup_node f (pre ++ [c])) as [[dm|? ?]|] eqn:Hd; [|done|].
    + exists dm. by eapply mkdir_from_keeps.
    + eexists. eapply mkdir_from_keeps; [exact E|].
      apply lookup_set_node_eq. by destruct pre.
  - destruct (lookup_node f (pre ++ [c])) as [[dm|? ?]|] eqn:Hd; [|done|];
      (eapply IH; [exact E|lia]).
Qed.

Section StoreRepeated.
Context `{JsonCodec}.
Variable filePath : list string.

(** A [save] that returned can be repeated: it leaves the directories in
    place and the file writable by its owner, so the next [save] returns
    too, and [load] then gives the later token. *)
Theorem save_again_overwrites (t1 t2 : TokenData) (w w1 : World) :
  JSON_parse (JSON_stringify (TokenData_to_json t2)) = Some (TokenData_to_json t2) →
  TokenStore.save filePath t1 w = (Ok (), w1) →
  ∃ w2,
    TokenStore.save filePath t2 w1 = (Ok (), w2) ∧
    TokenStore.load filePath w2 = (Ok (Some t2), w2) ∧
    lookup_node (fs w2) filePath =
      Some (File mode_0o600 (JSON_stringify (TokenData_to_json t2))).
Proof.
  intros Hcodec Hsave.
  pose proof (save_result filePath _ _ _ Hsave) as (Hfile & _).
  pose proof Hsave as (f1 & f2 & f3 & Hmk & Hwr & Hch & ->)%save_inv.
  pose proof Hwr as (Hne & _ & fm & -> & _)%writeFile_inv.
  eapply chmod_file in Hch; [|by apply lookup_set_node_eq|done]. subst f3.
  destruct (save_succeeds filePath t2
              (set_fs (set_node filePath (File mode_0o600 (JSON_stringify (TokenData_to_json t1)))
                         (set_node filePath (File fm (JSON_stringify (TokenData_to_json t1))) f1)) w))
    as [w2 Hs2]; [done| | |].
  - intros k fm' data Hk. simpl fs.
    assert (take k (dirname filePath) ≠ filePath) as Hneq.
    { intros E. apply (f_equal length) in E. rewrite length_take in E.
      destruct (dirname_snoc _ Hne) as [c Hc]. rewrite Hc in E at 2.
      rewrite length_app in E. simpl in E. lia. }
    rewrite !lookup_set_node_ne by done.
    destruct (mkdir_from_dirs _ [] _ _ _ k Hmk Hk) as [dm Hd]. simpl in Hd.
    rewrite Hd. done.
  - right. simpl fs. eexists _, _. split; [by apply lookup_set_node_eq|done].
  - exists w2. split; [exact Hs2|].
    split; [|by apply save_result in Hs2 as (? & _)].
    rewrite load_run. by erewrite save_then_loaded.
Qed.
End StoreRepeated.

Lemma save_again_overwrites_witness :
  ∃ w2,
    @TokenStore.save MiniJson.codec Scenario.filePath Scenario.validTokens
      (Scenario.holding Scenario.expiredTokens Scenario.blank) = (Ok (), w2) ∧
    @TokenStore.load MiniJson.codec Scenario.filePath w2
    = (Ok (Some Scenario.validTokens), w2) ∧
    lookup_node (fs w2) Scenario.filePath =
      Some (File mode_0o600 (MiniJson.stringify (TokenData_to_json Scenario.validTokens))).
Proof.
  apply (@save_again_overwrites MiniJson.codec Scenario.filePath
           Scenario.expiredTokens Scenario.validTokens Scenario.blank).
  - apply MiniJson_reads_back.
  - vm_compute. reflexivity.
Defined.

(* ===================================================================== *)
(** * tools/common.ts: the two handlers *)
(* ===================================================================== *)

(** The dates of [MiniRuntime], on instants whose ISO text is known. *)
Example toISOString_epoch : MiniRuntime.date_text 0 = Some "1970-01-01T00:00:00.000Z".
Proof. vm_compute. reflexivity. Qed.
Example toISOString_now : MiniRuntime.date_text 1700000000000 = Some "2023-11-14T22:13:20.000Z".
Proof. vm_compute. reflexivity. Qed.
Example toISOString_leap : MiniRuntime.date_text 951782400000 = Some "2000-02-29T00:00:00.000Z".
Proof. vm_compute. reflexivity. Qed.
Example toISOString_before : MiniRuntime.date_text (-1) = Some "1969-12-31T23:59:59.999Z".
Proof. vm_compute. reflexivity. Qed.
Example toISOString_y10k : MiniRuntime.date_text 253402300800000 = Some "+010000-01-01T00:00:00.000Z".
Proof. vm_compute. reflexivity. Qed.
Example toISOString_max : MiniRuntime.date_text 8640000000000000 = Some "+275760-09-13T00:00:00.000Z".
Proof. vm_compute. reflexivity. Qed.
Example toISOString_min : MiniRuntime.date_text (-8640000000000000) = Some "-271821-04-20T00:00:00.000Z".
Proof. vm_compute. reflexivity. Qed.
Example toISOString_y0 : MiniRuntime.date_text (-62167219200000) = Some "0000-01-01T00:00:00.000Z".
Proof. vm_compute. reflexivity. Qed.
Example toISOString_ym1 : MiniRuntime.date_text (-62198755200000) = Some "-000001-01-01T00:00:00.000Z".
Proof. vm_compute. reflexivity. Qed.
Example toISOString_over : MiniRuntime.date_text 8640000000000001 = None.
Proof. vm_compute. reflexivity. Qed.

Lemma try_catch_with_run {A} (m : M A) (h : Error → M A) (w : World) :
  try_catch_with m h w =
  match m w with
  | (Throw e, w') => h e w'
  | r => r
  end.
Proof. reflexivity. Qed.


Section CommonToolsFacts.
Context `{JsonCodec} `{Runtime}.
Variable filePath : list string.
Variable config : OAuthConfig.


(** [mf_auth_status]: never an authentication flow, never a change; the
    text says whether a token loads that is more than sixty seconds from
    its expiry, and then gives that expiry and the scope. *)
Theorem mf_auth_status_reports (w : World) (stored : option TokenData) :
  TokenStore.load filePath w = (Ok stored, w) →
  CommonTools.mf_auth_status (authManager filePath config) w =
  match stored with
  | Some t =>
      if clock w + 60000 <? expires_at t then
        match Date_toISOString (expires_at t) with
        | Some iso =>
            (Ok (mkCallToolResult
                   ["Authenticated. Token expires at: " +:+ iso +:+ ". Scopes: " +:+ scope t]
                   false), w)
        | None => (Throw (JsError "Invalid time value"), w)
        end
      else
        (Ok (mkCallToolResult ["Not authenticated. Run mf_auth_login to authenticate."]
               false), w)
  | None =>
      (Ok (mkCallToolResult ["Not authenticated. Run mf_auth_login to authenticate."]
             false), w)
  end.
Proof.
  intros Hload. unfold CommonTools.mf_auth_status. simpl getAuthStatus.
  unfold authManager_getAuthStatus, AuthManager.getAuthStatus. simpl load.
  rewrite !bind_run, Hload.
  destruct stored as [t|]; [|reflexivity].
  rewrite bind_run. simpl isExpired. rewrite isExpired_run. unfold EXPIRY_BUFFER_MS.
  destruct (Z.ltb_spec (clock w + 60000) (expires_at t)) as [Hfresh|Hexp].
  - rewrite (proj2 (Z.leb_gt _ _)) by lia. simpl.
    unfold toISOString. destruct (Date_toISOString (expires_at t)); reflexivity.
  - rewrite (proj2 (Z.leb_le _ _)) by lia. reflexivity.
Qed.


(** After a consent that was denied, the port of the listener is still
    bound, and from then on [mf_auth_login] fails at once, without asking
    for consent again. *)
Theorem mf_auth_login_after_denial (w : World)
    (dt : N) (req : Request) (rest : list (N * Request)) (error : string) :
  OAuthClient.DEFAULT_PORT ∉ listening w →
  inbound w = (dt, req) :: rest →
  pathname req = "/callback" →
  truthy (searchParams_get "error" req) = Some error →
  let handler := CommonTools.mf_auth_login (authManager filePath config) in
  ∃ w1,
    handler w =
      (Ok (mkCallToolResult ["Authentication failed: OAuth error: " +:+ error] true), w1) ∧
    OAuthClient.DEFAULT_PORT ∈ listening w1 ∧
    ∀ w2, OAuthClient.DEFAULT_PORT ∈ listening w2 →
      ∃ w3,
        handler w2 =
          (Ok (mkCallToolResult
                 ["Authentication failed: " +:+ platform_message (SystemError "EADDRINUSE")]
                 true), w3) ∧
        OAuthClient.DEFAULT_PORT ∈ listening w3 ∧
        inbound w3 = inbound w2 ∧ responses w3 = responses w2.
Proof.
  intros Hfree Hin Hp He handler. unfold handler, CommonTools.mf_auth_login.
  destruct (authorize_after_prelude config OAuthClient.DEFAULT_PORT w)
    as (w0 & _ & Hf & Hcl & Hl & Hi & Hr & Hauth).
  erewrite bind_throw in Hauth;
    [|apply (waitForCallback_plain_error _ w0 dt req rest error); congruence].
  eexists. split; [|split].
  - rewrite try_catch_with_run, bind_run. simpl doInteractiveAuth.
    unfold authManager_doInteractiveAuth, AuthManager.doInteractiveAuth.
    rewrite bind_run. simpl authorize. rewrite Hauth. reflexivity.
  - simpl. set_solver.
  - intros w2 Hbound.
    destruct (authorize_after_prelude config OAuthClient.DEFAULT_PORT w2)
      as (w3 & _ & Hf3 & Hcl3 & Hl3 & Hi3 & Hr3 & Hauth3).
    rewrite bind_run in Hauth3. unfold CallbackServerPlain.waitForCallback in Hauth3.
    rewrite bool_decide_eq_true_2 in Hauth3 by (by rewrite Hl3). simpl in Hauth3.
    exists w3. split; [|by rewrite Hl3].
    rewrite try_catch_with_run, bind_run. simpl doInteractiveAuth.
    unfold authManager_doInteractiveAuth, AuthManager.doInteractiveAuth.
    rewrite bind_run. simpl authorize. rewrite Hauth3. reflexivity.
Qed.
End CommonToolsFacts.

Lemma mf_auth_status_reports_witness :
  @CommonTools.mf_auth_status MiniRuntime.runtime
    (@authManager MiniJson.codec Scenario.filePath Scenario.config)
    (Scenario.holding Scenario.validTokens Scenario.blank)
  = (Ok (mkCallToolResult
           ["Authenticated. Token expires at: 2023-11-14T23:13:20.000Z. Scopes: test"]
           false),
     Scenario.holding Scenario.validTokens Scenario.blank).
Proof.
  rewrite (@mf_auth_status_reports MiniJson.codec MiniRuntime.runtime Scenario.filePath
             Scenario.config (Scenario.holding Scenario.validTokens Scenario.blank)
             (Some Scenario.validTokens)).
  - vm_compute. reflexivity.
  - vm_compute. reflexivity.
Defined.

Example mf_auth_status_on_expired_token :
  (@CommonTools.mf_auth_status MiniRuntime.runtime
     (@authManager MiniJson.codec Scenario.filePath Scenario.config)
     Scenario.refreshable).1
  = Ok (mkCallToolResult ["Not authenticated. Run mf_auth_login to authenticate."] false).
Proof. vm_compute. reflexivity. Qed.

Lemma mf_auth_login_after_denial_witness :
  ∃ w1,
    @CommonTools.mf_auth_login MiniRuntime.runtime
      (@authManager MiniJson.codec Scenario.filePath Scenario.config) Scenario.refused
    = (Ok (mkCallToolResult ["Authentication failed: OAuth error: access_denied"] true), w1) ∧
    @CommonTools.mf_auth_login MiniRuntime.runtime
      (@authManager MiniJson.codec Scenario.filePath Scenario.config) w1
    = (Ok (mkCallToolResult
             ["Authentication failed: listen EADDRINUSE: address already in use"] true),
       (@CommonTools.mf_auth_login MiniRuntime.runtime
          (@authManager MiniJson.codec Scenario.filePath Scenario.config) w1).2).
Proof.
  destruct (@mf_auth_login_after_denial MiniJson.codec MiniRuntime.runtime
              Scenario.filePath Scenario.config Scenario.refused 5000%N
              (Scenario.callback [("error", "access_denied")]) [] "access_denied")
    as (w1 & Hfirst & Hbound & Hnext).
  - vm_compute. set_solver.
  - reflexivity.
  - reflexivity.
  - reflexivity.
  - exists w1. split; [exact Hfirst|].
    destruct (Hnext w1 Hbound) as (w3 & Hsecond & _). by rewrite Hsecond.
Defined.

Example registerCommonTools_names :
  tool_name <$> @CommonTools.registerCommonTools MiniRuntime.runtime
                  (@authManager MiniJson.codec Scenario.filePath Scenario.config) unit [] ()
  = ["mf_auth_status"; "mf_auth_login"].
Proof. reflexivity. Qed.

(* ===================================================================== *)
(** * client/mf-api-client.ts: what a call sends and gives *)
(* ===================================================================== *)

Lemma MA_bind_run {A B} (m : MA A) (k : A → MA B) (a : ApiWorld) :
  (m ≫= k) a =
  match m a with
  | (Returned x, a') => k x a'
  | (Raised e, a') => (Raised e, a')
  | (Unsettled, a') => (Unsettled, a')
  end.
Proof. reflexivity. Qed.

Section MfApiClientFacts.
Context `{JsonCodec} `{Runtime}.
Variable getToken : M TokenData.

Lemma request_run (url : string) (init : option RequestInit) (a : ApiWorld) :
  MfApiClient.request getToken url init a =
  match getToken (world a) with
  | (Ok t, w1) =>
      let sent := api_sent a ++
        [mkApiRequest url
           (mkRequestInit (init ≫= init_method) (init ≫= init_body)
              (Some (spread [ ("Authorization", "Bearer " +:+ access_token t);
                              ("Content-Type", "application/json") ]
                            (init ≫= init_headers))))] in
      match api_answers a with
      | ApiAnswer r :: rest =>
          if api_ok r then
            match JSON_parse (api_body r) with
            | Some v => (Returned v, mkApiWorld w1 rest sent)
            | None => (Raised (Native SyntaxError), mkApiWorld w1 rest sent)
            end
          else (Raised (MfApiError (api_status r) (api_statusText r) (api_body r)),
                mkApiWorld w1 rest sent)
      | ApiNetworkFailure :: rest =>
          (Raised (Native (TypeError "fetch failed")), mkApiWorld w1 rest sent)
      | [] => (Raised (Native (TypeError "fetch failed")), mkApiWorld w1 [] sent)
      end
  | (Throw e, w1) => (Raised (Native e), set_world w1 a)
  | (Pending, w1) => (Unsettled, set_world w1 a)
  end.
Proof.
  unfold MfApiClient.request, MfApiClient.headers.
  rewrite !MA_bind_run. unfold lift.
  destruct (getToken (world a)) as [[t|e|] w1]; [|reflexivity..].
  cbv beta iota. unfold mret, MA_ret. cbv beta iota.
  rewrite MA_bind_run. unfold api_fetch. simpl.
  destruct (api_answers a) as [|[|r] rest]; [reflexivity..|].
  destruct (api_ok r); [|reflexivity]. simpl. unfold api_json.
  destruct (JSON_parse (api_body r)); reflexivity.
Qed.

(** With the token at hand, [request] sends its one request and takes the
    next answer, whatever that answer is. *)
Lemma request_sends (url : string) (init : option RequestInit) (a : ApiWorld)
    (t : TokenData) (w1 : World) :
  getToken (world a) = (Ok t, w1) →
  ∃ r,
    MfApiClient.request getToken url init a =
    (r, mkApiWorld w1 (tail (api_answers a))
          (api_sent a ++
           [mkApiRequest url
              (mkRequestInit (init ≫= init_method) (init ≫= init_body)
                 (Some (spread [ ("Authorization", "Bearer " +:+ access_token t);
                                 ("Content-Type", "application/json") ]
                               (init ≫= init_headers))))])).
Proof.
  intros Htok. rewrite request_run, Htok. cbv zeta.
  destruct (api_answers a) as [|[|r] rest]; [by eexists..|].
  destruct (api_ok r); [|by eexists].
  destruct (JSON_parse (api_body r)); by eexists.
Qed.

(** Every call of the client asks for the token first and sends one
    request, with that token as the bearer; without a token nothing is
    sent. *)
Theorem api_call_sends_bearer_token (c : ApiCall) (a : ApiWorld) :
  match getToken (world a) with
  | (Ok t, w1) =>
      let '(_, a') := perform getToken c a in
      world a' = w1 ∧
      api_answers a' = tail (api_answers a) ∧
      api_sent a' = api_sent a ++
        [mkApiRequest
           match c with
           | GET url (Some params) => url +:+ "?" +:+ URLSearchParams_toString params
           | GET url None | POST url _ | PUT url _ | DELETE url => url
           end
           (mkRequestInit
              match c with
              | GET _ _ => None
              | POST _ _ => Some "POST"
              | PUT _ _ => Some "PUT"
              | DELETE _ => Some "DELETE"
              end
              match c with
              | POST _ body | PUT _ body =>
                  if js_truthy body then JSON_stringify_compact <$> body else None
              | GET _ _ | DELETE _ => None
              end
              (Some [ ("Authorization", "Bearer " +:+ access_token t);
                      ("Content-Type", "application/json") ]))]
  | (Throw e, w1) => perform getToken c a = (Raised (Native e), set_world w1 a)
  | (Pending, w1) => perform getToken c a = (Unsettled, set_world w1 a)
  end.
Proof.
  destruct c as [url [params|]|url body|url body|url];
    unfold perform, MfApiClient.get, MfApiClient.post, MfApiClient.put, MfApiClient.delete;
    rewrite request_run;
    (destruct (getToken (world a)) as [[t|e|] w1]; [|reflexivity..]);
    cbv zeta;
    (destruct (api_answers a) as [|[|r] rest]; [done..|]);
    (destruct (api_ok r); [|done]);
    (destruct (JSON_parse (api_body r)); done).
Qed.

(** What a call gives, once the token is there: the parsed body of an
    answer in 200..299, a [SyntaxError] when that body is not JSON, an
    [MfApiError] with the status, the status text and the body for any
    other status, and the error of [fetch] when no answer comes. *)
Theorem api_call_outcome (c : ApiCall) (a : ApiWorld) (t : TokenData) (w1 : World) :
  getToken (world a) = (Ok t, w1) →
  (perform getToken c a).1 =
  match api_answers a with
  | ApiAnswer r :: _ =>
      if api_ok r then
        match JSON_parse (api_body r) with
        | Some v => Returned v
        | None => Raised (Native SyntaxError)
        end
      else Raised (MfApiError (api_status r) (api_statusText r) (api_body r))
  | _ => Raised (Native (TypeError "fetch failed"))
  end.
Proof.
  intros Htok.
  destruct c as [url [params|]|url body|url body|url];
    unfold perform, MfApiClient.get, MfApiClient.post, MfApiClient.put, MfApiClient.delete;
    rewrite request_run, Htok; cbv zeta;
    (destruct (api_answers a) as [|[|r] rest]; [done..|]);
    (destruct (api_ok r); [|done]);
    (destruct (JSON_parse (api_body r)); done).
Qed.
End MfApiClientFacts.

Section ApiClientWiring.
Context `{JsonCodec} `{Runtime}.
Variable filePath : list string.
Variable config : OAuthConfig.

(** The client of [index.ts] on an expired token that can be refreshed:
    the call goes out with the refreshed access token, after one request
    to the token endpoint, and the refreshed token is in the file. *)
Theorem apiClient_refreshes_before_call (c : ApiCall) (a : ApiWorld)
    (t t' : TokenData) (w1 w2 : World) :
  TokenStore.load filePath (world a) = (Ok (Some t), world a) →
  TokenStore.isExpired t (world a) = (Ok true, world a) →
  OAuthClient.refreshToken config (refresh_token t) (world a) = (Ok t', w1) →
  TokenStore.save filePath t' w1 = (Ok (), w2) →
  let '(_, a') := apiClient filePath config c a in
  world a' = w2 ∧
  (∃ req, api_sent a' = api_sent a ++ [req] ∧
          init_headers (req_init req) =
            Some [ ("Authorization", "Bearer " +:+ access_token t');
                   ("Content-Type", "application/json") ]) ∧
  lookup_node (fs w2) filePath =
    Some (File mode_0o600 (JSON_stringify (TokenData_to_json t'))) ∧
  trace w2 = trace (world a) ++
    [Fetch MF_TOKEN_URL
       (URLSearchParams_toString
          (OAuthClient.buildRefreshRequestBody config (refresh_token t)))].
Proof.
  intros Hload Hexp Hrefresh Hsave.
  pose proof (getValidToken_refreshed (tokenStore filePath) (oauthClient config)
                t t' _ _ _ w1 w2 Hload Hexp Hrefresh Hsave) as Htok.
  change (authManager_getValidToken filePath config (world a) = (Ok t', w2)) in Htok.
  pose proof (refreshToken_frame _ _ _ _ _ Hrefresh) as (_ & _ & _ & _ & Htr).
  pose proof (save_result _ _ _ _ Hsave) as (Hfile & _).
  apply save_inv in Hsave as (f1 & f2 & f3 & _ & _ & _ & ->).
  unfold apiClient. simpl getValidToken.
  assert (∀ url init,
            let '(_, a') := MfApiClient.request (authManager_getValidToken filePath config)
                              url init a in
            world a' = set_fs f3 w1 ∧
            api_sent a' = api_sent a ++
              [mkApiRequest url
                 (mkRequestInit (init ≫= init_method) (init ≫= init_body)
                    (Some (spread [ ("Authorization", "Bearer " +:+ access_token t');
                                    ("Content-Type", "application/json") ]
                                  (init ≫= init_headers))))]) as Hreq.
  { intros url init. rewrite request_run, Htok. cbv zeta.
    destruct (api_answers a) as [|[|r] rest]; [done..|].
    destruct (api_ok r); [|done].
    destruct (JSON_parse (api_body r)); done. }
  destruct c as [url [params|]|url body|url body|url];
    unfold perform, MfApiClient.get, MfApiClient.post, MfApiClient.put, MfApiClient.delete;
    match goal with
    | |- context [MfApiClient.request _ ?u ?i a] => specialize (Hreq u i)
    end;
    destruct (MfApiClient.request _ _ _ a) as [r a']; destruct Hreq as [Hw Hs];
    (split; [exact Hw|]); (split; [eexists; split; [exact Hs|reflexivity]|]);
    (split; [exact Hfile|exact Htr]).
Qed.
End ApiClientWiring.

Lemma api_call_outcome_witness :
  (@perform MiniJson.codec MiniRuntime.runtime (@authManager_getValidToken MiniJson.codec Scenario.filePath Scenario.config)
     (DELETE "https://invoice.moneyforward.com/api/v3/items/42")
     (Scenario.calling [ApiAnswer (mkApiResponse 204 "No Content" "")]
        (Scenario.holding Scenario.validTokens Scenario.blank))).1
  = Raised (Native SyntaxError).
Proof.
  rewrite (@api_call_outcome MiniJson.codec MiniRuntime.runtime _ _ _
             Scenario.validTokens (Scenario.holding Scenario.validTokens Scenario.blank)).
  - reflexivity.
  - vm_compute. reflexivity.
Defined.

Example api_call_on_not_found :
  (@perform MiniJson.codec MiniRuntime.runtime (@authManager_getValidToken MiniJson.codec Scenario.filePath Scenario.config)
     (GET "https://example.com/not-found" None)
     (Scenario.calling [ApiAnswer (mkApiResponse 404 "Not Found" "{}")]
        (Scenario.holding Scenario.validTokens Scenario.blank))).1
  = Raised (MfApiError 404 "Not Found" "{}").
Proof. vm_compute. reflexivity. Qed.

Example MfApiError_message :
  @Thrown_message MiniRuntime.runtime (MfApiError 404 "Not Found" "{}")
  = "MF API error 404: Not Found".
Proof. vm_compute. reflexivity. Qed.

Example api_call_post_request :
  api_sent
    (@perform MiniJson.codec MiniRuntime.runtime (@authManager_getValidToken MiniJson.codec Scenario.filePath Scenario.config)
       (POST "https://example.com/things" (Some (JObj [("amount", JNum 1000)])))
       (Scenario.calling [ApiAnswer (mkApiResponse 200 "OK" "{}")]
          (Scenario.holding Scenario.validTokens Scenario.blank))).2
  = [mkApiRequest "https://example.com/things"
       (mkRequestInit (Some "POST") (Some (MiniRuntime.stringify_compact (JObj [("amount", JNum 1000)])))
          (Some [("Authorization", "Bearer valid-access");
                 ("Content-Type", "application/json")]))].
Proof. vm_compute. reflexivity. Qed.

Lemma apiClient_refreshes_before_call_witness :
  let '(_, a') :=
    @apiClient MiniJson.codec MiniRuntime.runtime Scenario.filePath Scenario.config
      (GET "https://example.com/things" None)
      (Scenario.calling [ApiAnswer (mkApiResponse 200 "OK" "{}")] Scenario.refreshable) in
  ∃ req,
    api_sent a' = [req] ∧
    init_headers (req_init req) =
      Some [("Authorization", "Bearer new-access"); ("Content-Type", "application/json")].
Proof.
  pose proof (@apiClient_refreshes_before_call MiniJson.codec MiniRuntime.runtime
                Scenario.filePath Scenario.config (GET "https://example.com/things" None)
                (Scenario.calling [ApiAnswer (mkApiResponse 200 "OK" "{}")]
                   Scenario.refreshable)
                Scenario.expiredTokens Scenario.refreshedTokens
                (OAuthClient.refreshToken Scenario.config "expired-refresh"
                   Scenario.refreshable).2
                (@authManager_getValidToken MiniJson.codec Scenario.filePath Scenario.config
                   Scenario.refreshable).2
                ltac:(vm_compute; reflexivity) ltac:(vm_compute; reflexivity)
                ltac:(vm_compute; reflexivity) ltac:(vm_compute; reflexivity)) as Hrun.
  destruct (apiClient _ _ _ _) as [r a']. by destruct Hrun as (_ & Hreq & _).
Defined.

Example index_tokenPath_home : index_tokenPath ["home"; "user"] = Scenario.filePath.
Proof. reflexivity. Qed.

(* ===================================================================== *)
(** * tools/invoice/items.ts: the requests of the handlers *)
(* ===================================================================== *)

Section InvoiceItemToolsFacts.
Context `{JsonCodec} `{Runtime}.
Variable INVOICE_BASE_URL : string.
Variable api : M TokenData.

(** [invoice_list_items] asks for [/items?] followed by the filters that
    are given and truthy, in the order page, per_page, name, code: a page
    of 0 and an empty name or code are left out like absent ones, and the
    question mark is there even when no filter is. *)
Theorem invoice_list_items_query (input : InvoiceItemTools.ListInput) (a : ApiWorld)
    (t : TokenData) (w1 : World) :
  api (world a) = (Ok t, w1) →
  let '(_, a') := InvoiceItemTools.invoice_list_items INVOICE_BASE_URL api input a in
  ∃ req,
    api_sent a' = api_sent a ++ [req] ∧
    init_method (req_init req) = None ∧
    req_url req =
      (INVOICE_BASE_URL +:+ "/items") +:+ "?" +:+
      URLSearchParams_toString
        (omap id
           [ (λ n, ("page", pretty n)) <$> truthy_number (InvoiceItemTools.page input);
             (λ n, ("per_page", pretty n)) <$> truthy_number (InvoiceItemTools.per_page input);
             (λ s, ("name", s)) <$> truthy (InvoiceItemTools.name input);
             (λ s, ("code", s)) <$> truthy (InvoiceItemTools.code input) ]).
Proof.
  intros Htok. unfold InvoiceItemTools.invoice_list_items.
  rewrite MA_bind_run. unfold MfApiClient.get. cbv zeta.
  destruct (truthy_number (InvoiceItemTools.page input)),
           (truthy_number (InvoiceItemTools.per_page input)),
           (truthy (InvoiceItemTools.name input)),
           (truthy (InvoiceItemTools.code input));
    match goal with
    | |- context [MfApiClient.request api ?u ?i a] =>
        destruct (request_sends api u i a t w1 Htok) as [r ->]
    end;
    destruct r; (eexists; split; [reflexivity|split; reflexivity]).
Qed.

(** [invoice_delete_item] says [Item id deleted.] only when the answer is
    in 200..299 and its body is JSON: an answer in 200..299 with any other
    body, an empty one included, makes the handler throw a [SyntaxError],
    and any other status an [MfApiError]. *)
Theorem invoice_delete_item_outcome (id : string) (a : ApiWorld)
    (t : TokenData) (w1 : World) (r : ApiResponse) (rest : list ApiFetchResult) :
  api (world a) = (Ok t, w1) →
  api_answers a = ApiAnswer r :: rest →
  (InvoiceItemTools.invoice_delete_item INVOICE_BASE_URL api id a).1 =
  if api_ok r then
    match JSON_parse (api_body r) with
    | Some _ => Returned (mkCallToolResult ["Item " +:+ id +:+ " deleted."] false)
    | None => Raised (Native SyntaxError)
    end
  else Raised (MfApiError (api_status r) (api_statusText r) (api_body r)).
Proof.
  intros Htok Hans. unfold InvoiceItemTools.invoice_delete_item.
  rewrite MA_bind_run. unfold MfApiClient.delete. rewrite request_run, Htok, Hans.
  cbv zeta. destruct (api_ok r); [|reflexivity].
  destruct (JSON_parse (api_body r)); reflexivity.
Qed.

End InvoiceItemToolsFacts.

Lemma invoice_list_items_query_witness :
  let '(_, a') :=
    @InvoiceItemTools.invoice_list_items MiniJson.codec
      Scenario.items_url
      (@authManager_getValidToken MiniJson.codec Scenario.filePath Scenario.config)
      (InvoiceItemTools.mkListInput (Some 0) None (Some "") None)
      (Scenario.calling [ApiAnswer (mkApiResponse 200 "OK" "[]")]
         (Scenario.holding Scenario.validTokens Scenario.blank)) in
  ∃ req,
    api_sent a' = [req] ∧
    init_method (req_init req) = None ∧
    req_url req = "https://invoice.moneyforward.com/api/v3/items?".
Proof.
  pose proof (@invoice_list_items_query MiniJson.codec
                Scenario.items_url
                (@authManager_getValidToken MiniJson.codec Scenario.filePath Scenario.config)
                (InvoiceItemTools.mkListInput (Some 0) None (Some "") None)
                (Scenario.calling [ApiAnswer (mkApiResponse 200 "OK" "[]")]
                   (Scenario.holding Scenario.validTokens Scenario.blank))
                Scenario.validTokens
                (Scenario.holding Scenario.validTokens Scenario.blank)
                ltac:(vm_compute; reflexivity)) as Hrun.
  destruct (InvoiceItemTools.invoice_list_items _ _ _ _) as [r a']. exact Hrun.
Defined.

Lemma invoice_delete_item_outcome_witness :
  (@InvoiceItemTools.invoice_delete_item MiniJson.codec
     Scenario.items_url
     (@authManager_getValidToken MiniJson.codec Scenario.filePath Scenario.config)
     "42"
     (Scenario.calling [ApiAnswer (mkApiResponse 204 "No Content" "")]
        (Scenario.holding Scenario.validTokens Scenario.blank))).1
  = Raised (Native SyntaxError).
Proof.
  rewrite (@invoice_delete_item_outcome MiniJson.codec
             Scenario.items_url _ "42" _ Scenario.validTokens
             (Scenario.holding Scenario.validTokens Scenario.blank)
             (mkApiResponse 204 "No Content" "") []).
  - reflexivity.
  - vm_compute. reflexivity.
  - reflexivity.
Defined.

Example invoice_delete_item_on_json_answer :
  (@InvoiceItemTools.invoice_delete_item MiniJson.codec
     Scenario.items_url
     (@authManager_getValidToken MiniJson.codec Scenario.filePath Scenario.config)
     "42"
     (Scenario.calling [ApiAnswer (mkApiResponse 200 "OK" "{}")]
        (Scenario.holding Scenario.validTokens Scenario.blank))).1
  = Returned (mkCallToolResult ["Item 42 deleted."] false).
Proof. vm_compute. reflexivity. Qed.
